(** * ocr-tool: parser, tagger, analyzer, the upload route and the worker

    A shallow embedding of [backend/src/parser.ts], [backend/src/awsTagger.ts],
    [backend/src/analyzer.ts], of the upload route of [backend/src/index.ts]
    from the list of image files on, with [getAllImageFiles], and of the
    worker of [backend/src/ocr.ts], followed by the properties the
    specification states about them and by further properties of the code.

    Modelling conventions.
    - A JavaScript string is a [string] of 8-bit characters; the statements
      are read for ASCII texts, on which [toUpperCase], [trim], [\s] and the
      case-insensitive comparison of the [i] flag act as defined below.
    - A JavaScript object used as a dictionary ([serviceBreakdown],
      [domainBreakdown]) and a [Map] ([keywordMap]) are association lists in
      insertion order, which is the order [Object.keys], [Object.entries]
      and [Map.prototype.entries] enumerate ordinary string keys in.  Keys
      are taken to be ordinary property names, as every name the tagger
      produces is.
    - Counters are natural numbers.  An accuracy is the exact rational
      [correct / total * 100]; at each threshold the code compares against
      (50, 60, 65, 70, 75, 85) the double computed by the source is that
      threshold itself, so the comparisons agree.
    - [Array.prototype.sort] is a stable sort driven by the sign of the
      comparator.
    - The file system and the OCR engine are parameters: what
      [fs.readFileSync], [path.basename], [createWorker] and
      [worker.recognize] return or throw.  A directory is the tree of its
      entries; [worker.terminate] is taken to return.
    - An asynchronous call of [ocr.ts] runs from one [await] to the next;
      a list of events says which call is made or resumed next, so that
      calls of different requests may overlap. *)

From Stdlib Require Import String Ascii List Bool Arith Lia.
From Stdlib Require Import ZArith QArith Permutation Sorted.
From Stdlib Require Import PrimFloat.
Import ListNotations.
Local Close Scope Q_scope.
Local Open Scope list_scope.
Local Open Scope string_scope.
Local Open Scope nat_scope.

Set Implicit Arguments.

(* ================================================================== *)
(** * Strings *)

Module Str.

Definition code (c : ascii) : nat := nat_of_ascii c.

(** [\s] on ASCII: tab, line feed, vertical tab, form feed, carriage
    return, space. *)
Definition isSpace (c : ascii) : bool :=
  let n := code c in ((9 <=? n) && (n <=? 13)) || (n =? 32).

Definition isLower (c : ascii) : bool :=
  let n := code c in (97 <=? n) && (n <=? 122).

Definition upperChar (c : ascii) : ascii :=
  if isLower c then ascii_of_nat (code c - 32) else c.

Definition isUpper (c : ascii) : bool :=
  let n := code c in (65 <=? n) && (n <=? 90).

Definition lowerChar (c : ascii) : ascii :=
  if isUpper c then ascii_of_nat (code c + 32) else c.

Fixpoint toUpperCase (s : string) : string :=
  match s with
  | EmptyString => EmptyString
  | String c s' => String (upperChar c) (toUpperCase s')
  end.

Fixpoint toLowerCase (s : string) : string :=
  match s with
  | EmptyString => EmptyString
  | String c s' => String (lowerChar c) (toLowerCase s')
  end.

Fixpoint rev_onto (s acc : string) : string :=
  match s with
  | EmptyString => acc
  | String c s' => rev_onto s' (String c acc)
  end.

Definition rev (s : string) : string := rev_onto s EmptyString.

Fixpoint trimStart (s : string) : string :=
  match s with
  | EmptyString => EmptyString
  | String c s' => if isSpace c then trimStart s' else s
  end.

Definition trimEnd (s : string) : string := rev (trimStart (rev s)).

Definition trim (s : string) : string := trimEnd (trimStart s).

(** [s.startsWith(p)] *)
Fixpoint startsWith (p s : string) : bool :=
  match p, s with
  | EmptyString, _ => true
  | String a p', String b s' => Ascii.eqb a b && startsWith p' s'
  | String _ _, EmptyString => false
  end.

(** [s.includes(p)] *)
Fixpoint includes (s p : string) : bool :=
  startsWith p s ||
  match s with
  | EmptyString => false
  | String _ s' => includes s' p
  end.

(** [xs.join(sep)] *)
Fixpoint join (sep : string) (xs : list string) : string :=
  match xs with
  | [] => ""
  | [x] => x
  | x :: rest => x ++ sep ++ join sep rest
  end.

(** The first [n] characters of [s]. *)
Fixpoint take (n : nat) (s : string) : string :=
  match n, s with
  | S n', String c s' => String c (take n' s')
  | _, _ => EmptyString
  end.

(** The two [replace] calls that normalise line breaks: the first turns
    each CR LF into LF, the second every CR left. *)
Fixpoint replaceCRLF (s : string) : string :=
  match s with
  | EmptyString => EmptyString
  | String c s' =>
      match s' with
      | String d s'' =>
          if (code c =? 13) && (code d =? 10)
          then String d (replaceCRLF s'')
          else String c (replaceCRLF s')
      | EmptyString => String c EmptyString
      end
  end.

Fixpoint replaceCR (s : string) : string :=
  match s with
  | EmptyString => EmptyString
  | String c s' =>
      String (if code c =? 13 then ascii_of_nat 10 else c) (replaceCR s')
  end.

End Str.

(* ================================================================== *)
(** * Regular expressions

    The fragment of ECMAScript regular expressions the parser uses, with the
    backtracking semantics of the language: alternatives are tried left to
    right, a greedy quantifier tries one more iteration before it tries to
    stop and a lazy one the other way round, an iteration that consumes
    nothing is rejected, and a lookahead is matched once and not re-entered.
    The matcher works on the suffix of the input that starts at the current
    position, which is enough for patterns without [^], [\b] or
    lookbehind. *)

Module Regex.

Inductive regex : Type :=
| Eps
| Chr (p : ascii -> bool)
| Seq (r1 r2 : regex)
| Alt (r1 r2 : regex)
| Star (greedy : bool) (r : regex)
| Group (i : nat) (r : regex)
| Ahead (r : regex)
| Eos.

(** Numbered capture groups, innermost binding first. *)
Definition caps := list (nat * string).

Definition result := option (caps * string).

Definition cont := string -> caps -> result.

Definition done : cont := fun s c => Some (c, s).

Fixpoint capture (i : nat) (c : caps) : option string :=
  match c with
  | [] => None
  | (j, v) :: c' => if i =? j then Some v else capture i c'
  end.

(** The iterations of a quantified [body].  [n] bounds the iterations
    left; every iteration shortens the input, so the length of the input
    is a bound that is never reached before the input runs out. *)
Fixpoint starLoop (body : string -> caps -> cont -> result)
  (greedy : bool) (k : cont) (n : nat) (s : string) (c : caps)
  {struct n} : result :=
  match n with
  | O => k s c
  | S n' =>
      let again : cont :=
        fun s' c' =>
          if String.length s' <? String.length s
          then starLoop body greedy k n' s' c'
          else None in
      if greedy then
        match body s c again with
        | Some x => Some x
        | None => k s c
        end
      else
        match k s c with
        | Some x => Some x
        | None => body s c again
        end
  end.

Fixpoint rmatch (r : regex) (s : string) (c : caps) (k : cont)
  {struct r} : result :=
  match r with
  | Eps => k s c
  | Chr p =>
      match s with
      | String a s' => if p a then k s' c else None
      | EmptyString => None
      end
  | Seq r1 r2 => rmatch r1 s c (fun s' c' => rmatch r2 s' c' k)
  | Alt r1 r2 =>
      match rmatch r1 s c k with
      | Some x => Some x
      | None => rmatch r2 s c k
      end
  | Star greedy r' =>
      starLoop (rmatch r') greedy k (String.length s) s c
  | Group i r' =>
      rmatch r' s c
        (fun s' c' =>
           k s' ((i, Str.take (String.length s - String.length s') s) :: c'))
  | Ahead r' =>
      match rmatch r' s c done with
      | Some (c', _) => k s c'
      | None => None
      end
  | Eos =>
      match s with
      | EmptyString => k s c
      | String _ _ => None
      end
  end.

(** A match that starts at the current position. *)
Definition matchHere (r : regex) (s : string) : result :=
  rmatch r s [] done.

(** The leftmost match: [text.match(re)] and one [re.exec(text)] step. *)
Fixpoint search (r : regex) (s : string) : result :=
  match matchHere r s with
  | Some x => Some x
  | None =>
      match s with
      | EmptyString => None
      | String _ s' => search r s'
      end
  end.

(** ** Pattern syntax *)

Definition plus (r : regex) : regex := Seq r (Star true r).
Definition opt (r : regex) : regex := Alt r Eps.

(** A pattern character under the [i] flag. *)
Definition ci (a : ascii) : regex :=
  Chr (fun b => Ascii.eqb (Str.upperChar a) (Str.upperChar b)).

(** A literal under the [i] flag. *)
Fixpoint lit (s : string) : regex :=
  match s with
  | EmptyString => Eps
  | String a s' => Seq (ci a) (lit s')
  end.

(** [.] under the [s] flag. *)
Definition dot : regex := Chr (fun _ => true).

(** [\s] *)
Definition space : regex := Chr Str.isSpace.

(** [[:\s]] *)
Definition colonOrSpace : regex :=
  Chr (fun b => Ascii.eqb b ":" || Str.isSpace b).

(** [[A-D]] under the [i] flag. *)
Definition letterAD : regex :=
  Chr (fun b => let n := Str.code (Str.upperChar b) in
                (65 <=? n) && (n <=? 68)).

(** [[:\)\.]] *)
Definition separator : regex :=
  Chr (fun b => Ascii.eqb b ":" || Ascii.eqb b ")" || Ascii.eqb b ".").

(** [[^\n]] *)
Definition notNewline : regex := Chr (fun b => negb (Str.code b =? 10)).

End Regex.

(* ================================================================== *)
(** * parser.ts *)

Module Parser.
Import Regex.

Record ParsedQuestion : Type := {
  question : string;
  options : list string;
  yourAnswer : string;
  correctAnswer : string;
  explanation : string;
  rawText : string
}.

(** The patterns of [parseQuestion], each quoted with blanks between its
    tokens.

    Question, flags [is]:
    [(?: Question [:\s]* | Q [:\s]* ) ( .*? )
     (?= (?: A\) | Options: | Your Answer: | Correct Answer: | $ ) )] *)
Definition questionRegex : regex :=
  Seq (Alt (Seq (lit "Question") (Star true colonOrSpace))
           (Seq (lit "Q") (Star true colonOrSpace)))
      (Seq (Group 1 (Star false dot))
           (Ahead (Alt (lit "A)")
                  (Alt (lit "Options:")
                  (Alt (lit "Your Answer:")
                  (Alt (lit "Correct Answer:") Eos)))))).

(** Options, flags [gi]:  [( [A-D] ) [:\)\.]? \s* ( [^\n]+ )] *)
Definition optionsRegex : regex :=
  Seq (Group 1 letterAD)
      (Seq (opt separator)
      (Seq (Star true space)
           (Group 2 (plus notNewline)))).

(** The label both answer patterns start with, under the [i] flag:
    [Your \s+ Answer] and [Correct \s+ Answer]. *)
Definition label (word : string) : regex :=
  Seq (lit word) (Seq (plus space) (lit "Answer")).

(** Your answer, flag [i]:  [Your \s+ Answer [:\s]* ( [A-D] )] *)
Definition yourAnswerRegex : regex :=
  Seq (label "Your") (Seq (Star true colonOrSpace) (Group 1 letterAD)).

(** Correct answer, flag [i]:  [Correct \s+ Answer [:\s]* ( [A-D] )] *)
Definition correctAnswerRegex : regex :=
  Seq (label "Correct") (Seq (Star true colonOrSpace) (Group 1 letterAD)).

(** Explanation, flags [is]:  [Explanation [:\s]* ( .*? ) $] *)
Definition explanationRegex : regex :=
  Seq (lit "Explanation")
      (Seq (Star true colonOrSpace)
      (Seq (Group 1 (Star false dot)) Eos)).

(** Capture [i] of a match; a group that took no part reads as empty. *)
Definition group (i : nat) (c : caps) : string :=
  match capture i c with
  | Some v => v
  | None => ""
  end.

(** The [while ((match = optionsRegex.exec(normalized)) !== null)] loop:
    each round resumes at the end of the previous match.  Every match of
    [optionsRegex] consumes at least two characters, so [fuel] equal to
    the length of the text is never exhausted. *)
Fixpoint optionsLoop (fuel : nat) (s : string) : list string :=
  match fuel with
  | O => []
  | S fuel' =>
      match search optionsRegex s with
      | None => []
      | Some (c, rest) =>
          (group 1 c ++ ": " ++ Str.trim (group 2 c))
            :: (if String.length rest <? String.length s
                then optionsLoop fuel' rest else [])
      end
  end.

(** Normalize line breaks. *)
Definition normalize (text : string) : string :=
  Str.replaceCR (Str.replaceCRLF text).

Definition parseQuestion (text : string) : ParsedQuestion :=
  let normalized := normalize text in
  {| question :=
       match search questionRegex normalized with
       | Some (c, _) => Str.trim (group 1 c)
       | None => ""
       end;
     options := optionsLoop (String.length normalized) normalized;
     yourAnswer :=
       match search yourAnswerRegex normalized with
       | Some (c, _) => Str.toUpperCase (group 1 c)
       | None => ""
       end;
     correctAnswer :=
       match search correctAnswerRegex normalized with
       | Some (c, _) => Str.toUpperCase (group 1 c)
       | None => ""
       end;
     explanation :=
       match search explanationRegex normalized with
       | Some (c, _) => Str.trim (group 1 c)
       | None => ""
       end;
     rawText := text |}.

(** Whether the text carries the label [word \s+ Answer] in any letter
    case, where [parseQuestion] looks for it. *)
Definition hasLabel (word text : string) : bool :=
  match search (label word) (normalize text) with
  | Some _ => true
  | None => false
  end.

End Parser.

(* ================================================================== *)
(** * awsTagger.ts *)

Module Tagger.

Record AWSTags : Type := {
  services : list string;
  domains : list string;
  keywords : list string
}.

Definition AWS_SERVICES : list string :=
  [ (* Compute *)
    "EC2"; "Lambda"; "Elastic Beanstalk"; "ECS"; "EKS"; "Fargate";
    "Lightsail";
    (* Storage *)
    "S3"; "EBS"; "EFS"; "FSx"; "Storage Gateway"; "Glacier";
    (* Database *)
    "RDS"; "DynamoDB"; "ElastiCache"; "Aurora"; "DocumentDB"; "Neptune";
    "Redshift"; "MemoryDB";
    (* Networking *)
    "VPC"; "CloudFront"; "Route 53"; "API Gateway"; "Direct Connect";
    "ELB"; "ALB"; "NLB"; "Global Accelerator";
    (* Security & Identity *)
    "IAM"; "Cognito"; "Secrets Manager"; "KMS"; "Systems Manager";
    "Parameter Store"; "WAF"; "Shield"; "GuardDuty"; "Inspector";
    (* Messaging & Integration *)
    "SQS"; "SNS"; "EventBridge"; "Step Functions"; "SWF"; "Amazon MQ";
    "Kinesis"; "AppSync";
    (* Developer Tools *)
    "CodeCommit"; "CodeBuild"; "CodeDeploy"; "CodePipeline";
    "CodeArtifact"; "CodeGuru"; "X-Ray"; "CloudFormation";
    (* Monitoring & Logging *)
    "CloudWatch"; "CloudTrail"; "Config"; "Systems Manager";
    (* Containers *)
    "ECR"; "App Runner";
    (* Serverless *)
    "SAM"; "Amplify" ].

Definition DOMAINS : list (string * list string) :=
  [ ("Development with AWS Services",
      ["Lambda"; "API Gateway"; "DynamoDB"; "S3"; "SQS"; "SNS";
       "EventBridge"; "Step Functions"]);
    ("Security",
      ["IAM"; "Cognito"; "KMS"; "Secrets Manager"; "Parameter Store";
       "WAF"; "X-Ray"]);
    ("Deployment",
      ["CodeDeploy"; "CodePipeline"; "CodeBuild"; "CodeCommit";
       "Elastic Beanstalk"; "CloudFormation"; "SAM"]);
    ("Troubleshooting and Optimization",
      ["CloudWatch"; "X-Ray"; "CloudTrail"; "ElastiCache"; "DynamoDB";
       "Lambda"]) ].

Definition KEYWORDS : list string :=
  [ "serverless"; "microservices"; "container"; "scaling";
    "high availability"; "fault tolerant"; "cost optimization";
    "performance"; "security"; "encryption"; "caching"; "monitoring";
    "logging"; "deployment"; "CI/CD"; "blue-green"; "canary"; "rollback";
    "throttling"; "rate limiting"; "CORS"; "authentication";
    "authorization"; "least privilege"; "IAM role"; "policy"; "VPC";
    "subnet"; "security group"; "NACL"; "queue"; "topic"; "event-driven";
    "asynchronous"; "synchronous"; "idempotent"; "stateless"; "stateful";
    "cold start" ].

(** The body of the loop over [AWS_SERVICES]: the test that decides
    whether [service] is pushed. *)
Definition mentions (upperText service : string) : bool :=
  let serviceUpper := Str.toUpperCase service in
  Str.includes upperText serviceUpper
  || Str.includes upperText ("AWS " ++ serviceUpper).

Definition tagQuestion (text : string) : AWSTags :=
  let upperText := Str.toUpperCase text in
  let services := filter (mentions upperText) AWS_SERVICES in
  let domains :=
    map fst
      (filter
         (fun entry : string * list string =>
            existsb
              (fun s =>
                 existsb
                   (fun ts =>
                      String.eqb (Str.toUpperCase ts) (Str.toUpperCase s))
                   services)
              (snd entry))
         DOMAINS) in
  let keywords :=
    filter
      (fun keyword => Str.includes upperText (Str.toUpperCase keyword))
      KEYWORDS in
  {| services := services; domains := domains; keywords := keywords |}.

End Tagger.

(* ================================================================== *)
(** * Dictionaries, numbers and sorting *)

Module Dict.
Section Dict.
Variable V : Type.

(** An object with string keys, or a [Map], in insertion order. *)
Definition t := list (string * V).

Fixpoint get (d : t) (k : string) : option V :=
  match d with
  | [] => None
  | (k', v) :: d' => if String.eqb k k' then Some v else get d' k
  end.

(** [d[k] = v] and [m.set(k, v)]: a present key keeps its place, a new
    key goes last. *)
Fixpoint set (d : t) (k : string) (v : V) : t :=
  match d with
  | [] => [(k, v)]
  | (k', v') :: d' =>
      if String.eqb k k' then (k', v) :: d' else (k', v') :: set d' k v
  end.

Definition keys (d : t) : list string := map fst d.

End Dict.
End Dict.

Module Num.

Definition ofNat (n : nat) : Q := inject_Z (Z.of_nat n).

(** [a < b] and [a >= b] on numbers. *)
Definition ltb (a b : Q) : bool := negb (Qle_bool b a).
Definition geb (a b : Q) : bool := Qle_bool b a.

(** [(correct / total) * 100] *)
Definition percent (correct total : nat) : Q :=
  (ofNat correct / ofNat total * 100)%Q.

End Num.

(** The same percentage as the source computes it, in binary64. *)
Module Double.

Definition percent (correct total : PrimFloat.float) : PrimFloat.float :=
  PrimFloat.mul (PrimFloat.div correct total) 100%float.

End Double.

Module Sorting.
Section Sort.
Variable A : Type.
(** The comparator passed to [sort]: negative when its first argument
    goes first, positive when its second does. *)
Variable cmp : A -> A -> Q.

(** [x] enters a sorted list in front of the first element it does not
    have to follow, so elements that compare equal keep their order. *)
Fixpoint insert (x : A) (l : list A) : list A :=
  match l with
  | [] => [x]
  | y :: l' =>
      if Num.ltb 0 (cmp x y) then y :: insert x l' else x :: y :: l'
  end.

Fixpoint sort (l : list A) : list A :=
  match l with
  | [] => []
  | x :: l' => insert x (sort l')
  end.

End Sort.
End Sorting.

(* ================================================================== *)
(** * analyzer.ts *)

Module Analyzer.

Record QuestionAnalysis : Type := {
  file : string;
  parsed : Parser.ParsedQuestion;
  tags : Tagger.AWSTags;
  isCorrect : bool
}.

Module Breakdown.
Record t : Type := {
  total : nat;
  correct : nat;
  incorrect : nat;
  accuracy : Q
}.
End Breakdown.

(** The element type of [weakAreas] and [strongAreas]. *)
Module Area.
Record t : Type := {
  service : string;
  accuracy : Q;
  questionsReviewed : nat
}.
End Area.

Module Keyword.
Record t : Type := {
  keyword : string;
  count : nat
}.
End Keyword.

Record StudySummary : Type := {
  totalQuestions : nat;
  correctCount : nat;
  incorrectCount : nat;
  accuracy : Q;
  serviceBreakdown : Dict.t Breakdown.t;
  domainBreakdown : Dict.t Breakdown.t;
  weakAreas : list Area.t;
  strongAreas : list Area.t;
  topKeywords : list Keyword.t;
  recommendations : list string
}.

Module Heat.
Record t : Type := {
  service : string;
  accuracy : Q;
  total : nat;
  color : string;
  status : string
}.
End Heat.

(** ** Breakdowns *)

Definition emptyBreakdown : Breakdown.t :=
  {| Breakdown.total := 0; Breakdown.correct := 0;
     Breakdown.incorrect := 0; Breakdown.accuracy := 0%Q |}.

(** [total++] and then [correct++] or [incorrect++]. *)
Definition bump (isCorrect : bool) (b : Breakdown.t) : Breakdown.t :=
  {| Breakdown.total := S (Breakdown.total b);
     Breakdown.correct :=
       if isCorrect then S (Breakdown.correct b) else Breakdown.correct b;
     Breakdown.incorrect :=
       if isCorrect then Breakdown.incorrect b
       else S (Breakdown.incorrect b);
     Breakdown.accuracy := Breakdown.accuracy b |}.

(** The body of the inner [forEach]: create the entry when the key is
    new, then count the observation. *)
Definition observe (isCorrect : bool) (bd : Dict.t Breakdown.t)
  (key : string) : Dict.t Breakdown.t :=
  let entry :=
    match Dict.get bd key with
    | Some b => b
    | None => emptyBreakdown
    end in
  Dict.set bd key (bump isCorrect entry).

(** The two nested [forEach] loops over the analyses and over the keys
    [select] picks from each one's tags. *)
Definition buildBreakdown (select : Tagger.AWSTags -> list string)
  (analyses : list QuestionAnalysis) : Dict.t Breakdown.t :=
  fold_left
    (fun bd analysis =>
       fold_left (observe (isCorrect analysis)) (select (tags analysis)) bd)
    analyses [].

(** [breakdown.accuracy = (breakdown.correct / breakdown.total) * 100];
    the quotient by a zero total, a NaN in the source, is left as [Q]
    gives it and never arises. *)
Definition setAccuracy (b : Breakdown.t) : Breakdown.t :=
  {| Breakdown.total := Breakdown.total b;
     Breakdown.correct := Breakdown.correct b;
     Breakdown.incorrect := Breakdown.incorrect b;
     Breakdown.accuracy :=
       Num.percent (Breakdown.correct b) (Breakdown.total b) |}.

Definition computeAccuracies (bd : Dict.t Breakdown.t)
  : Dict.t Breakdown.t :=
  map (fun entry => (fst entry, setAccuracy (snd entry))) bd.

(** ** Weak and strong areas *)

Definition toArea (entry : string * Breakdown.t) : Area.t :=
  {| Area.service := fst entry;
     Area.accuracy := Breakdown.accuracy (snd entry);
     Area.questionsReviewed := Breakdown.total (snd entry) |}.

Definition isWeak (data : Breakdown.t) : bool :=
  (2 <=? Breakdown.total data)
  && Num.ltb (Breakdown.accuracy data) 70.

Definition isStrong (data : Breakdown.t) : bool :=
  (2 <=? Breakdown.total data)
  && negb (Num.ltb (Breakdown.accuracy data) 70)
  && Num.geb (Breakdown.accuracy data) 85.

Definition collectWeak (bd : Dict.t Breakdown.t) : list Area.t :=
  map toArea (filter (fun entry => isWeak (snd entry)) bd).

Definition collectStrong (bd : Dict.t Breakdown.t) : list Area.t :=
  map toArea (filter (fun entry => isStrong (snd entry)) bd).

(** [(a, b) => a.accuracy - b.accuracy] and [(a, b) => b.accuracy - a.accuracy] *)
Definition byAccuracyAsc (a b : Area.t) : Q :=
  (Area.accuracy a - Area.accuracy b)%Q.
Definition byAccuracyDesc (a b : Area.t) : Q :=
  (Area.accuracy b - Area.accuracy a)%Q.

(** ** Keyword frequency *)

(** [keywordMap.set(keyword, (keywordMap.get(keyword) || 0) + 1)] *)
Definition countKeyword (m : Dict.t nat) (keyword : string) : Dict.t nat :=
  Dict.set m keyword
    (match Dict.get m keyword with
     | Some n => n
     | None => 0
     end + 1).

Definition keywordMap (analyses : list QuestionAnalysis) : Dict.t nat :=
  fold_left
    (fun m analysis =>
       fold_left countKeyword (Tagger.keywords (tags analysis)) m)
    analyses [].

Definition toKeyword (entry : string * nat) : Keyword.t :=
  {| Keyword.keyword := fst entry; Keyword.count := snd entry |}.

(** [(a, b) => b.count - a.count] *)
Definition byCountDesc (a b : Keyword.t) : Q :=
  (Num.ofNat (Keyword.count b) - Num.ofNat (Keyword.count a))%Q.

Definition computeTopKeywords (analyses : list QuestionAnalysis)
  : list Keyword.t :=
  firstn 15
    (Sorting.sort byCountDesc (map toKeyword (keywordMap analyses))).

(** ** Recommendations *)

Definition msgFundamentals : string :=
  "📚 Overall score below 60% - recommend reviewing AWS fundamentals and service overviews".
Definition msgOnTrack : string :=
  "📈 You're on track! Focus on weak areas to boost your score above 75%".
Definition msgExamReady : string :=
  "🎯 Excellent performance! You're exam-ready. Focus on scenario-based practice".
Definition msgSecurity : string :=
  "🔐 Security pattern detected - review IAM policies, KMS encryption, and Cognito authentication".
Definition msgServerless : string :=
  "⚡ Serverless concepts need attention - review Lambda triggers, async patterns, and cold starts".
Definition msgMoreQuestions : string :=
  "📊 Process more questions (20+) for accurate weak-area detection".

Definition msgPriority (topWeak : string) : string :=
  "⚠️ Priority review needed: " ++ topWeak.

Definition SECURITY_SERVICES : list string :=
  ["IAM"; "KMS"; "Cognito"; "Secrets Manager"].

Definition isSecurityMistake (a : QuestionAnalysis) : bool :=
  existsb
    (fun s => existsb (String.eqb s) SECURITY_SERVICES)
    (Tagger.services (tags a)).

Definition isServerlessMistake (a : QuestionAnalysis) : bool :=
  existsb
    (fun k =>
       Str.includes (Str.toLowerCase k) "serverless"
       || Str.includes (Str.toLowerCase k) "lambda")
    (Tagger.keywords (tags a)).

Section Recommendations.
(** [x.toFixed(1)], the decimal rendering of a number; no property below
    depends on the digits it prints. *)
Variable toFixed1 : Q -> string.

Definition msgDomain (domain : string) (data : Breakdown.t) : string :=
  "🔍 " ++ domain ++ ": " ++ toFixed1 (Breakdown.accuracy data)
    ++ "% - Deep dive recommended".

(** The [if / else if / else if] on the overall accuracy. *)
Definition overallMessages (accuracy : Q) : list string :=
  if Num.ltb accuracy 60 then [msgFundamentals]
  else if Num.ltb accuracy 75 then [msgOnTrack]
  else if Num.geb accuracy 85 then [msgExamReady]
  else [].

Definition generateRecommendations (summary : StudySummary)
  (analyses : list QuestionAnalysis) : list string :=
  let incorrectAnalyses :=
    filter (fun a => negb (isCorrect a)) analyses in
  let securityMistakes := filter isSecurityMistake incorrectAnalyses in
  let serverlessMistakes :=
    filter isServerlessMistake incorrectAnalyses in
  (* Overall performance *)
  overallMessages (accuracy summary)
  (* Weak area recommendations *)
  ++ (if 0 <? length (weakAreas summary)
      then [msgPriority
              (Str.join ", "
                 (map Area.service (firstn 3 (weakAreas summary))))]
      else [])
  (* Domain-specific recommendations *)
  ++ map (fun entry => msgDomain (fst entry) (snd entry))
       (filter
          (fun entry => Num.ltb (Breakdown.accuracy (snd entry)) 65)
          (domainBreakdown summary))
  (* Pattern detection *)
  ++ (if 3 <=? length securityMistakes then [msgSecurity] else [])
  ++ (if 3 <=? length serverlessMistakes then [msgServerless] else [])
  (* Study strategy *)
  ++ (if totalQuestions summary <? 20 then [msgMoreQuestions] else []).

(** ** generateSummary *)

Definition countCorrect (analyses : list QuestionAnalysis) : nat * nat :=
  fold_left
    (fun counts analysis =>
       if isCorrect analysis
       then (S (fst counts), snd counts)
       else (fst counts, S (snd counts)))
    analyses (0, 0).

Definition generateSummary (analyses : list QuestionAnalysis)
  : StudySummary :=
  let totalQuestions := length analyses in
  let counts := countCorrect analyses in
  let accuracy :=
    if 0 <? totalQuestions
    then Num.percent (fst counts) totalQuestions
    else 0%Q in
  let serviceBreakdown :=
    computeAccuracies (buildBreakdown Tagger.services analyses) in
  let domainBreakdown :=
    computeAccuracies (buildBreakdown Tagger.domains analyses) in
  let weakAreas :=
    Sorting.sort byAccuracyAsc (collectWeak serviceBreakdown) in
  let strongAreas :=
    Sorting.sort byAccuracyDesc (collectStrong serviceBreakdown) in
  let summary :=
    {| totalQuestions := totalQuestions;
       correctCount := fst counts;
       incorrectCount := snd counts;
       accuracy := accuracy;
       serviceBreakdown := serviceBreakdown;
       domainBreakdown := domainBreakdown;
       weakAreas := weakAreas;
       strongAreas := strongAreas;
       topKeywords := computeTopKeywords analyses;
       recommendations := [] |} in
  {| totalQuestions := totalQuestions;
     correctCount := fst counts;
     incorrectCount := snd counts;
     accuracy := accuracy;
     serviceBreakdown := serviceBreakdown;
     domainBreakdown := domainBreakdown;
     weakAreas := weakAreas;
     strongAreas := strongAreas;
     topKeywords := computeTopKeywords analyses;
     recommendations := generateRecommendations summary analyses |}.

End Recommendations.

(** ** Heatmap *)

Definition getHeatColor (accuracy : Q) : string :=
  if Num.geb accuracy 85 then "#22c55e"      (* Green *)
  else if Num.geb accuracy 70 then "#eab308" (* Yellow *)
  else if Num.geb accuracy 50 then "#f97316" (* Orange *)
  else "#ef4444".                            (* Red *)

Definition getStatus (accuracy : Q) : string :=
  if Num.geb accuracy 85 then "Strong"
  else if Num.geb accuracy 70 then "Good"
  else if Num.geb accuracy 50 then "Review"
  else "Weak".

Definition heatItem (service : string) (data : Breakdown.t) : Heat.t :=
  {| Heat.service := service;
     Heat.accuracy := Breakdown.accuracy data;
     Heat.total := Breakdown.total data;
     Heat.color := getHeatColor (Breakdown.accuracy data);
     Heat.status := getStatus (Breakdown.accuracy data) |}.

(** [(a, b) => a.accuracy - b.accuracy] *)
Definition heatAsc (a b : Heat.t) : Q :=
  (Heat.accuracy a - Heat.accuracy b)%Q.

(** Each key of [serviceBreakdown] is looked up again in the object; a
    key of an object always has a value, and the model keeps the lookup
    and drops nothing (see [generateHeatmapData_length]). *)
Definition generateHeatmapData (summary : StudySummary) : list Heat.t :=
  let allServices := Dict.keys (serviceBreakdown summary) in
  Sorting.sort heatAsc
    (flat_map
       (fun service =>
          match Dict.get (serviceBreakdown summary) service with
          | Some data => [heatItem service data]
          | None => []
          end)
       allServices).

End Analyzer.

(* ================================================================== *)
(** * ocr.ts and the per-image loop of index.ts *)

Module Upload.

(** What a call that may throw comes back with. *)
Inductive outcome (A : Type) : Type :=
| Returned (a : A)
| Thrown (message : string).
Arguments Returned {A} a.
Arguments Thrown {A} message.

(** [const isCorrect = parsed.yourAnswer === parsed.correctAnswer] *)
Definition isCorrect (parsed : Parser.ParsedQuestion) : bool :=
  String.eqb (Parser.yourAnswer parsed) (Parser.correctAnswer parsed).

(** The analysis pushed when an image went through. *)
Definition analysed (fileName extractedText : string)
  : Analyzer.QuestionAnalysis :=
  let parsed := Parser.parseQuestion extractedText in
  let tags := Tagger.tagQuestion extractedText in
  {| Analyzer.file := fileName;
     Analyzer.parsed := parsed;
     Analyzer.tags := tags;
     Analyzer.isCorrect := isCorrect parsed |}.

(** The analysis pushed by the [catch] block. *)
Definition failedEntry (fileName message : string)
  : Analyzer.QuestionAnalysis :=
  {| Analyzer.file := fileName;
     Analyzer.parsed :=
       {| Parser.question := "";
          Parser.options := [];
          Parser.yourAnswer := "";
          Parser.correctAnswer := "";
          Parser.explanation := "";
          Parser.rawText := "Error: " ++ message |};
     Analyzer.tags :=
       {| Tagger.services := []; Tagger.domains := [];
          Tagger.keywords := [] |};
     Analyzer.isCorrect := false |}.

Section Loop.
(** The contents of an image file. *)
Variable image : Type.
(** [path.basename] *)
Variable basename : string -> string.
(** [fs.readFileSync] on a path of the extraction directory. *)
Variable readFileSync : string -> outcome image.
(** The OCR engine on an image: [getWorker] and [worker.recognize]. *)
Variable recognize : image -> outcome string.

(** [ocrImage]: the recognised text trimmed, the empty string when there
    is none, and any failure thrown again as [OCR failed: ...]. *)
Definition ocrImage (img : image) : outcome string :=
  match recognize img with
  | Returned text =>
      if String.length (Str.trim text) =? 0
      then Returned ""
      else Returned (Str.trim text)
  | Thrown message => Thrown ("OCR failed: " ++ message)
  end.

(** The [try] block up to the recognised text. *)
Definition extractText (filePath : string) : outcome string :=
  match readFileSync filePath with
  | Returned buffer => ocrImage buffer
  | Thrown message => Thrown message
  end.

(** One round of the [for] loop: exactly one [analyses.push]. *)
Definition processImage (analyses : list Analyzer.QuestionAnalysis)
  (filePath : string) : list Analyzer.QuestionAnalysis :=
  let fileName := basename filePath in
  match extractText filePath with
  | Returned extractedText =>
      analyses ++ [analysed fileName extractedText]
  | Thrown message =>
      analyses ++ [failedEntry fileName message]
  end.

Definition processImages (imageFiles : list string)
  : list Analyzer.QuestionAnalysis :=
  fold_left processImage imageFiles [].

(** The analysis a round of the loop pushes for [filePath]. *)
Definition pushed (filePath : string) : Analyzer.QuestionAnalysis :=
  match extractText filePath with
  | Returned extractedText => analysed (basename filePath) extractedText
  | Thrown message => failedEntry (basename filePath) message
  end.

End Loop.

(** ** The response data of the upload route *)

Module QuickStats.
Record t : Type := {
  accuracy : string;
  correct : nat;
  incorrect : nat;
  totalServices : nat;
  weakAreaCount : nat
}.
End QuickStats.

(** [responseData], without its [timestamp], which is a reading of the
    clock. *)
Record ResponseData : Type := {
  success : bool;
  processedCount : nat;
  questions : list Analyzer.QuestionAnalysis;
  summary : Analyzer.StudySummary;
  heatmap : list Analyzer.Heat.t;
  quickStats : QuickStats.t
}.

Section Handler.
Variable image : Type.
Variable basename : string -> string.
Variable readFileSync : string -> outcome image.
Variable recognize : image -> outcome string.
Variable toFixed1 : Q -> string.

(** The loop over the image files and [responseData] built from its
    analyses. *)
Definition responseData (imageFiles : list string) : ResponseData :=
  let analyses := processImages basename readFileSync recognize imageFiles in
  let summary := Analyzer.generateSummary toFixed1 analyses in
  let heatmap := Analyzer.generateHeatmapData summary in
  {| success := true;
     processedCount := length analyses;
     questions := analyses;
     summary := summary;
     heatmap := heatmap;
     quickStats :=
       {| QuickStats.accuracy :=
            toFixed1 (Analyzer.accuracy summary) ++ "%";
          QuickStats.correct := Analyzer.correctCount summary;
          QuickStats.incorrect := Analyzer.incorrectCount summary;
          QuickStats.totalServices :=
            length (Dict.keys (Analyzer.serviceBreakdown summary));
          QuickStats.weakAreaCount :=
            length (Analyzer.weakAreas summary) |} |}.

End Handler.
End Upload.

(* ================================================================== *)
(** * getAllImageFiles of index.ts *)

Module Files.
Import Regex.

(** What [fs.readdirSync] with [withFileTypes] reports of a directory,
    read to the bottom: files, directories with their own entries, and
    entries that are neither. *)
#[warnings="-register-all"]
Inductive Dirent : Type :=
| File (name : string)
| Directory (name : string) (entries : list Dirent)
| Other (name : string).

(** The pattern of the image test, flag [i], quoted with blanks between
    its tokens:  [\. ( png | jpg | jpeg | webp ) $] *)
Definition imageRegex : regex :=
  Seq (Chr (fun b => Ascii.eqb b "."))
      (Seq (Group 1 (Alt (lit "png")
                    (Alt (lit "jpg")
                    (Alt (lit "jpeg") (lit "webp")))))
           Eos).

(** [imageRegex.test(name)] *)
Definition isImage (name : string) : bool :=
  match search imageRegex name with
  | Some _ => true
  | None => false
  end.

(** [path.join(currentPath, entry.name)] for the name of a directory
    entry and a [currentPath] that is normalised and does not end with the
    separator: the two with the separator between them. *)
Definition join (currentPath name : string) : string :=
  currentPath ++ "/" ++ name.

(** Skip common non-image directories. *)
Definition skipped (name : string) : bool :=
  Str.startsWith "." name || Str.startsWith "__" name.

(** The body of the [for] loop of [traverse] for one entry found under
    [currentPath]; the result is what it pushes onto [files]. *)
Fixpoint visit (currentPath : string) (entry : Dirent) : list string :=
  match entry with
  | Directory name entries =>
      if negb (skipped name)
      then flat_map (visit (join currentPath name)) entries
      else []
  | File name =>
      if isImage name then [join currentPath name] else []
  | Other _ => []
  end.

Definition traverse (currentPath : string) (entries : list Dirent)
  : list string :=
  flat_map (visit currentPath) entries.

(** The comparator of [sort()] without argument: strings by their code
    units. *)
Definition byCodeUnits (a b : string) : Q :=
  match String.compare a b with
  | Lt => (-1)%Q
  | Eq => 0%Q
  | Gt => 1%Q
  end.

Definition getAllImageFiles (dir : string) (entries : list Dirent)
  : list string :=
  Sorting.sort byCodeUnits (traverse dir entries).

End Files.

(* ================================================================== *)
(** * The upload route of index.ts *)

Module Route.

(** What the handler answers: status 400 with an error and, for an archive
    without images, a hint; status 500 with the message of what was
    thrown; or the response data. *)
Inductive reply : Type :=
| BadRequest (error : string) (hint : option string)
| ServerError (error : string)
| Sent (data : Upload.ResponseData).

Section Handler.
Variable image : Type.
Variable basename : string -> string.
Variable readFileSync : string -> Upload.outcome image.
Variable recognize : image -> Upload.outcome string.
Variable toFixed1 : Q -> string.
Variable EXTRACT_DIR : string.
(** The steps from cleaning the extraction directory to reading it: the
    directory removed and made again, the archive at the path extracted
    into it, and its entries as [getAllImageFiles] reads them; or what one
    of these steps threw. *)
Variable extract : string -> Upload.outcome (list Files.Dirent).
(** [fs.writeFileSync] of the results file. *)
Variable saveResults : Upload.ResponseData -> Upload.outcome unit.
(** [await cleanupOCR()] *)
Variable cleanupOCR : Upload.outcome unit.
(** [fs.unlinkSync(zipPath)] *)
Variable unlinkSync : string -> Upload.outcome unit.

(** What follows the response data inside the [try] block: the results
    saved, the worker cleaned up, the upload removed, the data sent; a
    throw reaches the [catch] of the handler. *)
Definition finish (zipPath : string) (data : Upload.ResponseData) : reply :=
  match saveResults data with
  | Upload.Thrown message => ServerError message
  | Upload.Returned _ =>
      match cleanupOCR with
      | Upload.Thrown message => ServerError message
      | Upload.Returned _ =>
          match unlinkSync zipPath with
          | Upload.Thrown message => ServerError message
          | Upload.Returned _ => Sent data
          end
      end
  end.

(** The handler of [POST /api/ocr/upload] for [req.file?.path]; a path
    that is missing or empty is falsy. *)
Definition upload (zipPath : option string) : reply :=
  match zipPath with
  | None => BadRequest "No zip uploaded" None
  | Some zip =>
      if String.length zip =? 0 then BadRequest "No zip uploaded" None
      else
        match extract zip with
        | Upload.Thrown message => ServerError message
        | Upload.Returned entries =>
            let imageFiles := Files.getAllImageFiles EXTRACT_DIR entries in
            if length imageFiles =? 0 then
              BadRequest "No image files found in ZIP"
                (Some "Make sure your ZIP contains .png, .jpg, .jpeg, or .webp files")
            else
              finish zip
                (Upload.responseData basename readFileSync recognize toFixed1
                   imageFiles)
        end
  end.

End Handler.
End Route.

(* ================================================================== *)
(** * The worker of ocr.ts *)

Module Ocr.
Section Worker.
(** A Tesseract worker. *)
Variable W : Type.
Variable image : Type.
(** What the promise of [createWorker] settles with at its n-th call: a
    worker, or what it is rejected with. *)
Variable createWorker : nat -> Upload.outcome W.
(** What the promise of [worker.recognize] settles with. *)
Variable recognize : W -> image -> Upload.outcome string.

(** A call of [ocrImage] or of [cleanupOCR] that waits at one of its
    [await]s, or has settled.  Between the [await]s of a call the calls of
    other requests run. *)
Inductive task : Type :=
| AwaitCreateWorker (img : image) (n : nat)
| AwaitRecognize (ocrWorker : W) (img : image)
| AwaitTerminate
| Settled (result : Upload.outcome string)
| Cleaned.

(** The module variable [worker], three counters that record the calls
    made so far (of [createWorker], those of them that gave a worker, and
    of [terminate]), and the calls made so far. *)
Record state : Type := {
  worker : option W;
  attempts : nat;
  created : nat;
  terminated : nat;
  tasks : list task
}.

Definition initial : state :=
  {| worker := None; attempts := 0; created := 0; terminated := 0;
     tasks := [] |}.

(** [ocrImage(base64)] from the call to its first [await] that waits for
    the engine.  [getWorker] reads the module variable: without a worker it
    calls [createWorker] and waits for it; with one, [ocrImage] goes on to
    [recognize] with the worker read. *)
Definition ocrImage (img : image) (st : state) : state :=
  match worker st with
  | Some ocrWorker =>
      {| worker := worker st;
         attempts := attempts st;
         created := created st;
         terminated := terminated st;
         tasks := tasks st ++ [AwaitRecognize ocrWorker img] |}
  | None =>
      {| worker := None;
         attempts := S (attempts st);
         created := created st;
         terminated := terminated st;
         tasks := tasks st ++ [AwaitCreateWorker img (attempts st)] |}
  end.

(** [cleanupOCR()] from the call to its [await]: with a worker,
    [terminate] is called on it. *)
Definition cleanupOCR (st : state) : state :=
  match worker st with
  | Some _ =>
      {| worker := worker st;
         attempts := attempts st;
         created := created st;
         terminated := S (terminated st);
         tasks := tasks st ++ [AwaitTerminate] |}
  | None =>
      {| worker := None;
         attempts := attempts st;
         created := created st;
         terminated := terminated st;
         tasks := tasks st ++ [Cleaned] |}
  end.

(** A call from the [await] it waits at, once that promise has settled,
    to its next [await] or to its end: what the call becomes, and the
    module variable and the counters after it.  [getWorker] assigns the
    worker it waited for; [cleanupOCR] assigns [null]. *)
Definition resumed (t : task) (st : state) : task * state :=
  match t with
  | AwaitCreateWorker img n =>
      match createWorker n with
      | Upload.Returned w =>
          (AwaitRecognize w img,
           {| worker := Some w;
              attempts := attempts st;
              created := S (created st);
              terminated := terminated st;
              tasks := tasks st |})
      | Upload.Thrown message =>
          (Settled (Upload.Thrown ("OCR failed: " ++ message)), st)
      end
  | AwaitRecognize ocrWorker img =>
      (Settled
         match recognize ocrWorker img with
         | Upload.Returned text =>
             if String.length (Str.trim text) =? 0
             then Upload.Returned ""
             else Upload.Returned (Str.trim text)
         | Upload.Thrown message =>
             Upload.Thrown ("OCR failed: " ++ message)
         end,
       st)
  | AwaitTerminate =>
      (Cleaned,
       {| worker := None;
          attempts := attempts st;
          created := created st;
          terminated := terminated st;
          tasks := tasks st |})
  | Settled _ => (t, st)
  | Cleaned => (t, st)
  end.

Fixpoint replace (i : nat) (t : task) (l : list task) : list task :=
  match l, i with
  | [], _ => []
  | _ :: l', O => t :: l'
  | x :: l', S i' => x :: replace i' t l'
  end.

(** The promise the i-th call waits for settles and the call runs on. *)
Definition resume (i : nat) (st : state) : state :=
  match nth_error (tasks st) i with
  | Some t =>
      let (t', st') := resumed t st in
      {| worker := worker st';
         attempts := attempts st';
         created := created st';
         terminated := terminated st';
         tasks := replace i t' (tasks st') |}
  | None => st
  end.

(** What a caller does to the module. *)
Inductive call : Type :=
| CallOcrImage (img : image)
| CallCleanupOCR.

(** What happens on the event loop: a call is made, or the promise a
    call waits for settles. *)
Inductive event : Type :=
| Call (c : call)
| Resume (i : nat).

Definition step (st : state) (e : event) : state :=
  match e with
  | Call (CallOcrImage img) => ocrImage img st
  | Call CallCleanupOCR => cleanupOCR st
  | Resume i => resume i st
  end.

Definition run (events : list event) (st : state) : state :=
  fold_left step events st.

(** The events of calls that are awaited one after the other, as the
    handler of one upload makes them, when [k] calls were made before:
    each call is followed by the resumptions of its own task, which waits
    at most twice, and the next call is made when it has settled. *)
Fixpoint awaitEach (k : nat) (calls : list call) : list event :=
  match calls with
  | [] => []
  | c :: rest => Call c :: Resume k :: Resume k :: awaitEach (S k) rest
  end.

End Worker.
End Ocr.

Unset Implicit Arguments.

(* ================================================================== *)
(** * Inputs and notions the statements use *)

(** Scenario 1 of the specification. *)
Definition scenario1 : string :=
  "Question: What is S3? A) Object storage B) Block storage Your Answer: A Correct Answer: A Explanation: S3 is object storage.".

(** A question that shows no answer at all. *)
Definition unanswered : string := "What is S3?".

(** An analysis given by its tags and its mark. *)
Definition mkAnalysis (file : string) (services domains keywords : list string)
  (isCorrect : bool) : Analyzer.QuestionAnalysis :=
  {| Analyzer.file := file;
     Analyzer.parsed :=
       {| Parser.question := ""; Parser.options := [];
          Parser.yourAnswer := ""; Parser.correctAnswer := "";
          Parser.explanation := ""; Parser.rawText := "" |};
     Analyzer.tags :=
       {| Tagger.services := services; Tagger.domains := domains;
          Tagger.keywords := keywords |};
     Analyzer.isCorrect := isCorrect |}.

(** A batch of four: IAM is tagged three times, twice on a correct answer;
    S3 twice, both times on a correct answer; three keywords occur twice
    each. *)
Definition sampleAnalyses : list Analyzer.QuestionAnalysis :=
  [ mkAnalysis "q1.png" ["IAM"] ["Security"] ["policy"; "IAM role"] true;
    mkAnalysis "q2.png" ["IAM"] ["Security"] ["IAM role"; "encryption"] false;
    mkAnalysis "q3.png" ["S3"; "IAM"] ["Development with AWS Services"]
      ["encryption"; "policy"] true;
    mkAnalysis "q4.png" ["S3"] ["Development with AWS Services"] [] true ].

(** A rendering of numbers to stand for [toFixed(1)] in examples. *)
Definition noDigits : Q -> string := fun _ => "".

Definition sampleSummary : Analyzer.StudySummary :=
  Analyzer.generateSummary noDigits sampleAnalyses.

(** The entry of IAM in the category breakdown of [sampleSummary]. *)
Definition sampleIAM : Analyzer.Breakdown.t :=
  {| Analyzer.Breakdown.total := 3;
     Analyzer.Breakdown.correct := 2;
     Analyzer.Breakdown.incorrect := 1;
     Analyzer.Breakdown.accuracy := Num.percent 2 3 |}.

(** The entry of S3. *)
Definition sampleS3 : Analyzer.Breakdown.t :=
  {| Analyzer.Breakdown.total := 2;
     Analyzer.Breakdown.correct := 2;
     Analyzer.Breakdown.incorrect := 0;
     Analyzer.Breakdown.accuracy := Num.percent 2 2 |}.

(** Summaries that differ in their overall accuracy only. *)
Definition summaryWithAccuracy (accuracy : Q) : Analyzer.StudySummary :=
  {| Analyzer.totalQuestions := 20;
     Analyzer.correctCount := 0;
     Analyzer.incorrectCount := 0;
     Analyzer.accuracy := accuracy;
     Analyzer.serviceBreakdown := [];
     Analyzer.domainBreakdown := [];
     Analyzer.weakAreas := [];
     Analyzer.strongAreas := [];
     Analyzer.topKeywords := [];
     Analyzer.recommendations := [] |}.

(** The three messages of the overall-performance step. *)
Definition overallBand : list string :=
  [Analyzer.msgFundamentals; Analyzer.msgOnTrack; Analyzer.msgExamReady].

(** An extraction directory with three images, the second of which the OCR
    engine fails on. *)
Definition sampleRead (filePath : string) : Upload.outcome string :=
  Upload.Returned filePath.

Definition sampleRecognize (img : string) : Upload.outcome string :=
  if String.eqb img "b.png" then Upload.Thrown "bad image"
  else Upload.Returned scenario1.

Definition sampleBasename (filePath : string) : string := filePath.

(** The keywords of a batch in the order the counting loops visit them. *)
Definition keywordStream (analyses : list Analyzer.QuestionAnalysis)
  : list string :=
  flat_map (fun a => Tagger.keywords (Analyzer.tags a)) analyses.

(** The position at which [keyword] is first seen in [stream]. *)
Fixpoint firstIndex (keyword : string) (stream : list string) : nat :=
  match stream with
  | [] => 0
  | k :: stream' =>
      if String.eqb k keyword then 0 else S (firstIndex keyword stream')
  end.

(** The keywords of [stream] that are not in [seen], each at its first
    occurrence. *)
Fixpoint firstSeen (seen stream : list string) : list string :=
  match stream with
  | [] => []
  | k :: stream' =>
      if existsb (String.eqb k) seen then firstSeen seen stream'
      else k :: firstSeen (seen ++ [k]) stream'
  end.

(** [a] stands somewhere in front of [b] in [l]. *)
Fixpoint before {A : Type} (l : list A) (a b : A) : Prop :=
  match l with
  | [] => False
  | x :: l' => (x = a /\ In b l') \/ before l' a b
  end.

(** A text without a line break. *)
Definition isLineBreak (c : ascii) : bool :=
  (Str.code c =? 10) || (Str.code c =? 13).

Fixpoint singleLine (s : string) : bool :=
  match s with
  | EmptyString => true
  | String c s' => negb (isLineBreak c) && singleLine s'
  end.

(** On a single line, [k] only ever reports a match that ends with the
    text. *)
Definition endsLine (k : Regex.cont) : Prop :=
  forall s c res, singleLine s = true -> k s c = Some res -> snd res = "".

(** [t] is what is left of [s] after some of its characters. *)
Definition suffixOf (t s : string) : Prop := exists p, s = p ++ t.

(** The letters the class [[A-D]] accepts under the [i] flag. *)
Definition isAD (a : ascii) : bool :=
  let n := Str.code (Str.upperChar a) in (65 <=? n) && (n <=? 68).

(** A pattern without capture groups. *)
Fixpoint groupFree (r : Regex.regex) : bool :=
  match r with
  | Regex.Eps | Regex.Chr _ | Regex.Eos => true
  | Regex.Seq r1 r2 | Regex.Alt r1 r2 => groupFree r1 && groupFree r2
  | Regex.Star _ r' | Regex.Ahead r' => groupFree r'
  | Regex.Group _ _ => false
  end.

(** No line feed in [s]. *)
Fixpoint noLineFeed (s : string) : bool :=
  match s with
  | EmptyString => true
  | String c s' => negb (Str.code c =? 10) && noLineFeed s'
  end.

(** The number of line feeds in [s]. *)
Fixpoint countLineFeeds (s : string) : nat :=
  match s with
  | EmptyString => 0
  | String c s' =>
      (if Str.code c =? 10 then 1 else 0) + countLineFeeds s'
  end.

(** The text up to the first line feed, and the text from it on. *)
Fixpoint takeLine (s : string) : string :=
  match s with
  | EmptyString => EmptyString
  | String c s' => if Str.code c =? 10 then EmptyString
                   else String c (takeLine s')
  end.

Fixpoint dropLine (s : string) : string :=
  match s with
  | EmptyString => EmptyString
  | String c s' => if Str.code c =? 10 then s else dropLine s'
  end.

(** At the end of a line: nothing follows, or a line feed does. *)
Definition atLineEnd (s : string) : Prop :=
  s = "" \/ exists s', s = String (ascii_of_nat 10) s'.

(** Two options on two lines, the second with a lower-case letter. *)
Definition twoOptions : string :=
  "A) first
b. second".

(** Whether a list of strings is free of repetitions. *)
Fixpoint distinct (l : list string) : bool :=
  match l with
  | [] => true
  | x :: l' => negb (existsb (String.eqb x) l') && distinct l'
  end.

(** How often [name] is among the tags [select] picks, over the analyses
    that pass [p]. *)
Definition timesTagged (select : Tagger.AWSTags -> list string)
  (p : Analyzer.QuestionAnalysis -> bool) (name : string)
  (analyses : list Analyzer.QuestionAnalysis) : nat :=
  length
    (filter (String.eqb name)
       (flat_map (fun a => select (Analyzer.tags a)) (filter p analyses))).

(** The entry of [name], or the fresh entry when there is none. *)
Definition entryOr (bd : Dict.t Analyzer.Breakdown.t) (name : string)
  : Analyzer.Breakdown.t :=
  match Dict.get bd name with
  | Some b => b
  | None => Analyzer.emptyBreakdown
  end.

(** The count of [keyword], or 0 when there is none. *)
Definition countOr (m : Dict.t nat) (keyword : string) : nat :=
  match Dict.get m keyword with
  | Some n => n
  | None => 0
  end.

(** The tags [select] picks, over a batch, in the order the loops visit
    them. *)
Definition tagStream (select : Tagger.AWSTags -> list string)
  (analyses : list Analyzer.QuestionAnalysis) : list string :=
  flat_map (fun a => select (Analyzer.tags a)) analyses.

(** How often [k] occurs in [stream]. *)
Definition occurrences (k : string) (stream : list string) : nat :=
  length (filter (String.eqb k) stream).

(** Three wrong answers on IAM and a right one on S3 (scenario 5 of the
    specification). *)
Definition securityBatch : list Analyzer.QuestionAnalysis :=
  [ mkAnalysis "s1.png" ["IAM"] ["Security"] ["policy"] false;
    mkAnalysis "s2.png" ["IAM"; "KMS"] ["Security"] ["encryption"] false;
    mkAnalysis "s3.png" ["IAM"] ["Security"] [] false;
    mkAnalysis "s4.png" ["S3"] ["Development with AWS Services"] [] true ].

(** The incorrect analyses among [analyses], as [generateRecommendations]
    filters them. *)
Definition incorrectOnes (analyses : list Analyzer.QuestionAnalysis)
  : list Analyzer.QuestionAnalysis :=
  filter (fun a => negb (Analyzer.isCorrect a)) analyses.

(** Whether the text of a file could be extracted. *)
Definition extracted {image : Type}
  (readFileSync : string -> Upload.outcome image)
  (recognize : image -> Upload.outcome string) (filePath : string) : bool :=
  match Upload.extractText readFileSync recognize filePath with
  | Upload.Returned _ => true
  | Upload.Thrown _ => false
  end.

(** An OCR engine that finds nothing but blanks on "blank.png". *)
Definition blankRecognize (img : string) : Upload.outcome string :=
  if String.eqb img "blank.png" then Upload.Returned "
  "
  else Upload.Returned scenario1.

(** The extensions of image files. *)
Definition imageExtensions : list string := ["png"; "jpg"; "jpeg"; "webp"].

(** An unpacked archive: two images at the top, one in a folder, and the
    folder a macOS archive adds. *)
Definition sampleArchive : list Files.Dirent :=
  [ Files.File "q2.PNG";
    Files.File "notes.txt";
    Files.Directory "__MACOSX" [Files.File "._q1.png"];
    Files.Directory "set1" [Files.File "q10.jpeg"; Files.File ".hidden.webp"];
    Files.File "q1.png" ].

(** The files of a tree, each as the names of the directories that lead
    to it and its own name. *)
Fixpoint filesOf (entry : Files.Dirent) : list (list string * string) :=
  match entry with
  | Files.File name => [([], name)]
  | Files.Directory name entries =>
      map (fun f => (name :: fst f, snd f)) (flat_map filesOf entries)
  | Files.Other _ => []
  end.

(** The path of such a file under [dir]. *)
Definition pathUnder (dir : string) (f : list string * string) : string :=
  fold_left Files.join (fst f ++ [snd f])%list dir.

(** An image file none of whose directories is skipped. *)
Definition wanted (f : list string * string) : bool :=
  forallb (fun d => negb (Files.skipped d)) (fst f) && Files.isImage (snd f).

(** The workers that were created and not terminated, when all of them
    are accounted for: the one at hand. *)
Definition alive {W image : Type} (st : Ocr.state W image) : nat :=
  match Ocr.worker st with
  | Some _ => 1
  | None => 0
  end.

(** A call that has settled. *)
Definition settled {W image : Type} (t : Ocr.task W image) : bool :=
  match t with
  | Ocr.Settled _ _ _ => true
  | Ocr.Cleaned _ _ => true
  | _ => false
  end.

(** Every worker created is at hand or was terminated, each was created
    by a call of [createWorker], and no call is waiting. *)
Definition accounted {W image : Type} (st : Ocr.state W image) : Prop :=
  Ocr.created st = Ocr.terminated st + alive st
  /\ Ocr.created st <= Ocr.attempts st
  /\ forallb settled (Ocr.tasks st) = true.

(** Two uploads of one image each that overlap: the second calls
    [ocrImage] while the first waits for its worker; then both workers
    arrive, both images are read, and each upload awaits its
    [cleanupOCR]. *)
Definition overlapping {image : Type} (a b : image) : list (Ocr.event image) :=
  [ Ocr.Call (Ocr.CallOcrImage a); Ocr.Call (Ocr.CallOcrImage b);
    Ocr.Resume image 0; Ocr.Resume image 1;
    Ocr.Resume image 0; Ocr.Resume image 1;
    Ocr.Call (Ocr.CallCleanupOCR image); Ocr.Resume image 2;
    Ocr.Call (Ocr.CallCleanupOCR image); Ocr.Resume image 3 ].

(** A creation that numbers its workers, and an engine that reads the
    name of the image. *)
Definition numbered (n : nat) : Upload.outcome nat := Upload.Returned n.

Definition readAll (w : nat) (img : string) : Upload.outcome string :=
  Upload.Returned img.

(** The questions of a batch that observe the category [name]: the
    analyses that tag it. *)
Definition questionsObserving (name : string)
  (analyses : list Analyzer.QuestionAnalysis) : nat :=
  length
    (filter
       (fun a =>
          existsb (String.eqb name) (Tagger.services (Analyzer.tags a)))
       analyses).

(** A question on Systems Manager with the right answer and one with a
    wrong answer, as the upload loop analyses them. *)
Definition answeredRight : Analyzer.QuestionAnalysis :=
  Upload.analysed "q1.png"
    "Which Systems Manager feature? Your Answer: A Correct Answer: A".

Definition answeredWrong : Analyzer.QuestionAnalysis :=
  Upload.analysed "q2.png"
    "Which Systems Manager feature? Your Answer: A Correct Answer: B".

(** A text of ASCII characters only: the texts on which the case
    conversions of the code are those of [Str]. *)
Fixpoint asciiText (s : string) : bool :=
  match s with
  | EmptyString => true
  | String c s' => (Str.code c <? 128) && asciiText s'
  end.

(** An analysis whose categories and domains are names of the reference
    lists, as every analysis of the upload loop is.  None of these names
    reads as an integer or names a member of [Object.prototype], so the
    objects of the breakdowns hold them as ordinary keys, in insertion
    order. *)
Definition referenceTags (a : Analyzer.QuestionAnalysis) : bool :=
  forallb (fun s => existsb (String.eqb s) Tagger.AWS_SERVICES)
    (Tagger.services (Analyzer.tags a))
  && forallb (fun d => existsb (String.eqb d) (map fst Tagger.DOMAINS))
       (Tagger.domains (Analyzer.tags a)).

(** [k'] succeeds wherever [k] does. *)
Definition covers (k k' : Regex.cont) : Prop :=
  forall s c, k s c <> None -> k' s c <> None.

(** A breakdown under construction: distinct keys, and every entry counted
    at least once. *)
Definition observed (bd : Dict.t Analyzer.Breakdown.t) : Prop :=
  NoDup (Dict.keys bd)
  /\ Forall (fun e => 1 <= Analyzer.Breakdown.total (snd e)) bd.

(* ================================================================== *)
(** * The regular-expression matcher *)

Section MatcherFacts.
Import Regex.

Lemma starLoop_covers body (greedy : bool) :
  (forall s c k k', covers k k' -> body s c k <> None -> body s c k' <> None) ->
  forall n k k', covers k k' ->
  forall s c, starLoop body greedy k n s c <> None ->
              starLoop body greedy k' n s c <> None.
Proof.
  intros Hbody n k k' Hk.
  induction n as [|n IH]; intros s c; simpl.
  - apply Hk.
  - set (again := fun s' c' => if String.length s' <? String.length s
                              then starLoop body greedy k n s' c' else None).
    set (again' := fun s' c' => if String.length s' <? String.length s
                               then starLoop body greedy k' n s' c' else None).
    assert (Hagain : covers again again').
    { intros s' c'. unfold again, again'.
      destruct (String.length s' <? String.length s); [apply IH | auto]. }
    destruct greedy.
    + destruct (body s c again) eqn:E1.
      * intros _.
        destruct (body s c again') eqn:E2; [discriminate|].
        exfalso. apply (Hbody s c again again' Hagain); [rewrite E1; discriminate|exact E2].
      * intros Hks. destruct (body s c again'); [discriminate|]. now apply Hk.
    + destruct (k s c) eqn:E1.
      * intros _. destruct (k' s c) eqn:E2; [discriminate|].
        exfalso. apply (Hk s c); [rewrite E1; discriminate|exact E2].
      * intros Hb. destruct (k' s c); [discriminate|].
        now apply (Hbody s c again again' Hagain).
Qed.

(** A match stays a match under a continuation that accepts more. *)
Lemma rmatch_covers r :
  forall s c k k', covers k k' -> rmatch r s c k <> None -> rmatch r s c k' <> None.
Proof.
  induction r as [|p|r1 IH1 r2 IH2|r1 IH1 r2 IH2|g r IH|i r IH|r IH|];
    intros s c k k' Hk; simpl.
  - apply Hk.
  - destruct s as [|a s']; [auto|]. destruct (p a); [apply Hk | auto].
  - apply IH1. intros s' c'. now apply IH2.
  - destruct (rmatch r1 s c k) eqn:E1.
    + intros _. destruct (rmatch r1 s c k') eqn:E2; [discriminate|].
      exfalso. apply (IH1 s c k k' Hk); [rewrite E1; discriminate|exact E2].
    + intros H2. destruct (rmatch r1 s c k'); [discriminate|].
      now apply (IH2 s c k k' Hk).
  - now apply starLoop_covers.
  - apply IH. intros s' c'. apply Hk.
  - destruct (rmatch r s c done) as [[c' ?]|]; [apply Hk | auto].
  - destruct s; [apply Hk | auto].
Qed.

(** Where a sequence matches, its first part matches. *)
Lemma matchHere_Seq_None r1 r2 s :
  matchHere r1 s = None -> matchHere (Seq r1 r2) s = None.
Proof.
  unfold matchHere. intros H1. simpl.
  destruct (rmatch r1 s [] (fun s' c' => rmatch r2 s' c' done)) eqn:E; [|reflexivity].
  exfalso.
  apply (rmatch_covers r1 s [] (fun s' c' => rmatch r2 s' c' done) done);
    [ intros s' c' _; discriminate | rewrite E; discriminate | exact H1 ].
Qed.

Lemma search_Seq_None r1 r2 s :
  search r1 s = None -> search (Seq r1 r2) s = None.
Proof.
  induction s as [|a s IH]; simpl.
  - destruct (matchHere r1 "") eqn:E; [discriminate|].
    intros _. now rewrite (matchHere_Seq_None r1 r2 _ E).
  - destruct (matchHere r1 (String a s)) eqn:E; [discriminate|].
    intros H. rewrite (matchHere_Seq_None r1 r2 _ E). now apply IH.
Qed.

End MatcherFacts.

(* ================================================================== *)
(** * Options on a single line *)

Section SingleLine.
Import Regex.

Lemma singleLine_tail a s : singleLine (String a s) = true -> singleLine s = true.
Proof. simpl. now intros [_ H]%andb_true_iff. Qed.

Lemma starLoop_endsLine body (greedy : bool) :
  (forall s c k res, singleLine s = true -> endsLine k ->
                     body s c k = Some res -> snd res = "") ->
  forall n k, endsLine k ->
  forall s c res, singleLine s = true ->
                  starLoop body greedy k n s c = Some res -> snd res = "".
Proof.
  intros Hbody n k Hk. induction n as [|n IH]; intros s c res Hs; simpl.
  - now apply Hk.
  - set (again := fun s' c' => if String.length s' <? String.length s
                              then starLoop body greedy k n s' c' else None).
    assert (Hagain : endsLine again).
    { intros s' c' res' Hs'. unfold again.
      destruct (String.length s' <? String.length s); [now apply IH | discriminate]. }
    destruct greedy.
    + destruct (body s c again) eqn:E.
      * intros [= <-]. exact (Hbody _ _ _ _ Hs Hagain E).
      * now apply Hk.
    + destruct (k s c) eqn:E.
      * intros [= <-]. exact (Hk _ _ _ Hs E).
      * now apply Hbody.
Qed.

(** Whatever comes in front of it, a pattern whose last part ends with the
    line ends with the line. *)
Lemma rmatch_endsLine r :
  forall s c k res, singleLine s = true -> endsLine k ->
                    rmatch r s c k = Some res -> snd res = "".
Proof.
  induction r as [|p|r1 IH1 r2 IH2|r1 IH1 r2 IH2|g r IH|i r IH|r IH|];
    intros s c k res Hs Hk; simpl.
  - now apply Hk.
  - destruct s as [|a s']; [discriminate|].
    destruct (p a); [|discriminate].
    apply Hk. exact (singleLine_tail _ _ Hs).
  - apply IH1; [exact Hs|]. intros s' c' res' Hs'. now apply IH2.
  - destruct (rmatch r1 s c k) eqn:E.
    + intros [= <-]. exact (IH1 _ _ _ _ Hs Hk E).
    + now apply IH2.
  - now apply starLoop_endsLine.
  - apply IH; [exact Hs|]. intros s' c' res' Hs'. now apply Hk.
  - destruct (rmatch r s c done) as [[c' ?]|]; [now apply Hk | discriminate].
  - destruct s; [now apply Hk | discriminate].
Qed.

Lemma rmatch_Seq r1 r2 s c k :
  rmatch (Seq r1 r2) s c k = rmatch r1 s c (fun s' c' => rmatch r2 s' c' k).
Proof. reflexivity. Qed.

Lemma starLoop_greedy_step body k n s c :
  starLoop body true k (S n) s c
  = match body s c
            (fun s' c' =>
               if String.length s' <? String.length s
               then starLoop body true k n s' c' else None) with
    | Some x => Some x
    | None => k s c
    end.
Proof. reflexivity. Qed.

(** The greedy run of [[^\n]] takes the whole line. *)
Lemma greedy_line (k : cont) :
  (forall s c, exists c', k s c = Some (c', s)) ->
  forall n s c, singleLine s = true -> String.length s <= n ->
  exists c', starLoop (rmatch notNewline) true k n s c = Some (c', "").
Proof.
  intros Hk. induction n as [|n IH]; intros s c Hs Hlen.
  - destruct s; [apply Hk | simpl in Hlen; lia].
  - destruct s as [|a s']; [apply Hk|].
    rewrite starLoop_greedy_step.
    simpl in Hs. apply andb_true_iff in Hs as [Ha Hs'].
    unfold isLineBreak in Ha. apply negb_true_iff, orb_false_iff in Ha as [Ha _].
    assert (Hlt : (String.length s' <? String.length (String a s')) = true)
      by (apply Nat.ltb_lt; simpl; lia).
    destruct (IH s' c Hs') as [c' Hrest]; [simpl in Hlen; lia|].
    exists c'.
    change (rmatch notNewline (String a s') c) with
      (fun k' : cont => if negb (Str.code a =? 10) then k' s' c else None).
    cbv beta. rewrite Ha. cbn [negb]. rewrite Hlt, Hrest. reflexivity.
Qed.

Lemma optionText_endsLine :
  endsLine (fun s c => rmatch (Group 2 (plus notNewline)) s c done).
Proof.
  intros s c res Hs.
  set (k := fun s' c' =>
              done s' ((2, Str.take (String.length s - String.length s') s) :: c')).
  change (rmatch (Group 2 (plus notNewline)) s c done) with
    (rmatch notNewline s c
       (fun s1 c1 =>
          starLoop (rmatch notNewline) true k (String.length s1) s1 c1)).
  destruct s as [|a s']; [discriminate|].
  change (rmatch notNewline (String a s') c) with
    (fun k' : cont => if negb (Str.code a =? 10) then k' s' c else None).
  cbv beta.
  destruct (negb (Str.code a =? 10)); [|discriminate].
  destruct (greedy_line k (fun s0 c0 => ex_intro _ _ eq_refl)
              (String.length s') s' c (singleLine_tail _ _ Hs) (le_n _))
    as [c' ->].
  now intros [= <-].
Qed.

Lemma matchHere_options_line s res :
  singleLine s = true -> matchHere Parser.optionsRegex s = Some res ->
  snd res = "".
Proof.
  intros Hs. unfold matchHere, Parser.optionsRegex.
  rewrite rmatch_Seq. apply rmatch_endsLine; [exact Hs|].
  intros s1 c1 res1 Hs1.
  rewrite rmatch_Seq. apply rmatch_endsLine; [exact Hs1|].
  intros s2 c2 res2 Hs2.
  rewrite rmatch_Seq. apply rmatch_endsLine; [exact Hs2|].
  apply optionText_endsLine.
Qed.

Lemma search_options_line s res :
  singleLine s = true -> search Parser.optionsRegex s = Some res ->
  snd res = "".
Proof.
  induction s as [|a s IH]; intros Hs; cbn [search].
  - destruct (matchHere Parser.optionsRegex "") eqn:E; [|discriminate].
    intros [= <-]. exact (matchHere_options_line _ _ Hs E).
  - destruct (matchHere Parser.optionsRegex (String a s)) eqn:E.
    + intros [= <-]. exact (matchHere_options_line _ _ Hs E).
    + apply IH. exact (singleLine_tail _ _ Hs).
Qed.

Lemma optionsLoop_line fuel s :
  singleLine s = true -> length (Parser.optionsLoop fuel s) <= 1.
Proof.
  intros Hs. destruct fuel as [|fuel]; simpl; [lia|].
  destruct (search Parser.optionsRegex s) as [[c rest]|] eqn:E; simpl; [|lia].
  apply (search_options_line _ _ Hs) in E. simpl in E. subst rest.
  destruct (String.length "" <? String.length s); simpl; [|lia].
  destruct fuel; simpl; lia.
Qed.

Lemma replaceCRLF_line s : singleLine s = true -> Str.replaceCRLF s = s.
Proof.
  induction s as [|c s IH]; [reflexivity|].
  intros Hs. pose proof (singleLine_tail _ _ Hs) as Hs'.
  simpl in Hs. apply andb_true_iff in Hs as [Hc _].
  unfold isLineBreak in Hc. apply negb_true_iff, orb_false_iff in Hc as [_ Hc].
  cbn [Str.replaceCRLF]. destruct s as [|d s]; [reflexivity|].
  rewrite Hc. cbn [andb]. now rewrite (IH Hs').
Qed.

Lemma replaceCR_line s : singleLine s = true -> Str.replaceCR s = s.
Proof.
  induction s as [|c s IH]; [reflexivity|].
  intros Hs. pose proof (singleLine_tail _ _ Hs) as Hs'.
  simpl in Hs. apply andb_true_iff in Hs as [Hc _].
  unfold isLineBreak in Hc. apply negb_true_iff, orb_false_iff in Hc as [_ Hc].
  simpl. now rewrite Hc, (IH Hs').
Qed.

(** The text of an option runs to the end of its line: a text of one line
    has one option at most. *)
Lemma single_line_options (text : string) :
  singleLine text = true ->
  length (Parser.options (Parser.parseQuestion text)) <= 1.
Proof.
  intros Hs. cbn [Parser.parseQuestion Parser.options].
  unfold Parser.normalize.
  rewrite (replaceCRLF_line _ Hs), (replaceCR_line _ Hs).
  now apply optionsLoop_line.
Qed.

End SingleLine.

(* ================================================================== *)
(** * Properties of the parser and the tagger *)

(** C1, as stated, fails: the options of scenario 1 are not the two entries
    the scenario lists, so the scenario's fields do not hold together. *)
Lemma C1_scenario1_options_differ :
  ~ (Parser.question (Parser.parseQuestion scenario1) = "What is S3?"
     /\ Parser.options (Parser.parseQuestion scenario1)
        = ["A: Object storage"; "B: Block storage"]
     /\ Parser.yourAnswer (Parser.parseQuestion scenario1) = "A"
     /\ Parser.correctAnswer (Parser.parseQuestion scenario1) = "A"
     /\ Upload.isCorrect (Parser.parseQuestion scenario1) = true
     /\ In "S3" (Tagger.services (Tagger.tagQuestion scenario1))).
Proof.
  intros (_ & Hoptions & _).
  vm_compute in Hoptions. discriminate Hoptions.
Qed.

(** What the option scan returns on scenario 1: one entry, which starts at
    the first letter a-d of the text and runs to the end of the line. *)
Lemma scenario1_options :
  Parser.options (Parser.parseQuestion scenario1)
  = ["a: t is S3? A) Object storage B) Block storage Your Answer: A Correct Answer: A Explanation: S3 is object storage."].
Proof. vm_compute. reflexivity. Qed.

(** C1 (amended): on the text of scenario 1, [parseQuestion] returns the
    question "What is S3?", your answer "A" and correct answer "A", the
    derived [isCorrect] is true and the categories of [tagQuestion] include
    "S3"; the options have at most one entry, since the text of an option
    runs to the end of its line and the scenario is a single line. *)
Theorem C1_scenario1 :
  Parser.question (Parser.parseQuestion scenario1) = "What is S3?"
  /\ length (Parser.options (Parser.parseQuestion scenario1)) <= 1
  /\ Parser.yourAnswer (Parser.parseQuestion scenario1) = "A"
  /\ Parser.correctAnswer (Parser.parseQuestion scenario1) = "A"
  /\ Upload.isCorrect (Parser.parseQuestion scenario1) = true
  /\ In "S3" (Tagger.services (Tagger.tagQuestion scenario1)).
Proof.
  split; [vm_compute; reflexivity|].
  split; [apply single_line_options; vm_compute; reflexivity|].
  split; [vm_compute; reflexivity|].
  split; [vm_compute; reflexivity|].
  split; [vm_compute; reflexivity|].
  vm_compute. left. reflexivity.
Qed.

(** A text without a label has no match of the answer pattern that starts
    with that label. *)
Lemma no_label_no_match word tail text :
  Parser.hasLabel word text = false ->
  Regex.search (Regex.Seq (Parser.label word) tail) (Parser.normalize text) = None.
Proof.
  unfold Parser.hasLabel. intros H.
  apply search_Seq_None.
  destruct (Regex.search (Parser.label word) (Parser.normalize text));
    [discriminate | reflexivity].
Qed.

(** C2: for every text with neither a "Your Answer" nor a "Correct Answer"
    label, [parseQuestion] leaves both answers empty; the flag the upload
    loop derives from them is then true, where scenario 4 of the
    specification expects false: the two empty strings are equal. *)
Theorem C2_unlabelled_text_counts_as_correct (text : string) :
  Parser.hasLabel "Your" text = false ->
  Parser.hasLabel "Correct" text = false ->
  Parser.yourAnswer (Parser.parseQuestion text) = ""
  /\ Parser.correctAnswer (Parser.parseQuestion text) = ""
  /\ Upload.isCorrect (Parser.parseQuestion text) = true.
Proof.
  intros Hyour Hcorrect.
  assert (Hy : Parser.yourAnswer (Parser.parseQuestion text) = "").
  { unfold Parser.parseQuestion; cbn [Parser.yourAnswer].
    unfold Parser.yourAnswerRegex. now rewrite (no_label_no_match _ _ _ Hyour). }
  assert (Hc : Parser.correctAnswer (Parser.parseQuestion text) = "").
  { unfold Parser.parseQuestion; cbn [Parser.correctAnswer].
    unfold Parser.correctAnswerRegex. now rewrite (no_label_no_match _ _ _ Hcorrect). }
  unfold Upload.isCorrect. rewrite Hy, Hc. repeat split.
Qed.

Lemma C2_unlabelled_text_witness :
  Parser.hasLabel "Your" unanswered = false
  /\ Parser.hasLabel "Correct" unanswered = false
  /\ Parser.yourAnswer (Parser.parseQuestion unanswered) = ""
  /\ Parser.correctAnswer (Parser.parseQuestion unanswered) = ""
  /\ Upload.isCorrect (Parser.parseQuestion unanswered) = true.
Proof.
  split; [vm_compute; reflexivity|].
  split; [vm_compute; reflexivity|].
  apply (C2_unlabelled_text_counts_as_correct unanswered); vm_compute; reflexivity.
Defined.

(** The reference list names Systems Manager twice and every other
    category once. *)
Lemma AWS_SERVICES_occurrences (name : string) :
  count_occ string_dec Tagger.AWS_SERVICES name
  = if String.eqb name "Systems Manager" then 2
    else if existsb (String.eqb name) Tagger.AWS_SERVICES then 1 else 0.
Proof.
  destruct (existsb (String.eqb name) Tagger.AWS_SERVICES) eqn:E.
  - apply existsb_exists in E as (x & Hx & Heq).
    apply String.eqb_eq in Heq. subst x.
    unfold Tagger.AWS_SERVICES in Hx.
    repeat (destruct Hx as [<-|Hx]; [vm_compute; reflexivity|]).
    destruct Hx.
  - assert (Hnot : ~ In name Tagger.AWS_SERVICES).
    { intros Hin. apply Bool.not_true_iff_false in E. apply E.
      apply existsb_exists. exists name. split; [exact Hin|].
      apply String.eqb_refl. }
    destruct (String.eqb name "Systems Manager") eqn:E'.
    + apply String.eqb_eq in E'. subst name. exfalso. apply Hnot.
      vm_compute. tauto.
    + now apply count_occ_not_In.
Qed.

Lemma count_occ_filter (f : string -> bool) (l : list string) (name : string) :
  count_occ string_dec (filter f l) name <= count_occ string_dec l name.
Proof.
  induction l as [|x l IH]; simpl; [lia|].
  destruct (f x); simpl; destruct (string_dec x name); lia.
Qed.

(** Whatever the text, a category other than Systems Manager is tagged at
    most once. *)
Lemma services_at_most_once (text name : string) :
  name <> "Systems Manager" ->
  count_occ string_dec (Tagger.services (Tagger.tagQuestion text)) name <= 1.
Proof.
  intros Hname. cbn [Tagger.tagQuestion Tagger.services].
  etransitivity; [apply count_occ_filter|].
  rewrite AWS_SERVICES_occurrences.
  apply String.eqb_neq in Hname. rewrite Hname.
  destruct (existsb _ _); lia.
Qed.

(** C3: the categories of a text that names Systems Manager hold that name
    twice, once for each of its two entries in [AWS_SERVICES]. *)
Theorem C3_systems_manager_tagged_twice :
  Tagger.services (Tagger.tagQuestion "Systems Manager")
  = ["Systems Manager"; "Systems Manager"]
  /\ ~ NoDup (Tagger.services (Tagger.tagQuestion "Systems Manager")).
Proof.
  split; [vm_compute; reflexivity|].
  intros H. vm_compute in H. inversion H as [|x l Hnot _]; subst.
  apply Hnot. left. reflexivity.
Qed.

(* ================================================================== *)
(** * Numbers *)

Section NumFacts.

Lemma ltb_true (a b : Q) : Num.ltb a b = true <-> (a < b)%Q.
Proof.
  unfold Num.ltb. rewrite negb_true_iff.
  split.
  - intros H. apply Qnot_le_lt. intros Hle.
    apply Qle_bool_iff in Hle. congruence.
  - intros H. destruct (Qle_bool b a) eqn:E; [|reflexivity].
    apply Qle_bool_iff in E. exfalso. exact (Qlt_not_le _ _ H E).
Qed.

Lemma ltb_false (a b : Q) : Num.ltb a b = false <-> (b <= a)%Q.
Proof.
  unfold Num.ltb. rewrite negb_false_iff. apply Qle_bool_iff.
Qed.

Lemma geb_true (a b : Q) : Num.geb a b = true <-> (b <= a)%Q.
Proof. unfold Num.geb. apply Qle_bool_iff. Qed.

Lemma geb_false (a b : Q) : Num.geb a b = false <-> (a < b)%Q.
Proof.
  unfold Num.geb. split.
  - intros H. apply Qnot_le_lt. intros Hle.
    apply Qle_bool_iff in Hle. congruence.
  - intros H. destruct (Qle_bool b a) eqn:E; [|reflexivity].
    apply Qle_bool_iff in E. exfalso. exact (Qlt_not_le _ _ H E).
Qed.

Lemma ofNat_nonneg (n : nat) : (0 <= Num.ofNat n)%Q.
Proof.
  unfold Num.ofNat. rewrite <- (Zle_Qle 0). lia.
Qed.

Lemma ofNat_pos (n : nat) : 0 < n -> (0 < Num.ofNat n)%Q.
Proof.
  intros H. unfold Num.ofNat. rewrite <- (Zlt_Qlt 0). lia.
Qed.

Lemma ofNat_le (m n : nat) : m <= n -> (Num.ofNat m <= Num.ofNat n)%Q.
Proof.
  intros H. unfold Num.ofNat. rewrite <- Zle_Qle. lia.
Qed.

(** A percentage of a part of a non-empty whole lies between 0 and 100. *)
Lemma percent_bounds (c t : nat) :
  c <= t -> 0 < t -> (0 <= Num.percent c t /\ Num.percent c t <= 100)%Q.
Proof.
  intros Hct Ht. unfold Num.percent.
  pose proof (ofNat_pos t Ht) as Hpos.
  pose proof (ofNat_nonneg c) as Hc.
  pose proof (ofNat_le c t Hct) as Hle.
  assert (H0 : (0 <= Num.ofNat c / Num.ofNat t)%Q).
  { apply Qle_shift_div_l; [exact Hpos|]. now rewrite Qmult_0_l. }
  assert (H1 : (Num.ofNat c / Num.ofNat t <= 1)%Q).
  { apply Qle_shift_div_r; [exact Hpos|]. now rewrite Qmult_1_l. }
  split.
  - apply Qmult_le_0_compat; [exact H0 | discriminate].
  - setoid_replace (100 : Q) with (1 * 100)%Q by reflexivity.
    apply Qmult_le_compat_r; [exact H1 | discriminate].
Qed.

End NumFacts.

(** The quotients that sit on a threshold of the source come out of the
    binary64 computation as the threshold itself. *)
Example double_thresholds :
  map (fun ct => PrimFloat.eqb (Double.percent (fst (fst ct)) (snd (fst ct)))
                   (snd ct))
    [ (1, 2, 50); (3, 5, 60); (13, 20, 65); (7, 10, 70); (3, 4, 75);
      (17, 20, 85); (14, 20, 70); (85, 100, 85) ]%float
  = [true; true; true; true; true; true; true; true].
Proof. vm_compute. reflexivity. Qed.

(* ================================================================== *)
(** * Dictionaries *)

Section DictFacts.
Variable V : Type.
Implicit Types (d : Dict.t V) (k : string) (v : V).

Lemma get_In d k v : Dict.get d k = Some v -> In (k, v) d.
Proof.
  induction d as [|[k' v'] d IH]; simpl; [discriminate|].
  destruct (String.eqb k k') eqn:E.
  - apply String.eqb_eq in E. intros [=]. subst. now left.
  - intros H. right. now apply IH.
Qed.

Lemma get_None d k : Dict.get d k = None <-> ~ In k (Dict.keys d).
Proof.
  induction d as [|[k' v'] d IH]; simpl.
  - split; [intros _ [] | reflexivity].
  - destruct (String.eqb k k') eqn:E.
    + apply String.eqb_eq in E. subst. split; [discriminate|].
      intros H. exfalso. apply H. now left.
    + apply String.eqb_neq in E. rewrite IH. split.
      * intros H [H1|H1]; [congruence | contradiction].
      * intros H H1. apply H. now right.
Qed.

Lemma In_get d k v : NoDup (Dict.keys d) -> In (k, v) d -> Dict.get d k = Some v.
Proof.
  induction d as [|[k' v'] d IH]; simpl; [intros _ []|].
  intros Hnd [H|H].
  - injection H as -> ->. now rewrite String.eqb_refl.
  - inversion Hnd as [|? ? Hnot Hnd']; subst.
    destruct (String.eqb k k') eqn:E.
    + apply String.eqb_eq in E. subst. exfalso. apply Hnot.
      apply (in_map fst) in H. exact H.
    + now apply IH.
Qed.

Lemma get_key d k v : Dict.get d k = Some v -> In k (Dict.keys d).
Proof.
  intros H. apply get_In in H. apply (in_map fst) in H. exact H.
Qed.

(** A present key keeps its place; a new key goes last. *)
Lemma keys_set d k v :
  Dict.keys (Dict.set d k v)
  = match Dict.get d k with
    | Some _ => Dict.keys d
    | None => (Dict.keys d ++ [k])%list
    end.
Proof.
  unfold Dict.keys.
  induction d as [|[k' v'] d IH]; simpl; [reflexivity|].
  destruct (String.eqb k k') eqn:E; simpl; [reflexivity|].
  rewrite IH.
  destruct (Dict.get d k); reflexivity.
Qed.

Lemma NoDup_keys_set d k v :
  NoDup (Dict.keys d) -> NoDup (Dict.keys (Dict.set d k v)).
Proof.
  intros H. rewrite keys_set.
  destruct (Dict.get d k) eqn:E; [exact H|].
  apply get_None in E.
  apply NoDup_rev in H. rewrite <- (rev_involutive (Dict.keys d ++ [k])%list).
  apply NoDup_rev. rewrite rev_app_distr. simpl.
  constructor; [|exact H].
  now rewrite <- in_rev.
Qed.

Lemma Forall_set (P : V -> Prop) d k v :
  Forall (fun e => P (snd e)) d -> P v ->
  Forall (fun e => P (snd e)) (Dict.set d k v).
Proof.
  intros Hd Hv. induction d as [|[k' v'] d IH]; simpl.
  - constructor; [exact Hv | constructor].
  - inversion Hd as [|? ? Hh Ht]; subst.
    destruct (String.eqb k k').
    + constructor; [exact Hv | exact Ht].
    + constructor; [exact Hh | now apply IH].
Qed.

End DictFacts.

(* ================================================================== *)
(** * Sorting *)

Section SortFacts.
Variable A : Type.
Variable cmp : A -> A -> Q.

Lemma insert_perm (x : A) (l : list A) :
  Permutation (Sorting.insert cmp x l) (x :: l).
Proof.
  induction l as [|y l IH]; simpl; [reflexivity|].
  destruct (Num.ltb 0 (cmp x y)); [|reflexivity].
  rewrite IH. apply perm_swap.
Qed.

Lemma sort_perm (l : list A) : Permutation (Sorting.sort cmp l) l.
Proof.
  induction l as [|x l IH]; simpl; [reflexivity|].
  rewrite insert_perm. now constructor.
Qed.

Lemma sort_In (l : list A) (x : A) : In x (Sorting.sort cmp l) <-> In x l.
Proof.
  split; apply Permutation_in; [|symmetry]; apply sort_perm.
Qed.

Lemma sort_length (l : list A) : length (Sorting.sort cmp l) = length l.
Proof. apply Permutation_length, sort_perm. Qed.

(** The order the comparator stands for. *)
Variable precedes : A -> A -> Prop.
Hypothesis cmp_positive : forall x y, (0 < cmp x y)%Q -> precedes y x.
Hypothesis cmp_not_positive : forall x y, (cmp x y <= 0)%Q -> precedes x y.
Hypothesis precedes_trans :
  forall x y z, precedes x y -> precedes y z -> precedes x z.

Lemma insert_sorted (x : A) (l : list A) :
  StronglySorted precedes l -> StronglySorted precedes (Sorting.insert cmp x l).
Proof.
  induction l as [|y l IH]; simpl; intros Hs.
  - constructor; [constructor | constructor].
  - inversion Hs as [|? ? Hl Hy]; subst.
    destruct (Num.ltb 0 (cmp x y)) eqn:E.
    + apply ltb_true in E. constructor; [now apply IH|].
      apply Forall_forall. intros z Hz.
      apply (Permutation_in _ (insert_perm x l)) in Hz.
      destruct Hz as [<-|Hz]; [now apply cmp_positive|].
      rewrite Forall_forall in Hy. now apply Hy.
    + apply ltb_false in E. constructor; [exact Hs|].
      constructor; [now apply cmp_not_positive|].
      apply Forall_forall. intros z Hz.
      rewrite Forall_forall in Hy.
      apply precedes_trans with y; [now apply cmp_not_positive | now apply Hy].
Qed.

Lemma sort_sorted (l : list A) : StronglySorted precedes (Sorting.sort cmp l).
Proof.
  induction l as [|x l IH]; simpl; [constructor | now apply insert_sorted].
Qed.

End SortFacts.

(* ================================================================== *)
(** * Properties of the summary *)

Section SummaryFacts.
Import Analyzer.

Lemma fold_left_invariant (A B : Type) (P : A -> Prop) (f : A -> B -> A)
  (l : list B) (a : A) :
  P a -> (forall a x, P a -> P (f a x)) -> P (fold_left f l a).
Proof.
  intros Ha Hf. revert a Ha.
  induction l as [|x l IH]; simpl; intros a Ha; [exact Ha|].
  apply IH. now apply Hf.
Qed.

Lemma countCorrect_from (analyses : list QuestionAnalysis) (c i : nat) :
  fold_left
    (fun counts analysis =>
       if isCorrect analysis
       then (S (fst counts), snd counts)
       else (fst counts, S (snd counts)))
    analyses (c, i)
  = (c + length (filter isCorrect analyses),
     i + length (filter (fun a => negb (isCorrect a)) analyses)).
Proof.
  revert c i. induction analyses as [|a l IH]; intros c i; simpl.
  - f_equal; lia.
  - destruct (isCorrect a); simpl; rewrite IH; f_equal; lia.
Qed.

(** Each analysis is counted once, on the side its [isCorrect] says. *)
Lemma countCorrect_filter (analyses : list QuestionAnalysis) :
  countCorrect analyses
  = (length (filter isCorrect analyses),
     length (filter (fun a => negb (isCorrect a)) analyses)).
Proof. unfold countCorrect. now rewrite countCorrect_from. Qed.

Lemma filter_split_length (A : Type) (f : A -> bool) (l : list A) :
  length (filter f l) + length (filter (fun a => negb (f a)) l) = length l.
Proof.
  induction l as [|x l IH]; simpl; [reflexivity|].
  destruct (f x); simpl; lia.
Qed.

Lemma countCorrect_total (analyses : list QuestionAnalysis) :
  fst (countCorrect analyses) + snd (countCorrect analyses) = length analyses.
Proof.
  rewrite countCorrect_filter. simpl. apply filter_split_length.
Qed.

Lemma observe_observed (c : bool) bd key :
  observed bd -> observed (observe c bd key).
Proof.
  intros [Hnd Hall]. unfold observe. split.
  - now apply NoDup_keys_set.
  - apply (Forall_set _ (fun b => 1 <= Breakdown.total b)); [exact Hall|].
    simpl. lia.
Qed.

Lemma buildBreakdown_observed select analyses :
  observed (buildBreakdown select analyses).
Proof.
  unfold buildBreakdown.
  apply fold_left_invariant.
  - split; constructor.
  - intros bd a Hbd. apply fold_left_invariant; [exact Hbd|].
    intros bd' key. apply observe_observed.
Qed.

Lemma computeAccuracies_keys bd :
  Dict.keys (computeAccuracies bd) = Dict.keys bd.
Proof.
  unfold computeAccuracies, Dict.keys. rewrite map_map. reflexivity.
Qed.

Lemma computeAccuracies_In bd name b :
  In (name, b) (computeAccuracies bd) ->
  exists b0, In (name, b0) bd /\ b = setAccuracy b0.
Proof.
  unfold computeAccuracies. rewrite in_map_iff.
  intros ([k b0] & Heq & Hin). simpl in Heq. injection Heq as <- <-.
  now exists b0.
Qed.

(** Every entry of a finished breakdown was observed at least once and
    carries the percentage of its own counters. *)
Lemma breakdown_entry select analyses name b :
  In (name, b) (computeAccuracies (buildBreakdown select analyses)) ->
  1 <= Breakdown.total b
  /\ Breakdown.accuracy b
     = (Num.ofNat (Breakdown.correct b) / Num.ofNat (Breakdown.total b) * 100)%Q.
Proof.
  intros H. apply computeAccuracies_In in H as (b0 & Hin & ->).
  destruct (buildBreakdown_observed select analyses) as [_ Hall].
  rewrite Forall_forall in Hall. specialize (Hall _ Hin). simpl in Hall.
  split; [exact Hall | reflexivity].
Qed.

Lemma breakdown_NoDup select analyses :
  NoDup (Dict.keys (computeAccuracies (buildBreakdown select analyses))).
Proof.
  rewrite computeAccuracies_keys. apply buildBreakdown_observed.
Qed.

Lemma isWeak_true data :
  isWeak data = true
  <-> 2 <= Breakdown.total data /\ (Breakdown.accuracy data < 70)%Q.
Proof.
  unfold isWeak. rewrite andb_true_iff, Nat.leb_le, ltb_true. reflexivity.
Qed.

Lemma isStrong_true data :
  isStrong data = true
  <-> 2 <= Breakdown.total data /\ (85 <= Breakdown.accuracy data)%Q.
Proof.
  unfold isStrong.
  rewrite !andb_true_iff, Nat.leb_le, negb_true_iff, ltb_false, geb_true.
  split.
  - intros [[H1 _] H2]. now split.
  - intros [H1 H2]. repeat split; [exact H1| |exact H2].
    apply Qle_trans with 85%Q; [discriminate | exact H2].
Qed.

(** The names an area list holds are the keys whose entry passes the test
    the list is collected with. *)
Lemma collected_names (p : Breakdown.t -> bool) bd name :
  NoDup (Dict.keys bd) ->
  In name (map Area.service (map toArea (filter (fun e => p (snd e)) bd)))
  <-> exists b, Dict.get bd name = Some b /\ p b = true.
Proof.
  intros Hnd. rewrite map_map, in_map_iff. split.
  - intros ([k b] & Hname & Hin). simpl in Hname. subst k.
    apply filter_In in Hin as [Hin Hp]. simpl in Hp.
    exists b. split; [now apply In_get | exact Hp].
  - intros (b & Hget & Hp). exists (name, b). split; [reflexivity|].
    apply filter_In. split; [now apply get_In | exact Hp].
Qed.

Lemma collected_area (p : Breakdown.t -> bool) bd a :
  NoDup (Dict.keys bd) ->
  In a (map toArea (filter (fun e => p (snd e)) bd)) ->
  exists b, Dict.get bd (Area.service a) = Some b
            /\ p b = true
            /\ Breakdown.total b = Area.questionsReviewed a
            /\ Breakdown.accuracy b = Area.accuracy a.
Proof.
  intros Hnd. rewrite in_map_iff.
  intros ([k b] & <- & Hin). apply filter_In in Hin as [Hin Hp].
  simpl in *. exists b. repeat split; [now apply In_get | exact Hp].
Qed.

Lemma sorted_names (cmp : Area.t -> Area.t -> Q) (l : list Area.t) name :
  In name (map Area.service (Sorting.sort cmp l))
  <-> In name (map Area.service l).
Proof.
  split; apply Permutation_in, Permutation_map; [|symmetry]; apply sort_perm.
Qed.

Lemma byAccuracyAsc_sorted (l : list Area.t) :
  StronglySorted (fun a b => (Area.accuracy a <= Area.accuracy b)%Q)
    (Sorting.sort byAccuracyAsc l).
Proof.
  apply sort_sorted; unfold byAccuracyAsc.
  - intros x y H. apply Qlt_le_weak, Qlt_minus_iff. exact H.
  - intros x y H. apply Qle_minus_iff in H.
    apply Qle_minus_iff.
    setoid_replace (Area.accuracy y + - Area.accuracy x)%Q
      with (0 + - (Area.accuracy x - Area.accuracy y))%Q by ring.
    exact H.
  - intros x y z. apply Qle_trans.
Qed.

Lemma byAccuracyDesc_sorted (l : list Area.t) :
  StronglySorted (fun a b => (Area.accuracy b <= Area.accuracy a)%Q)
    (Sorting.sort byAccuracyDesc l).
Proof.
  apply sort_sorted; unfold byAccuracyDesc.
  - intros x y H. apply Qlt_le_weak, Qlt_minus_iff. exact H.
  - intros x y H. apply Qle_minus_iff in H.
    apply Qle_minus_iff.
    setoid_replace (Area.accuracy x + - Area.accuracy y)%Q
      with (0 + - (Area.accuracy y - Area.accuracy x))%Q by ring.
    exact H.
  - intros x y z H1 H2. now apply Qle_trans with (Area.accuracy y).
Qed.

End SummaryFacts.

Section SummaryClaims.
Import Analyzer.
Variable toFixed1 : Q -> string.

(** C10: in every summary [correctCount] is the number of analyses marked
    correct and [incorrectCount] the number of the others, so the two add
    up to [totalQuestions], which is the length of the input: every
    analysis is counted exactly once.  The overall accuracy therefore lies
    between 0 and 100. *)
Theorem C10_counts_add_up (analyses : list QuestionAnalysis) :
  let s := generateSummary toFixed1 analyses in
  correctCount s = length (filter isCorrect analyses)
  /\ incorrectCount s
     = length (filter (fun a => negb (isCorrect a)) analyses)
  /\ correctCount s + incorrectCount s = totalQuestions s
  /\ totalQuestions s = length analyses
  /\ (0 <= accuracy s)%Q /\ (accuracy s <= 100)%Q.
Proof.
  cbn [generateSummary correctCount incorrectCount totalQuestions accuracy].
  pose proof (countCorrect_total analyses) as Hsum.
  split; [now rewrite countCorrect_filter|].
  split; [now rewrite countCorrect_filter|].
  split; [exact Hsum|]. split; [reflexivity|].
  destruct (0 <? length analyses) eqn:E.
  - apply Nat.ltb_lt in E. apply percent_bounds; lia.
  - split; discriminate.
Qed.

(** C5: the overall accuracy is [correct / total * 100] when there are
    questions and 0 when there are none; every entry of the category and
    of the domain breakdown has a total of at least 1 and carries
    [correct / total * 100] of its own counters. *)
Theorem C5_accuracy_formula (analyses : list QuestionAnalysis) :
  let s := generateSummary toFixed1 analyses in
  (0 < totalQuestions s ->
   accuracy s
   = (Num.ofNat (correctCount s) / Num.ofNat (totalQuestions s) * 100)%Q)
  /\ (totalQuestions s = 0 -> accuracy s = 0%Q)
  /\ (forall name b,
        In (name, b) (serviceBreakdown s) \/ In (name, b) (domainBreakdown s) ->
        1 <= Breakdown.total b
        /\ Breakdown.accuracy b
           = (Num.ofNat (Breakdown.correct b)
              / Num.ofNat (Breakdown.total b) * 100)%Q).
Proof.
  cbn [generateSummary correctCount totalQuestions accuracy
       serviceBreakdown domainBreakdown].
  split; [|split].
  - intros H. apply Nat.ltb_lt in H. rewrite H. reflexivity.
  - intros H. rewrite H. reflexivity.
  - intros name b [H|H]; exact (breakdown_entry _ _ _ _ H).
Qed.

(** C4: a category is in [weakAreas] exactly when its breakdown has a total
    of at least 2 and an accuracy below 70, and in [strongAreas] exactly
    when it has a total of at least 2 and an accuracy of at least 85;
    [weakAreas] ascends and [strongAreas] descends by accuracy.  But the
    total counts tags, not questions: a batch of one question that names
    Systems Manager, which the reference list holds twice, has a single
    question observing the category and lists it all the same, among the
    strong areas when the answer is right and among the weak ones when it
    is wrong, with two questions reviewed. *)
Theorem C4_single_question_listed (analyses : list QuestionAnalysis) :
  let s := generateSummary toFixed1 analyses in
  (forall name,
     In name (map Area.service (weakAreas s))
     <-> exists b, Dict.get (serviceBreakdown s) name = Some b
                   /\ 2 <= Breakdown.total b
                   /\ (Breakdown.accuracy b < 70)%Q)
  /\ (forall name,
        In name (map Area.service (strongAreas s))
        <-> exists b, Dict.get (serviceBreakdown s) name = Some b
                      /\ 2 <= Breakdown.total b
                      /\ (85 <= Breakdown.accuracy b)%Q)
  /\ StronglySorted (fun a b => (Area.accuracy a <= Area.accuracy b)%Q)
       (weakAreas s)
  /\ StronglySorted (fun a b => (Area.accuracy b <= Area.accuracy a)%Q)
       (strongAreas s)
  /\ (questionsObserving "Systems Manager" [answeredRight] = 1
      /\ map (fun a => (Area.service a, Area.questionsReviewed a))
           (strongAreas (generateSummary toFixed1 [answeredRight]))
         = [("Systems Manager", 2)])
  /\ (questionsObserving "Systems Manager" [answeredWrong] = 1
      /\ map (fun a => (Area.service a, Area.questionsReviewed a))
           (weakAreas (generateSummary toFixed1 [answeredWrong]))
         = [("Systems Manager", 2)]).
Proof.
  cbv zeta.
  split; [|split; [|split; [|split; [|split]]]];
    [| | | |split; vm_compute; reflexivity|split; vm_compute; reflexivity];
    cbn [generateSummary weakAreas strongAreas serviceBreakdown];
    set (bd := computeAccuracies (buildBreakdown Tagger.services analyses));
    assert (Hnd : NoDup (Dict.keys bd)) by apply breakdown_NoDup.
  - intros name.
    rewrite (sorted_names byAccuracyAsc), (collected_names isWeak bd name Hnd).
    split; intros (b & Hget & Hp); exists b; (split; [exact Hget|]);
      now apply isWeak_true.
  - intros name.
    rewrite (sorted_names byAccuracyDesc), (collected_names isStrong bd name Hnd).
    split; intros (b & Hget & Hp); exists b; (split; [exact Hget|]);
      now apply isStrong_true.
  - apply byAccuracyAsc_sorted.
  - apply byAccuracyDesc_sorted.
Qed.

End SummaryClaims.

Lemma C5_accuracy_formula_witness :
  0 < Analyzer.totalQuestions sampleSummary
  /\ In ("IAM", sampleIAM) (Analyzer.serviceBreakdown sampleSummary)
  /\ Analyzer.accuracy sampleSummary
     = (Num.ofNat (Analyzer.correctCount sampleSummary)
        / Num.ofNat (Analyzer.totalQuestions sampleSummary) * 100)%Q
  /\ 1 <= Analyzer.Breakdown.total sampleIAM
  /\ Analyzer.Breakdown.accuracy sampleIAM
     = (Num.ofNat (Analyzer.Breakdown.correct sampleIAM)
        / Num.ofNat (Analyzer.Breakdown.total sampleIAM) * 100)%Q.
Proof.
  assert (Hpos : 0 < Analyzer.totalQuestions sampleSummary)
    by (vm_compute; lia).
  assert (Hin : In ("IAM", sampleIAM) (Analyzer.serviceBreakdown sampleSummary))
    by (vm_compute; left; reflexivity).
  destruct (C5_accuracy_formula noDigits sampleAnalyses) as (H1 & _ & H3).
  split; [exact Hpos|]. split; [exact Hin|].
  split; [exact (H1 Hpos)|].
  exact (H3 "IAM" sampleIAM (or_introl Hin)).
Defined.

Lemma C4_single_question_witness :
  Dict.get (Analyzer.serviceBreakdown sampleSummary) "IAM" = Some sampleIAM
  /\ 2 <= Analyzer.Breakdown.total sampleIAM
  /\ (Analyzer.Breakdown.accuracy sampleIAM < 70)%Q
  /\ In "IAM" (map Analyzer.Area.service (Analyzer.weakAreas sampleSummary))
  /\ Dict.get (Analyzer.serviceBreakdown sampleSummary) "S3" = Some sampleS3
  /\ (85 <= Analyzer.Breakdown.accuracy sampleS3)%Q
  /\ In "S3" (map Analyzer.Area.service (Analyzer.strongAreas sampleSummary)).
Proof.
  assert (Hget : Dict.get (Analyzer.serviceBreakdown sampleSummary) "IAM"
                 = Some sampleIAM) by (vm_compute; reflexivity).
  assert (Htot : 2 <= Analyzer.Breakdown.total sampleIAM) by (simpl; lia).
  assert (Hacc : (Analyzer.Breakdown.accuracy sampleIAM < 70)%Q)
    by (vm_compute; reflexivity).
  assert (Hget' : Dict.get (Analyzer.serviceBreakdown sampleSummary) "S3"
                  = Some sampleS3) by (vm_compute; reflexivity).
  assert (Hacc' : (85 <= Analyzer.Breakdown.accuracy sampleS3)%Q)
    by (vm_compute; discriminate).
  destruct (C4_single_question_listed noDigits sampleAnalyses)
    as (Hweak & Hstrong & _).
  split; [exact Hget|]. split; [exact Htot|]. split; [exact Hacc|].
  split.
  - apply Hweak. exists sampleIAM. exact (conj Hget (conj Htot Hacc)).
  - split; [exact Hget'|]. split; [exact Hacc'|].
    apply Hstrong. exists sampleS3.
    exact (conj Hget' (conj (le_n 2) Hacc')).
Defined.

(* ================================================================== *)
(** * The heatmap *)

Section HeatmapFacts.
Import Analyzer.

(** The items before sorting: one for each key, in key order. *)
Lemma heat_items_services (bd : Dict.t Breakdown.t) (ks : list string) :
  incl ks (Dict.keys bd) ->
  map Heat.service
    (flat_map
       (fun service =>
          match Dict.get bd service with
          | Some data => [heatItem service data]
          | None => []
          end) ks)
  = ks.
Proof.
  induction ks as [|k ks IH]; simpl; intros Hincl; [reflexivity|].
  destruct (Dict.get bd k) eqn:E.
  - simpl. f_equal. apply IH. intros x Hx. apply Hincl. now right.
  - exfalso. apply get_None in E. apply E, Hincl. now left.
Qed.

Lemma heat_items_source (bd : Dict.t Breakdown.t) (ks : list string) item :
  In item
    (flat_map
       (fun service =>
          match Dict.get bd service with
          | Some data => [heatItem service data]
          | None => []
          end) ks) ->
  exists data, Dict.get bd (Heat.service item) = Some data
               /\ item = heatItem (Heat.service item) data.
Proof.
  rewrite in_flat_map. intros (k & _ & Hin).
  destruct (Dict.get bd k) as [data|] eqn:E; [|contradiction].
  destruct Hin as [<-|[]]. simpl. now exists data.
Qed.

Lemma heatAsc_sorted (l : list Heat.t) :
  StronglySorted (fun a b => (Heat.accuracy a <= Heat.accuracy b)%Q)
    (Sorting.sort heatAsc l).
Proof.
  apply sort_sorted; unfold heatAsc.
  - intros x y H. apply Qlt_le_weak, Qlt_minus_iff. exact H.
  - intros x y H. apply Qle_minus_iff in H.
    apply Qle_minus_iff.
    setoid_replace (Heat.accuracy y + - Heat.accuracy x)%Q
      with (0 + - (Heat.accuracy x - Heat.accuracy y))%Q by ring.
    exact H.
  - intros x y z. apply Qle_trans.
Qed.

(** The four buckets of [getStatus] and [getHeatColor]. *)
Lemma heat_buckets (accuracy : Q) :
  ((85 <= accuracy)%Q ->
   getStatus accuracy = "Strong" /\ getHeatColor accuracy = "#22c55e")
  /\ ((70 <= accuracy)%Q -> (accuracy < 85)%Q ->
      getStatus accuracy = "Good" /\ getHeatColor accuracy = "#eab308")
  /\ ((50 <= accuracy)%Q -> (accuracy < 70)%Q ->
      getStatus accuracy = "Review" /\ getHeatColor accuracy = "#f97316")
  /\ ((accuracy < 50)%Q ->
      getStatus accuracy = "Weak" /\ getHeatColor accuracy = "#ef4444").
Proof.
  unfold getStatus, getHeatColor.
  destruct (Num.geb accuracy 85) eqn:E85;
    [apply geb_true in E85 | apply geb_false in E85];
  (destruct (Num.geb accuracy 70) eqn:E70;
    [apply geb_true in E70 | apply geb_false in E70]);
  (destruct (Num.geb accuracy 50) eqn:E50;
    [apply geb_true in E50 | apply geb_false in E50]);
  repeat split; intros;
    try reflexivity;
    repeat match goal with
      | Hle : (?a <= ?x)%Q, Hlt : (?x < ?b)%Q |- _ =>
          exfalso; apply (Qlt_irrefl a);
          apply (Qle_lt_trans _ _ _ Hle), (Qlt_le_trans _ _ _ Hlt);
          discriminate
      end.
Qed.

End HeatmapFacts.

(** C6: the heatmap has one item for each category of the category
    breakdown, each with the accuracy and total of its entry; it ascends by
    accuracy; and status and colour follow the inclusive lower bounds 85
    (Strong, green #22c55e), 70 (Good, yellow #eab308), 50 (Review, orange
    #f97316), with Weak and red #ef4444 below 50. *)
Theorem C6_heatmap (summary : Analyzer.StudySummary) :
  let items := Analyzer.generateHeatmapData summary in
  let breakdown := Analyzer.serviceBreakdown summary in
  length items = length (Dict.keys breakdown)
  /\ Permutation (map Analyzer.Heat.service items) (Dict.keys breakdown)
  /\ StronglySorted
       (fun a b => (Analyzer.Heat.accuracy a <= Analyzer.Heat.accuracy b)%Q)
       items
  /\ (forall item, In item items ->
        (exists data,
            Dict.get breakdown (Analyzer.Heat.service item) = Some data
            /\ Analyzer.Heat.accuracy item = Analyzer.Breakdown.accuracy data
            /\ Analyzer.Heat.total item = Analyzer.Breakdown.total data)
        /\ ((85 <= Analyzer.Heat.accuracy item)%Q ->
            Analyzer.Heat.status item = "Strong"
            /\ Analyzer.Heat.color item = "#22c55e")
        /\ ((70 <= Analyzer.Heat.accuracy item)%Q ->
            (Analyzer.Heat.accuracy item < 85)%Q ->
            Analyzer.Heat.status item = "Good"
            /\ Analyzer.Heat.color item = "#eab308")
        /\ ((50 <= Analyzer.Heat.accuracy item)%Q ->
            (Analyzer.Heat.accuracy item < 70)%Q ->
            Analyzer.Heat.status item = "Review"
            /\ Analyzer.Heat.color item = "#f97316")
        /\ ((Analyzer.Heat.accuracy item < 50)%Q ->
            Analyzer.Heat.status item = "Weak"
            /\ Analyzer.Heat.color item = "#ef4444")).
Proof.
  intros items breakdown. subst items. unfold Analyzer.generateHeatmapData.
  fold breakdown.
  assert (Hservices := heat_items_services breakdown (Dict.keys breakdown)
                         (incl_refl _)).
  split; [|split; [|split]].
  - rewrite sort_length, <- (length_map Analyzer.Heat.service), Hservices.
    reflexivity.
  - rewrite <- Hservices at 2. apply Permutation_map, sort_perm.
  - apply heatAsc_sorted.
  - intros item Hin. apply sort_In in Hin.
    destruct (heat_items_source breakdown _ item Hin) as (data & Hget & Hitem).
    split.
    + exists data. split; [exact Hget|]. rewrite Hitem. now split.
    + rewrite Hitem. simpl. apply heat_buckets.
Qed.

Lemma C6_heatmap_witness :
  Analyzer.generateHeatmapData sampleSummary
  = [ Analyzer.heatItem "IAM" sampleIAM; Analyzer.heatItem "S3" sampleS3 ]
  /\ (Analyzer.Breakdown.accuracy sampleIAM < 70)%Q
  /\ (50 <= Analyzer.Breakdown.accuracy sampleIAM)%Q
  /\ Analyzer.Heat.status (Analyzer.heatItem "IAM" sampleIAM) = "Review"
  /\ Analyzer.Heat.color (Analyzer.heatItem "IAM" sampleIAM) = "#f97316".
Proof.
  assert (Hitems : Analyzer.generateHeatmapData sampleSummary
                   = [ Analyzer.heatItem "IAM" sampleIAM;
                       Analyzer.heatItem "S3" sampleS3 ])
    by (vm_compute; reflexivity).
  assert (Hlt : (Analyzer.Breakdown.accuracy sampleIAM < 70)%Q)
    by (vm_compute; reflexivity).
  assert (Hle : (50 <= Analyzer.Breakdown.accuracy sampleIAM)%Q)
    by (vm_compute; discriminate).
  split; [exact Hitems|]. split; [exact Hlt|]. split; [exact Hle|].
  destruct (C6_heatmap sampleSummary) as (_ & _ & _ & Hbuckets).
  destruct (Hbuckets (Analyzer.heatItem "IAM" sampleIAM)) as (_ & _ & _ & H & _).
  - rewrite Hitems. left. reflexivity.
  - exact (H Hle Hlt).
Defined.

(* ================================================================== *)
(** * Recommendations *)

Section RecommendationFacts.
Import Analyzer.
Variable toFixed1 : Q -> string.

(** Every message of the later steps starts with another symbol than the
    three messages of the overall-performance step. *)
Lemma later_messages_differ (summary : StudySummary)
  (analyses : list QuestionAnalysis) (m : string) :
  In m overallBand ->
  In m (generateRecommendations toFixed1 summary analyses)
  <-> In m (overallMessages (accuracy summary)).
Proof.
  intros Hm. unfold generateRecommendations.
  rewrite in_app_iff. split; [|now left].
  intros [H|H]; [exact H|]. exfalso.
  assert (Hhead : In (Str.take 4 m) (map (Str.take 4) overallBand))
    by now apply in_map.
  repeat rewrite in_app_iff in H.
  destruct H as [H|[H|[H|[H|H]]]].
  - destruct (0 <? length (weakAreas summary)); [|contradiction].
    destruct H as [<-|[]].
    cbv in Hhead. intuition discriminate.
  - apply in_map_iff in H as ([domain data] & <- & _).
    cbv in Hhead. intuition discriminate.
  - destruct (3 <=? _); [|contradiction]. destruct H as [<-|[]].
    cbv in Hhead. intuition discriminate.
  - destruct (3 <=? _); [|contradiction]. destruct H as [<-|[]].
    cbv in Hhead. intuition discriminate.
  - destruct (_ <? 20); [|contradiction]. destruct H as [<-|[]].
    cbv in Hhead. intuition discriminate.
Qed.

Lemma overallMessages_fundamentals (a : Q) :
  In msgFundamentals (overallMessages a) <-> (a < 60)%Q.
Proof.
  unfold overallMessages.
  destruct (Num.ltb a 60) eqn:E60.
  - apply ltb_true in E60. split; [auto | intros _; now left].
  - apply ltb_false in E60.
    assert (Hno : ~ (a < 60)%Q) by (now apply Qle_not_lt).
    destruct (Num.ltb a 75); [|destruct (Num.geb a 85)]; simpl;
      split; try contradiction; intros H; exfalso;
      try (destruct H as [H|[]]; vm_compute in H; discriminate H);
      exact H.
Qed.

Lemma overallMessages_onTrack (a : Q) :
  In msgOnTrack (overallMessages a) <-> (60 <= a)%Q /\ (a < 75)%Q.
Proof.
  unfold overallMessages.
  destruct (Num.ltb a 60) eqn:E60.
  - apply ltb_true in E60. split.
    + intros [H|[]]. vm_compute in H. discriminate H.
    + intros [H _]. exfalso. exact (Qle_not_lt _ _ H E60).
  - apply ltb_false in E60.
    destruct (Num.ltb a 75) eqn:E75.
    + apply ltb_true in E75. split; [auto | intros _; now left].
    + apply ltb_false in E75.
      assert (Hno : ~ (a < 75)%Q) by (now apply Qle_not_lt).
      destruct (Num.geb a 85); simpl; split;
        try (intros [_ H]; contradiction); intros H; exfalso;
        try (destruct H as [H|[]]; vm_compute in H; discriminate H);
        exact H.
Qed.

Lemma overallMessages_examReady (a : Q) :
  In msgExamReady (overallMessages a) <-> (85 <= a)%Q.
Proof.
  unfold overallMessages.
  destruct (Num.ltb a 60) eqn:E60.
  - apply ltb_true in E60. split.
    + intros [H|[]]. vm_compute in H. discriminate H.
    + intros H. exfalso. apply (Qlt_irrefl 60).
      apply Qle_lt_trans with a; [|exact E60].
      apply Qle_trans with 85%Q; [discriminate | exact H].
  - destruct (Num.ltb a 75) eqn:E75.
    + apply ltb_true in E75. split.
      * intros [H|[]]. vm_compute in H. discriminate H.
      * intros H. exfalso. apply (Qlt_irrefl 75).
        apply Qle_lt_trans with a; [|exact E75].
        apply Qle_trans with 85%Q; [discriminate | exact H].
    + destruct (Num.geb a 85) eqn:E85.
      * apply geb_true in E85. split; [auto | intros _; now left].
      * apply geb_false in E85. split; [intros [] |].
        intros H. exfalso. exact (Qle_not_lt _ _ H E85).
Qed.

(** C8: the fundamentals-review message is emitted exactly when the overall
    accuracy is below 60, the on-track message exactly when it is in
    [60,75), the exam-ready message exactly when it is at least 85, and
    none of the three for an accuracy in [75,85). *)
Theorem C8_overall_banding (summary : StudySummary)
  (analyses : list QuestionAnalysis) :
  let recommendations := generateRecommendations toFixed1 summary analyses in
  (In msgFundamentals recommendations <-> (accuracy summary < 60)%Q)
  /\ (In msgOnTrack recommendations
      <-> (60 <= accuracy summary)%Q /\ (accuracy summary < 75)%Q)
  /\ (In msgExamReady recommendations <-> (85 <= accuracy summary)%Q)
  /\ ((75 <= accuracy summary)%Q -> (accuracy summary < 85)%Q ->
      forall m, In m overallBand -> ~ In m recommendations).
Proof.
  intros recommendations. subst recommendations.
  split; [|split; [|split]].
  - rewrite later_messages_differ by (left; reflexivity).
    apply overallMessages_fundamentals.
  - rewrite later_messages_differ by (right; left; reflexivity).
    apply overallMessages_onTrack.
  - rewrite later_messages_differ by (right; right; left; reflexivity).
    apply overallMessages_examReady.
  - intros H75 H85 m Hm.
    rewrite (later_messages_differ _ _ _ Hm).
    destruct Hm as [<-|[<-|[<-|[]]]].
    + rewrite overallMessages_fundamentals. intros H.
      apply (Qlt_irrefl 60).
      apply Qle_lt_trans with (accuracy summary); [|exact H].
      apply Qle_trans with 75%Q; [discriminate | exact H75].
    + rewrite overallMessages_onTrack. intros [_ H].
      exact (Qle_not_lt _ _ H75 H).
    + rewrite overallMessages_examReady. intros H.
      exact (Qle_not_lt _ _ H H85).
Qed.

End RecommendationFacts.

Lemma C8_overall_banding_witness :
  (75 <= 80)%Q /\ (80 < 85)%Q
  /\ ~ In Analyzer.msgOnTrack
         (Analyzer.generateRecommendations noDigits
            (summaryWithAccuracy 80) sampleAnalyses)
  /\ (50 < 60)%Q
  /\ In Analyzer.msgFundamentals
       (Analyzer.generateRecommendations noDigits
          (summaryWithAccuracy 50) sampleAnalyses).
Proof.
  assert (H75 : (75 <= 80)%Q) by discriminate.
  assert (H85 : (80 < 85)%Q) by reflexivity.
  assert (H60 : (50 < 60)%Q) by reflexivity.
  split; [exact H75|]. split; [exact H85|]. split; [|split; [exact H60|]].
  - destruct (C8_overall_banding noDigits (summaryWithAccuracy 80) sampleAnalyses)
      as (_ & _ & _ & Hgap).
    apply (Hgap H75 H85). right. left. reflexivity.
  - destruct (C8_overall_banding noDigits (summaryWithAccuracy 50) sampleAnalyses)
      as (Hlow & _).
    apply Hlow. exact H60.
Defined.

(* ================================================================== *)
(** * The upload loop *)

Section LoopFacts.
Variable image : Type.
Variable basename : string -> string.
Variable readFileSync : string -> Upload.outcome image.
Variable recognize : image -> Upload.outcome string.

Lemma processImage_pushes analyses filePath :
  Upload.processImage basename readFileSync recognize analyses filePath
  = (analyses ++ [Upload.pushed basename readFileSync recognize filePath])%list.
Proof.
  unfold Upload.processImage, Upload.pushed.
  destruct (Upload.extractText readFileSync recognize filePath); reflexivity.
Qed.

Lemma processImages_from imageFiles analyses :
  fold_left (Upload.processImage basename readFileSync recognize)
    imageFiles analyses
  = (analyses
     ++ map (Upload.pushed basename readFileSync recognize) imageFiles)%list.
Proof.
  revert analyses. induction imageFiles as [|f l IH]; intros analyses; simpl.
  - now rewrite app_nil_r.
  - rewrite IH, processImage_pushes, <- app_assoc. reflexivity.
Qed.

(** The loop pushes one analysis per file, in file order. *)
Lemma processImages_map imageFiles :
  Upload.processImages basename readFileSync recognize imageFiles
  = map (Upload.pushed basename readFileSync recognize) imageFiles.
Proof. unfold Upload.processImages. now rewrite processImages_from. Qed.

(** C9: when the recognition of an image fails, the loop goes on: the
    files before and after it are processed as they are without it, and the
    failed file contributes one analysis with empty question, options,
    answers and explanation, the error message in [rawText], no services,
    domains or keywords, and [isCorrect] false. *)
Theorem C9_failed_image_does_not_abort (before after : list string)
  (filePath : string) (buffer : image) (message : string) :
  readFileSync filePath = Upload.Returned buffer ->
  recognize buffer = Upload.Thrown message ->
  Upload.processImages basename readFileSync recognize
    (before ++ filePath :: after)
  = (Upload.processImages basename readFileSync recognize before
     ++ {| Analyzer.file := basename filePath;
           Analyzer.parsed :=
             {| Parser.question := "";
                Parser.options := [];
                Parser.yourAnswer := "";
                Parser.correctAnswer := "";
                Parser.explanation := "";
                Parser.rawText := "Error: OCR failed: " ++ message |};
           Analyzer.tags :=
             {| Tagger.services := []; Tagger.domains := [];
                Tagger.keywords := [] |};
           Analyzer.isCorrect := false |}
     :: Upload.processImages basename readFileSync recognize after)%list.
Proof.
  intros Hread Hocr.
  rewrite !processImages_map, map_app. simpl. f_equal. f_equal.
  unfold Upload.pushed, Upload.extractText, Upload.ocrImage.
  rewrite Hread, Hocr. reflexivity.
Qed.

End LoopFacts.

Lemma C9_failed_image_witness :
  sampleRead "b.png" = Upload.Returned "b.png"
  /\ sampleRecognize "b.png" = Upload.Thrown "bad image"
  /\ Upload.processImages sampleBasename sampleRead sampleRecognize
       ["a.png"; "b.png"; "c.png"]
     = [ Upload.analysed "a.png" scenario1;
         Upload.failedEntry "b.png" "OCR failed: bad image";
         Upload.analysed "c.png" scenario1 ].
Proof.
  assert (Hread : sampleRead "b.png" = Upload.Returned "b.png") by reflexivity.
  assert (Hocr : sampleRecognize "b.png" = Upload.Thrown "bad image")
    by reflexivity.
  split; [exact Hread|]. split; [exact Hocr|].
  change ["a.png"; "b.png"; "c.png"] with (["a.png"] ++ "b.png" :: ["c.png"])%list.
  rewrite (C9_failed_image_does_not_abort string sampleBasename sampleRead
             sampleRecognize ["a.png"] ["c.png"] "b.png" "b.png" "bad image"
             Hread Hocr).
  vm_compute. reflexivity.
Defined.

(* ================================================================== *)
(** * Keyword ranking *)

Section OrderFacts.
Variable A : Type.

Lemma before_In (l : list A) (a b : A) : before l a b -> In a l /\ In b l.
Proof.
  induction l as [|x l IH]; simpl; [intros []|].
  intros [[-> Hb]|H].
  - split; [now left | now right].
  - destruct (IH H). split; now right.
Qed.

Lemma before_nth (l : list A) (i j : nat) (a b : A) :
  i < j -> nth_error l i = Some a -> nth_error l j = Some b -> before l a b.
Proof.
  revert i j. induction l as [|x l IH]; intros i j Hij Hi Hj.
  - destruct i; discriminate.
  - destruct j as [|j]; [lia|]. simpl in Hj.
    destruct i as [|i]; simpl in Hi.
    + injection Hi as ->. left. split; [reflexivity|].
      now apply nth_error_In with j.
    + right. apply (IH i j); [lia | exact Hi | exact Hj].
Qed.

Lemma before_firstn (n : nat) (l : list A) (a b : A) :
  before (firstn n l) a b -> before l a b.
Proof.
  revert l. induction n as [|n IH]; intros [|x l]; simpl; try contradiction.
  intros [[-> Hb]|H].
  - left. split; [reflexivity|].
    rewrite <- (firstn_skipn n l). apply in_or_app. now left.
  - right. now apply IH.
Qed.

Lemma sorted_firstn (R : A -> A -> Prop) (n : nat) (l : list A) :
  StronglySorted R l -> StronglySorted R (firstn n l).
Proof.
  revert l. induction n as [|n IH]; intros [|x l] Hs; simpl; try constructor.
  - inversion Hs; subst. now apply IH.
  - inversion Hs as [|? ? _ Hall]; subst.
    rewrite Forall_forall in *. intros y Hy. apply Hall.
    rewrite <- (firstn_skipn n l). apply in_or_app. now left.
Qed.

Variable cmp : A -> A -> Q.

Lemma before_insert (x : A) (l : list A) (a b : A) :
  before (Sorting.insert cmp x l) a b ->
  before l a b
  \/ (a = x /\ In b l)
  \/ (b = x /\ In a l /\ Num.ltb 0 (cmp x a) = true).
Proof.
  induction l as [|y l IH]; simpl.
  - intros [[_ []]|[]].
  - destruct (Num.ltb 0 (cmp x y)) eqn:E; simpl.
    + intros [[-> Hb]|H].
      * apply (Permutation_in _ (insert_perm A cmp x l)) in Hb.
        destruct Hb as [<-|Hb].
        -- right. right. split; [reflexivity|]. split; [now left | exact E].
        -- left. left. now split.
      * destruct (IH H) as [H1|[[-> H1]|(-> & H1 & H2)]].
        -- left. now right.
        -- right. left. split; [reflexivity | now right].
        -- right. right. split; [reflexivity|]. split; [now right | exact H2].
    + intros [[-> Hb]|H].
      * right. left. now split.
      * left. exact H.
Qed.

(** The sort is stable: it puts [a] in front of [b] only if [a] was in
    front already or the comparator asks for it. *)
Lemma before_sort (l : list A) (a b : A) :
  before (Sorting.sort cmp l) a b ->
  before l a b \/ Num.ltb 0 (cmp b a) = true.
Proof.
  revert a b. induction l as [|x l IH]; simpl; intros a b; [intros []|].
  intros H. apply before_insert in H as [H|[[-> H]|(-> & H1 & H2)]].
  - destruct (IH _ _ H) as [H1|H1]; [left; now right | now right].
  - left. left. split; [reflexivity|]. now apply (sort_In A cmp l).
  - now right.
Qed.

End OrderFacts.

Section KeywordFacts.
Import Analyzer.

Lemma before_map (A B : Type) (f : A -> B) (l : list A) (a' b' : B) :
  before (map f l) a' b' ->
  exists a b, a' = f a /\ b' = f b /\ before l a b.
Proof.
  induction l as [|x l IH]; simpl; [intros []|].
  intros [[<- Hb]|H].
  - apply in_map_iff in Hb as (b & <- & Hb).
    exists x, b. split; [reflexivity|]. split; [reflexivity|]. now left.
  - destruct (IH H) as (a & b & -> & -> & Hab).
    exists a, b. split; [reflexivity|]. split; [reflexivity|]. now right.
Qed.

Lemma before_keys (V : Type) (d : Dict.t V) (e1 e2 : string * V) :
  before d e1 e2 -> before (Dict.keys d) (fst e1) (fst e2).
Proof.
  induction d as [|x d IH]; simpl; [intros []|].
  intros [[-> Hb]|H].
  - left. split; [reflexivity|]. now apply (in_map fst).
  - right. now apply IH.
Qed.

Lemma existsb_eqb_In (k : string) (seen : list string) :
  existsb (String.eqb k) seen = true <-> In k seen.
Proof.
  rewrite existsb_exists. split.
  - intros (x & Hx & E). apply String.eqb_eq in E. now subst.
  - intros H. exists k. split; [exact H | apply String.eqb_refl].
Qed.

Lemma firstSeen_fresh (stream seen : list string) (k : string) :
  In k (firstSeen seen stream) -> ~ In k seen.
Proof.
  revert seen. induction stream as [|x stream IH]; simpl; intros seen;
    [intros []|].
  destruct (existsb (String.eqb x) seen) eqn:E.
  - apply IH.
  - intros [<-|H].
    + intros Hin. apply existsb_eqb_In in Hin. congruence.
    + apply IH in H. intros Hin. apply H, in_or_app. now left.
Qed.

Lemma firstIndex_skip (k x : string) (stream : list string) :
  x <> k -> firstIndex k (x :: stream) = S (firstIndex k stream).
Proof.
  intros H. simpl. apply String.eqb_neq in H. now rewrite H.
Qed.

(** In the list of first occurrences a keyword stands in front of the
    keywords first seen after it. *)
Lemma firstSeen_order (stream seen : list string) (k1 k2 : string) :
  before (firstSeen seen stream) k1 k2 ->
  firstIndex k1 stream < firstIndex k2 stream.
Proof.
  revert seen. induction stream as [|x stream IH]; simpl firstSeen;
    intros seen; [intros []|].
  destruct (existsb (String.eqb x) seen) eqn:E.
  - intros H. destruct (before_In _ _ _ _ H) as [H1 H2].
    apply firstSeen_fresh in H1, H2. apply existsb_eqb_In in E.
    rewrite !firstIndex_skip by (intros ->; contradiction).
    apply IH in H. lia.
  - simpl before. intros [[-> H2]|H].
    + apply firstSeen_fresh in H2.
      rewrite (firstIndex_skip k2 k1)
        by (intros ->; apply H2, in_or_app; right; now left).
      simpl. rewrite String.eqb_refl. lia.
    + destruct (before_In _ _ _ _ H) as [H1 H2].
      apply firstSeen_fresh in H1, H2.
      rewrite (firstIndex_skip k1 x)
        by (intros ->; apply H1, in_or_app; right; now left).
      rewrite (firstIndex_skip k2 x)
        by (intros ->; apply H2, in_or_app; right; now left).
      apply IH in H. lia.
Qed.

Lemma countKeyword_keys (m : Dict.t nat) (k : string) :
  Dict.keys (countKeyword m k)
  = if existsb (String.eqb k) (Dict.keys m) then Dict.keys m
    else (Dict.keys m ++ [k])%list.
Proof.
  unfold countKeyword. rewrite keys_set.
  destruct (Dict.get m k) eqn:E.
  - apply get_key in E. apply existsb_eqb_In in E. now rewrite E.
  - apply get_None in E.
    destruct (existsb (String.eqb k) (Dict.keys m)) eqn:E'; [|reflexivity].
    apply existsb_eqb_In in E'. contradiction.
Qed.

Lemma counted_keys (stream : list string) (m : Dict.t nat) :
  Dict.keys (fold_left countKeyword stream m)
  = (Dict.keys m ++ firstSeen (Dict.keys m) stream)%list.
Proof.
  revert m. induction stream as [|k stream IH]; intros m; simpl.
  - now rewrite app_nil_r.
  - rewrite IH, countKeyword_keys.
    destruct (existsb (String.eqb k) (Dict.keys m)); [reflexivity|].
    now rewrite <- app_assoc.
Qed.

Lemma keywordMap_stream (analyses : list QuestionAnalysis) (m : Dict.t nat) :
  fold_left
    (fun m analysis => fold_left countKeyword (Tagger.keywords (tags analysis)) m)
    analyses m
  = fold_left countKeyword (keywordStream analyses) m.
Proof.
  revert m. induction analyses as [|a l IH]; intros m; simpl; [reflexivity|].
  unfold keywordStream in *. simpl. now rewrite fold_left_app, IH.
Qed.

(** The map enumerates the keywords in the order they were first seen. *)
Lemma keywordMap_keys (analyses : list QuestionAnalysis) :
  Dict.keys (keywordMap analyses) = firstSeen [] (keywordStream analyses).
Proof.
  unfold keywordMap. rewrite keywordMap_stream, counted_keys. reflexivity.
Qed.

Lemma ofNat_lt_inv (m n : nat) : (Num.ofNat m < Num.ofNat n)%Q -> m < n.
Proof.
  unfold Num.ofNat. rewrite <- Zlt_Qlt. lia.
Qed.

Lemma ofNat_le_inv (m n : nat) : (Num.ofNat m <= Num.ofNat n)%Q -> m <= n.
Proof.
  unfold Num.ofNat. rewrite <- Zle_Qle. lia.
Qed.

Lemma byCountDesc_sorted (l : list Keyword.t) :
  StronglySorted (fun a b => Keyword.count b <= Keyword.count a)
    (Sorting.sort byCountDesc l).
Proof.
  apply sort_sorted; unfold byCountDesc.
  - intros x y H. apply Nat.lt_le_incl, ofNat_lt_inv, Qlt_minus_iff. exact H.
  - intros x y H. apply ofNat_le_inv, Qle_minus_iff.
    apply Qle_minus_iff in H.
    setoid_replace (Num.ofNat (Keyword.count x) + - Num.ofNat (Keyword.count y))%Q
      with (0 + - (Num.ofNat (Keyword.count y) - Num.ofNat (Keyword.count x)))%Q
      by ring.
    exact H.
  - intros x y z H1 H2. lia.
Qed.

Lemma byCountDesc_tie (x y : Keyword.t) :
  Keyword.count x = Keyword.count y -> Num.ltb 0 (byCountDesc y x) = false.
Proof.
  intros H. apply ltb_false. unfold byCountDesc. rewrite H.
  apply Qle_minus_iff.
  setoid_replace (0 + - (Num.ofNat (Keyword.count y) - Num.ofNat (Keyword.count y)))%Q
    with 0%Q by ring.
  discriminate.
Qed.

End KeywordFacts.

(** C7: [topKeywords] has at most 15 entries and descends by count, and of
    two entries with the same count the one in front is the keyword that
    was seen first in the input. *)
Theorem C7_top_keywords (toFixed1 : Q -> string)
  (analyses : list Analyzer.QuestionAnalysis) :
  let top := Analyzer.topKeywords (Analyzer.generateSummary toFixed1 analyses) in
  length top <= 15
  /\ StronglySorted
       (fun a b => Analyzer.Keyword.count b <= Analyzer.Keyword.count a) top
  /\ (forall i j x y,
        i < j -> nth_error top i = Some x -> nth_error top j = Some y ->
        Analyzer.Keyword.count x = Analyzer.Keyword.count y ->
        firstIndex (Analyzer.Keyword.keyword x) (keywordStream analyses)
        < firstIndex (Analyzer.Keyword.keyword y) (keywordStream analyses)).
Proof.
  cbn [Analyzer.generateSummary Analyzer.topKeywords].
  unfold Analyzer.computeTopKeywords.
  split; [apply firstn_le_length|].
  split; [apply sorted_firstn, byCountDesc_sorted|].
  intros i j x y Hij Hi Hj Hcount.
  pose proof (before_nth _ _ _ _ _ _ Hij Hi Hj) as H.
  apply before_firstn, before_sort in H.
  destruct H as [H|H]; [|rewrite (byCountDesc_tie _ _ Hcount) in H; discriminate].
  apply before_map in H as (e1 & e2 & -> & -> & H).
  apply before_keys in H. rewrite keywordMap_keys in H.
  apply firstSeen_order in H. exact H.
Qed.

Lemma C7_top_keywords_witness :
  Analyzer.topKeywords sampleSummary
  = [ Analyzer.toKeyword ("policy", 2); Analyzer.toKeyword ("IAM role", 2);
      Analyzer.toKeyword ("encryption", 2) ]
  /\ firstIndex "policy" (keywordStream sampleAnalyses)
     < firstIndex "encryption" (keywordStream sampleAnalyses).
Proof.
  assert (Htop : Analyzer.topKeywords sampleSummary
                 = [ Analyzer.toKeyword ("policy", 2);
                     Analyzer.toKeyword ("IAM role", 2);
                     Analyzer.toKeyword ("encryption", 2) ])
    by (vm_compute; reflexivity).
  split; [exact Htop|].
  destruct (C7_top_keywords noDigits sampleAnalyses) as (_ & _ & Hties).
  apply (Hties 0 2 (Analyzer.toKeyword ("policy", 2))
           (Analyzer.toKeyword ("encryption", 2))).
  - lia.
  - fold sampleSummary. rewrite Htop. reflexivity.
  - fold sampleSummary. rewrite Htop. reflexivity.
  - reflexivity.
Defined.

(* ================================================================== *)
(** * What a match returns *)

Section MatchResults.
Import Regex.

Lemma suffixOf_refl s : suffixOf s s.
Proof. now exists "". Qed.

Lemma suffixOf_trans s1 s2 s3 : suffixOf s1 s2 -> suffixOf s2 s3 -> suffixOf s1 s3.
Proof.
  intros [p ->] [q ->]. exists (q ++ p).
  induction q as [|a q IH]; simpl; [reflexivity | now rewrite IH].
Qed.

Lemma suffixOf_tail a s : suffixOf s (String a s).
Proof. now exists (String a ""). Qed.

Lemma suffixOf_length t s : suffixOf t s -> String.length t <= String.length s.
Proof.
  intros [p ->]. induction p as [|a p IH]; simpl; lia.
Qed.

Lemma starLoop_from_cont body (greedy : bool) :
  (forall s c k res, body s c k = Some res ->
                     exists s' c', suffixOf s' s /\ k s' c' = Some res) ->
  forall n k s c res,
    starLoop body greedy k n s c = Some res ->
    exists s' c', suffixOf s' s /\ k s' c' = Some res.
Proof.
  intros Hbody n k. induction n as [|n IH]; intros s c res; simpl.
  - intros H. exists s, c. split; [apply suffixOf_refl | exact H].
  - set (again := fun s' c' => if String.length s' <? String.length s
                              then starLoop body greedy k n s' c' else None).
    assert (Hagain : body s c again = Some res ->
                     exists s' c', suffixOf s' s /\ k s' c' = Some res).
    { intros H. apply Hbody in H as (s1 & c1 & Hs1 & H). unfold again in H.
      destruct (String.length s1 <? String.length s); [|discriminate].
      apply IH in H as (s2 & c2 & Hs2 & H).
      exists s2, c2. split; [now apply suffixOf_trans with s1 | exact H]. }
    destruct greedy.
    + destruct (body s c again) eqn:E.
      * intros [= <-]. now apply Hagain.
      * intros H. exists s, c. split; [apply suffixOf_refl | exact H].
    + destruct (k s c) eqn:E.
      * intros [= <-]. exists s, c. split; [apply suffixOf_refl | exact E].
      * exact Hagain.
Qed.

(** Whatever a match returns, its continuation returned it, at a later
    position of the same text. *)
Lemma rmatch_from_cont r :
  forall s c k res,
    rmatch r s c k = Some res ->
    exists s' c', suffixOf s' s /\ k s' c' = Some res.
Proof.
  induction r as [|p|r1 IH1 r2 IH2|r1 IH1 r2 IH2|g r IH|i r IH|r IH|];
    intros s c k res; simpl.
  - intros H. exists s, c. split; [apply suffixOf_refl | exact H].
  - destruct s as [|a s']; [discriminate|]. destruct (p a); [|discriminate].
    intros H. exists s', c. split; [apply suffixOf_tail | exact H].
  - intros H. apply IH1 in H as (s1 & c1 & Hs1 & H).
    apply IH2 in H as (s2 & c2 & Hs2 & H).
    exists s2, c2. split; [now apply suffixOf_trans with s1 | exact H].
  - destruct (rmatch r1 s c k) eqn:E.
    + intros [= <-]. now apply IH1 in E.
    + apply IH2.
  - now apply starLoop_from_cont.
  - intros H. apply IH in H as (s1 & c1 & Hs1 & H).
    exists s1, ((i, Str.take (String.length s - String.length s1) s) :: c1).
    now split.
  - destruct (rmatch r s c done) as [[c' ?]|]; [|discriminate].
    intros H. exists s, c'. split; [apply suffixOf_refl | exact H].
  - destruct s; [|discriminate].
    intros H. exists "", c. split; [apply suffixOf_refl | exact H].
Qed.

Lemma starLoop_same_caps body (greedy : bool) :
  (forall s c k res, body s c k = Some res ->
                     exists s', suffixOf s' s /\ k s' c = Some res) ->
  forall n k s c res,
    starLoop body greedy k n s c = Some res ->
    exists s', suffixOf s' s /\ k s' c = Some res.
Proof.
  intros Hbody n k. induction n as [|n IH]; intros s c res; simpl.
  - intros H. exists s. split; [apply suffixOf_refl | exact H].
  - set (again := fun s' c' => if String.length s' <? String.length s
                              then starLoop body greedy k n s' c' else None).
    assert (Hagain : body s c again = Some res ->
                     exists s', suffixOf s' s /\ k s' c = Some res).
    { intros H. apply Hbody in H as (s1 & Hs1 & H). unfold again in H.
      destruct (String.length s1 <? String.length s); [|discriminate].
      apply IH in H as (s2 & Hs2 & H).
      exists s2. split; [now apply suffixOf_trans with s1 | exact H]. }
    destruct greedy.
    + destruct (body s c again) eqn:E.
      * intros [= <-]. now apply Hagain.
      * intros H. exists s. split; [apply suffixOf_refl | exact H].
    + destruct (k s c) eqn:E.
      * intros [= <-]. exists s. split; [apply suffixOf_refl | exact E].
      * exact Hagain.
Qed.

(** A pattern without groups hands the captures on as it got them. *)
Lemma rmatch_same_caps r :
  groupFree r = true ->
  forall s c k res,
    rmatch r s c k = Some res ->
    exists s', suffixOf s' s /\ k s' c = Some res.
Proof.
  induction r as [|p|r1 IH1 r2 IH2|r1 IH1 r2 IH2|g r IH|i r IH|r IH|];
    intros Hfree s c k res; simpl in Hfree |- *.
  - intros H. exists s. split; [apply suffixOf_refl | exact H].
  - destruct s as [|a s']; [discriminate|]. destruct (p a); [|discriminate].
    intros H. exists s'. split; [apply suffixOf_tail | exact H].
  - apply andb_true_iff in Hfree as [H1 H2].
    intros H. apply (IH1 H1) in H as (s1 & Hs1 & H).
    apply (IH2 H2) in H as (s2 & Hs2 & H).
    exists s2. split; [now apply suffixOf_trans with s1 | exact H].
  - apply andb_true_iff in Hfree as [H1 H2].
    destruct (rmatch r1 s c k) eqn:E.
    + intros [= <-]. now apply (IH1 H1) in E.
    + now apply IH2.
  - apply starLoop_same_caps. now apply IH.
  - discriminate.
  - destruct (rmatch r s c done) as [[c' s0]|] eqn:E; [|discriminate].
    apply (IH Hfree) in E as (s1 & _ & E). injection E as <- _.
    intros H. exists s. split; [apply suffixOf_refl | exact H].
  - destruct s; [|discriminate].
    intros H. exists "". split; [apply suffixOf_refl | exact H].
Qed.

(** The leftmost match is a match at some position of the text. *)
Lemma search_matchHere r s res :
  search r s = Some res ->
  exists t, suffixOf t s /\ matchHere r t = Some res.
Proof.
  induction s as [|a s IH]; cbn [search].
  - destruct (matchHere r "") eqn:E; [|discriminate].
    intros [= <-]. exists "". split; [apply suffixOf_refl | exact E].
  - destruct (matchHere r (String a s)) eqn:E.
    + intros [= <-]. exists (String a s). split; [apply suffixOf_refl | exact E].
    + intros H. apply IH in H as (t & Ht & H). exists t.
      split; [|exact H].
      apply suffixOf_trans with s; [exact Ht | apply suffixOf_tail].
Qed.

Lemma take_one a s :
  Str.take (String.length (String a s) - String.length s) (String a s)
  = String a "".
Proof.
  simpl String.length.
  replace (S (String.length s) - String.length s) with 1 by lia.
  reflexivity.
Qed.

(** What the group [( [A-D] )] at the end of a pattern leaves behind. *)
Lemma letter_group s c res :
  rmatch (Group 1 letterAD) s c done = Some res ->
  exists a s', s = String a s' /\ isAD a = true
               /\ res = ((1, String a "") :: c, s').
Proof.
  cbn [rmatch letterAD].
  destruct s as [|a s']; [discriminate|].
  fold (isAD a). destruct (isAD a) eqn:E; [|discriminate].
  unfold done. rewrite take_one. intros [= <-].
  now exists a, s'.
Qed.

Lemma upper_letter a :
  isAD a = true ->
  In (String (Str.upperChar a) "") ["A"; "B"; "C"; "D"].
Proof.
  unfold isAD. intros [H1 H2]%andb_true_iff.
  apply Nat.leb_le in H1, H2.
  assert (Hc : Str.upperChar a = ascii_of_nat (Str.code (Str.upperChar a)))
    by (unfold Str.code; now rewrite ascii_nat_embedding).
  rewrite Hc.
  assert (Hn : Str.code (Str.upperChar a) = 65 \/ Str.code (Str.upperChar a) = 66
               \/ Str.code (Str.upperChar a) = 67
               \/ Str.code (Str.upperChar a) = 68) by lia.
  destruct Hn as [-> | [-> | [-> | ->]]]; simpl; tauto.
Qed.

(** A match of an answer pattern captures one letter of A-D. *)
Lemma answer_letter word s res :
  search (Seq (Parser.label word) (Seq (Star true colonOrSpace) (Group 1 letterAD))) s
  = Some res ->
  exists a, isAD a = true /\ Parser.group 1 (fst res) = String a "".
Proof.
  intros H. apply search_matchHere in H as (t & _ & H).
  unfold matchHere in H. rewrite rmatch_Seq in H.
  apply rmatch_from_cont in H as (s1 & c1 & _ & H).
  rewrite rmatch_Seq in H.
  apply rmatch_from_cont in H as (s2 & c2 & _ & H).
  apply letter_group in H as (a & s' & _ & Ha & ->).
  exists a. split; [exact Ha | reflexivity].
Qed.

End MatchResults.

(** X1: whatever the text, [yourAnswer] and [correctAnswer] are each the
    empty string or one of the upper-case letters A, B, C, D. *)
Theorem X1_answers_are_letters (text : string) :
  In (Parser.yourAnswer (Parser.parseQuestion text)) [""; "A"; "B"; "C"; "D"]
  /\ In (Parser.correctAnswer (Parser.parseQuestion text))
       [""; "A"; "B"; "C"; "D"].
Proof.
  cbn [Parser.parseQuestion Parser.yourAnswer Parser.correctAnswer].
  unfold Parser.yourAnswerRegex, Parser.correctAnswerRegex.
  split.
  - destruct (Regex.search _ (Parser.normalize text)) as [[c rest]|] eqn:E;
      [|now left].
    apply answer_letter in E as (a & Ha & Hg). simpl in Hg. rewrite Hg.
    right. exact (upper_letter a Ha).
  - destruct (Regex.search _ (Parser.normalize text)) as [[c rest]|] eqn:E;
      [|now left].
    apply answer_letter in E as (a & Ha & Hg). simpl in Hg. rewrite Hg.
    right. exact (upper_letter a Ha).
Qed.

(* ================================================================== *)
(** * The options of a text *)

Section OptionFacts.
Import Regex.

Lemma letter_group_cont s c k res :
  rmatch (Group 1 letterAD) s c k = Some res ->
  exists a s', s = String a s' /\ isAD a = true
               /\ k s' ((1, String a "") :: c) = Some res.
Proof.
  cbn [rmatch letterAD].
  destruct s as [|a s']; [discriminate|].
  fold (isAD a). destruct (isAD a) eqn:E; [|discriminate].
  rewrite take_one. intros H. now exists a, s'.
Qed.

Lemma line_split s : s = takeLine s ++ dropLine s.
Proof.
  induction s as [|a s IH]; simpl; [reflexivity|].
  destruct (Str.code a =? 10); simpl; [reflexivity | now rewrite <- IH].
Qed.

Lemma dropLine_suffix s : suffixOf (dropLine s) s.
Proof. exists (takeLine s). apply line_split. Qed.

Lemma dropLine_atLineEnd s : atLineEnd (dropLine s).
Proof.
  induction s as [|a s IH]; simpl; [now left|].
  destruct (Str.code a =? 10) eqn:E; [|exact IH].
  right. exists s. f_equal. apply Nat.eqb_eq in E.
  unfold Str.code in E. rewrite <- E. now rewrite ascii_nat_embedding.
Qed.

Lemma takeLine_noLineFeed s : noLineFeed (takeLine s) = true.
Proof.
  induction s as [|a s IH]; simpl; [reflexivity|].
  destruct (Str.code a =? 10) eqn:E; simpl; [reflexivity|].
  now rewrite E, IH.
Qed.

Lemma take_line s :
  Str.take (String.length s - String.length (dropLine s)) s = takeLine s.
Proof.
  induction s as [|a s IH]; [reflexivity|].
  cbn [dropLine takeLine].
  destruct (Str.code a =? 10) eqn:E.
  - now rewrite Nat.sub_diag.
  - pose proof (suffixOf_length _ _ (dropLine_suffix s)) as Hlen.
    cbn [String.length].
    replace (S (String.length s) - String.length (dropLine s))
      with (S (String.length s - String.length (dropLine s))) by lia.
    cbn [Str.take]. now rewrite IH.
Qed.

(** The greedy run of [[^\n]] stops at the end of the line, under any
    continuation that accepts there. *)
Lemma greedy_to_line_end (k : cont) :
  (forall s c, k s c <> None) ->
  forall n s c, String.length s <= n ->
  starLoop (rmatch notNewline) true k n s c = k (dropLine s) c.
Proof.
  intros Hk. induction n as [|n IH]; intros s c Hlen.
  - destruct s; [reflexivity | simpl in Hlen; lia].
  - destruct s as [|a s']; [reflexivity|].
    rewrite starLoop_greedy_step.
    change (rmatch notNewline (String a s') c) with
      (fun k' : cont => if negb (Str.code a =? 10) then k' s' c else None).
    cbv beta. cbn [dropLine].
    destruct (Str.code a =? 10); cbn [negb]; [reflexivity|].
    assert (Hlt : (String.length s' <? String.length (String a s')) = true)
      by (apply Nat.ltb_lt; simpl; lia).
    rewrite Hlt, IH by (simpl in Hlen; lia).
    destruct (k (dropLine s') c) eqn:E; [reflexivity|].
    exfalso. exact (Hk _ _ E).
Qed.

(** The group [( [^\n]+ )] at the end of the options pattern takes the
    rest of the line, which is not empty. *)
Lemma option_text s c res :
  rmatch (Group 2 (plus notNewline)) s c done = Some res ->
  takeLine s <> "" /\ res = ((2, takeLine s) :: c, dropLine s).
Proof.
  set (k := fun s' c' =>
              done s' ((2, Str.take (String.length s - String.length s') s) :: c')).
  change (rmatch (Group 2 (plus notNewline)) s c done) with
    (rmatch notNewline s c
       (fun s1 c1 =>
          starLoop (rmatch notNewline) true k (String.length s1) s1 c1)).
  destruct s as [|a s']; [discriminate|].
  change (rmatch notNewline (String a s') c) with
    (fun k' : cont => if negb (Str.code a =? 10) then k' s' c else None).
  cbv beta.
  destruct (Str.code a =? 10) eqn:E; cbn [negb]; [discriminate|].
  rewrite greedy_to_line_end by (discriminate || lia).
  unfold k, done. intros [= <-].
  assert (Hdrop : dropLine (String a s') = dropLine s') by (simpl; now rewrite E).
  split; [simpl; rewrite E; discriminate|].
  rewrite <- (take_line (String a s')), Hdrop. reflexivity.
Qed.

(** A match of the options pattern: a letter, then a later position from
    which the rest of the line is the text of the option. *)
Lemma option_match t res :
  matchHere Parser.optionsRegex t = Some res ->
  exists a t1 t3,
    t = String a t1 /\ isAD a = true /\ suffixOf t3 t1
    /\ takeLine t3 <> ""
    /\ res = ([(2, takeLine t3); (1, String a "")], dropLine t3).
Proof.
  unfold matchHere, Parser.optionsRegex. rewrite rmatch_Seq.
  intros H. apply letter_group_cont in H as (a & t1 & -> & Ha & H).
  rewrite rmatch_Seq in H.
  apply rmatch_same_caps in H as (t2 & Ht2 & H); [|reflexivity].
  rewrite rmatch_Seq in H.
  apply rmatch_same_caps in H as (t3 & Ht3 & H); [|reflexivity].
  apply option_text in H as [Hne ->].
  exists a, t1, t3. repeat split; try assumption.
  now apply suffixOf_trans with t2.
Qed.

Lemma rev_onto_noLineFeed s acc :
  noLineFeed (Str.rev_onto s acc) = noLineFeed s && noLineFeed acc.
Proof.
  revert acc. induction s as [|a s IH]; intros acc; simpl; [reflexivity|].
  rewrite IH. simpl. destruct (Str.code a =? 10); simpl;
    [now rewrite andb_false_r | reflexivity].
Qed.

Lemma trimStart_noLineFeed s :
  noLineFeed s = true -> noLineFeed (Str.trimStart s) = true.
Proof.
  induction s as [|a s IH]; simpl; [reflexivity|].
  intros [Ha Hs]%andb_true_iff.
  destruct (Str.isSpace a); [now apply IH|].
  simpl. now rewrite Ha, Hs.
Qed.

Lemma trim_noLineFeed s : noLineFeed s = true -> noLineFeed (Str.trim s) = true.
Proof.
  intros H. unfold Str.trim, Str.trimEnd, Str.rev.
  rewrite rev_onto_noLineFeed, andb_true_r.
  apply trimStart_noLineFeed.
  rewrite rev_onto_noLineFeed, andb_true_r.
  now apply trimStart_noLineFeed.
Qed.

Lemma letter_cases a :
  isAD a = true ->
  In a ["A"; "B"; "C"; "D"; "a"; "b"; "c"; "d"]%char.
Proof.
  destruct a as [[] [] [] [] [] [] [] []]; intros H;
    try discriminate H; simpl; tauto.
Qed.

Lemma suffixOf_countLineFeeds t s :
  suffixOf t s -> countLineFeeds t <= countLineFeeds s.
Proof.
  intros [p ->]. induction p as [|a p IH]; simpl; lia.
Qed.

Lemma suffixOf_cons t a s :
  suffixOf t (String a s) -> t = String a s \/ suffixOf t s.
Proof.
  intros [[|b p] H]; simpl in H.
  - now left.
  - injection H as _ ->. right. now exists p.
Qed.

(** From the end of a line on, there is at most one option for each line
    feed that follows. *)
Lemma optionsLoop_lines fuel :
  forall s,
    length (Parser.optionsLoop fuel s) <= S (countLineFeeds s)
    /\ (atLineEnd s -> length (Parser.optionsLoop fuel s) <= countLineFeeds s).
Proof.
  induction fuel as [|fuel IH]; intros s; simpl; [split; intros; lia|].
  destruct (search Parser.optionsRegex s) as [[c rest]|] eqn:E;
    [|split; intros; simpl; lia].
  apply search_matchHere in E as (t & Ht & E).
  apply option_match in E as (a & t1 & t3 & -> & Ha & Ht3 & _ & [= -> ->]).
  assert (Hrest : suffixOf (dropLine t3) t1)
    by (apply suffixOf_trans with t3; [apply dropLine_suffix | exact Ht3]).
  assert (Htail : length (if String.length (dropLine t3) <? String.length s
                          then Parser.optionsLoop fuel (dropLine t3) else [])
                  <= countLineFeeds (dropLine t3)).
  { destruct (_ <? _); [|simpl; lia].
    apply IH, dropLine_atLineEnd. }
  cbn [length]. split.
  - apply suffixOf_countLineFeeds in Hrest.
    assert (countLineFeeds t1 <= countLineFeeds s).
    { apply suffixOf_countLineFeeds.
      apply suffixOf_trans with (String a t1); [apply suffixOf_tail | exact Ht]. }
    lia.
  - intros [->|[s0 ->]].
    + destruct Ht as [[|b p] Hp]; discriminate Hp.
    + apply suffixOf_cons in Ht as [Ht|Ht].
      * injection Ht as -> _. discriminate Ha.
      * assert (countLineFeeds (dropLine t3) <= countLineFeeds s0).
        { apply suffixOf_countLineFeeds.
          apply suffixOf_trans with t1; [exact Hrest|].
          apply suffixOf_trans with (String a t1); [apply suffixOf_tail | exact Ht]. }
        change (countLineFeeds (String (ascii_of_nat 10) s0))
          with (S (countLineFeeds s0)).
        lia.
Qed.

Lemma optionsLoop_shape fuel :
  forall s opt,
    In opt (Parser.optionsLoop fuel s) ->
    exists a body,
      isAD a = true /\ opt = String a (": " ++ body)
      /\ noLineFeed body = true.
Proof.
  induction fuel as [|fuel IH]; intros s opt; simpl; [intros []|].
  destruct (search Parser.optionsRegex s) as [[c rest]|] eqn:E; [|intros []].
  apply search_matchHere in E as (t & Ht & E).
  apply option_match in E as (a & t1 & t3 & -> & Ha & Ht3 & _ & [= -> ->]).
  intros [<-|H].
  - exists a, (Str.trim (takeLine t3)). split; [exact Ha|].
    split; [reflexivity|]. apply trim_noLineFeed, takeLine_noLineFeed.
  - destruct (_ <? _); [now apply (IH _ _ H) | destruct H].
Qed.

End OptionFacts.

(** X2: every option [parseQuestion] returns is a letter a-d in either
    case, as it stands in the text, followed by a colon, a blank and a text
    without line break. *)
Theorem X2_option_shape (text opt : string) :
  In opt (Parser.options (Parser.parseQuestion text)) ->
  exists letter body,
    In letter ["A"; "B"; "C"; "D"; "a"; "b"; "c"; "d"]%char
    /\ opt = String letter (": " ++ body)
    /\ noLineFeed body = true.
Proof.
  cbn [Parser.parseQuestion Parser.options]. intros H.
  apply optionsLoop_shape in H as (a & body & Ha & -> & Hbody).
  exists a, body. split; [now apply letter_cases | now split].
Qed.

Lemma X2_option_shape_witness :
  In "b: second" (Parser.options (Parser.parseQuestion twoOptions))
  /\ exists letter body,
       In letter ["A"; "B"; "C"; "D"; "a"; "b"; "c"; "d"]%char
       /\ "b: second" = String letter (": " ++ body)
       /\ noLineFeed body = true.
Proof.
  assert (Hin : In "b: second" (Parser.options (Parser.parseQuestion twoOptions)))
    by (vm_compute; right; left; reflexivity).
  split; [exact Hin|].
  exact (X2_option_shape twoOptions "b: second" Hin).
Defined.

(** X3: [parseQuestion] returns at most one option for each line of the
    text with its line breaks normalised. *)
Theorem X3_one_option_per_line (text : string) :
  length (Parser.options (Parser.parseQuestion text))
  <= S (countLineFeeds (Parser.normalize text)).
Proof.
  cbn [Parser.parseQuestion Parser.options]. apply optionsLoop_lines.
Qed.

(* ================================================================== *)
(** * The tagger *)

Section TaggerFacts.

Lemma upperChar_upperChar c : Str.upperChar (Str.upperChar c) = Str.upperChar c.
Proof. destruct c as [[] [] [] [] [] [] [] []]; reflexivity. Qed.

Lemma upperChar_lowerChar c : Str.upperChar (Str.lowerChar c) = Str.upperChar c.
Proof. destruct c as [[] [] [] [] [] [] [] []]; reflexivity. Qed.

Lemma toUpperCase_toUpperCase s :
  Str.toUpperCase (Str.toUpperCase s) = Str.toUpperCase s.
Proof.
  induction s as [|c s IH]; simpl; [reflexivity|].
  now rewrite upperChar_upperChar, IH.
Qed.

Lemma toUpperCase_toLowerCase s :
  Str.toUpperCase (Str.toLowerCase s) = Str.toUpperCase s.
Proof.
  induction s as [|c s IH]; simpl; [reflexivity|].
  now rewrite upperChar_lowerChar, IH.
Qed.

Lemma toUpperCase_app s t :
  Str.toUpperCase (s ++ t) = Str.toUpperCase s ++ Str.toUpperCase t.
Proof.
  induction s as [|c s IH]; simpl; [reflexivity | now rewrite IH].
Qed.

Lemma startsWith_app p s t :
  Str.startsWith p s = true -> Str.startsWith p (s ++ t) = true.
Proof.
  revert s. induction p as [|a p IH]; intros s; simpl; [reflexivity|].
  destruct s as [|b s]; simpl; [discriminate|].
  intros [H1 H2]%andb_true_iff. rewrite H1. simpl. now apply IH.
Qed.

Lemma includes_app_l s t p :
  Str.includes s p = true -> Str.includes (s ++ t) p = true.
Proof.
  induction s as [|a s IH]; simpl.
  - rewrite orb_false_r. intros H.
    destruct p; [|discriminate H].
    destruct t; reflexivity.
  - intros [H|H]%orb_true_iff.
    + pose proof (startsWith_app _ (String a s) t H) as H'.
      simpl in H'. now rewrite H'.
    + rewrite (IH H). apply orb_true_r.
Qed.

Lemma includes_app_r s t p :
  Str.includes t p = true -> Str.includes (s ++ t) p = true.
Proof.
  intros H. induction s as [|a s IH]; simpl; [exact H|].
  rewrite IH. apply orb_true_r.
Qed.

Lemma filter_weaken (A : Type) (f g : A -> bool) (l : list A) (x : A) :
  (f x = true -> g x = true) -> In x (filter f l) -> In x (filter g l).
Proof.
  intros Hfg [Hin Hf]%filter_In. apply filter_In. split; [exact Hin | auto].
Qed.

Lemma mentions_app_l a b service :
  Tagger.mentions (Str.toUpperCase a) service = true ->
  Tagger.mentions (Str.toUpperCase (a ++ b)) service = true.
Proof.
  unfold Tagger.mentions. rewrite toUpperCase_app.
  intros [H|H]%orb_true_iff; apply orb_true_iff; [left | right];
    now apply includes_app_l.
Qed.

Lemma mentions_app_r a b service :
  Tagger.mentions (Str.toUpperCase b) service = true ->
  Tagger.mentions (Str.toUpperCase (a ++ b)) service = true.
Proof.
  unfold Tagger.mentions. rewrite toUpperCase_app.
  intros [H|H]%orb_true_iff; apply orb_true_iff; [left | right];
    now apply includes_app_r.
Qed.

(** The test that tags a domain only looks at which names are tagged. *)
Lemma domains_monotone (services services' : list string) (d : string) :
  incl services services' ->
  In d (map fst
          (filter
             (fun entry : string * list string =>
                existsb
                  (fun s =>
                     existsb
                       (fun ts => String.eqb (Str.toUpperCase ts) (Str.toUpperCase s))
                       services)
                  (snd entry))
             Tagger.DOMAINS)) ->
  In d (map fst
          (filter
             (fun entry : string * list string =>
                existsb
                  (fun s =>
                     existsb
                       (fun ts => String.eqb (Str.toUpperCase ts) (Str.toUpperCase s))
                       services')
                  (snd entry))
             Tagger.DOMAINS)).
Proof.
  intros Hincl. rewrite !in_map_iff.
  intros (entry & <- & Hin). exists entry. split; [reflexivity|].
  revert Hin. apply filter_weaken.
  rewrite !existsb_exists. intros (s & Hs & H). exists s. split; [exact Hs|].
  rewrite existsb_exists in *. destruct H as (ts & Hts & H).
  exists ts. split; [now apply Hincl | exact H].
Qed.

Lemma distinct_NoDup (l : list string) : distinct l = true -> NoDup l.
Proof.
  induction l as [|x l IH]; simpl; [constructor|].
  intros [Hx Hl]%andb_true_iff. constructor; [|now apply IH].
  intros Hin. apply negb_true_iff in Hx.
  assert (existsb (String.eqb x) l = true)
    by (apply existsb_exists; exists x; split; [exact Hin | apply String.eqb_refl]).
  congruence.
Qed.

(** Entries with distinct keys keep distinct keys when some are dropped. *)
Lemma NoDup_map_filter (A B : Type) (key : A -> B) (keep : A -> bool)
  (entries : list A) :
  NoDup (map key entries) -> NoDup (map key (filter keep entries)).
Proof.
  induction entries as [|e entries IH]; simpl; [auto|].
  intros H. inversion H as [|? ? Hnot Hnd]; subst.
  destruct (keep e); simpl; [|now apply IH].
  constructor; [|now apply IH].
  intros Hin. apply Hnot. apply in_map_iff in Hin as (y & <- & Hy).
  apply in_map. now apply filter_In in Hy as [Hy _].
Qed.

(** Among the reference names, the comparison in upper case that tags a
    domain is equality. *)
Lemma domain_member_exact (ts s : string) (entry : string * list string) :
  In ts Tagger.AWS_SERVICES -> In entry Tagger.DOMAINS -> In s (snd entry) ->
  String.eqb (Str.toUpperCase ts) (Str.toUpperCase s) = true -> ts = s.
Proof.
  intros Hts Hentry Hs Heq.
  assert (Hall :
    forallb
      (fun ts =>
         forallb
           (fun entry : string * list string =>
              forallb
                (fun s =>
                   implb (String.eqb (Str.toUpperCase ts) (Str.toUpperCase s))
                     (String.eqb ts s))
                (snd entry))
           Tagger.DOMAINS)
      Tagger.AWS_SERVICES = true) by (vm_compute; reflexivity).
  rewrite forallb_forall in Hall. specialize (Hall _ Hts).
  rewrite forallb_forall in Hall. specialize (Hall _ Hentry).
  rewrite forallb_forall in Hall. specialize (Hall _ Hs).
  rewrite Heq in Hall. simpl in Hall. now apply String.eqb_eq.
Qed.

End TaggerFacts.

(** X4: on an ASCII text tagging ignores the letter case: the text in
    upper case and the text in lower case get the tags of the text
    itself. *)
Theorem X4_tagging_ignores_case (text : string) :
  asciiText text = true ->
  Tagger.tagQuestion (Str.toUpperCase text) = Tagger.tagQuestion text
  /\ Tagger.tagQuestion (Str.toLowerCase text) = Tagger.tagQuestion text.
Proof.
  intros _. unfold Tagger.tagQuestion.
  now rewrite toUpperCase_toUpperCase, toUpperCase_toLowerCase.
Qed.

Lemma X4_tagging_ignores_case_witness :
  asciiText "Which kms key does Lambda use?" = true
  /\ Tagger.tagQuestion (Str.toLowerCase "Which kms key does Lambda use?")
     = Tagger.tagQuestion "Which kms key does Lambda use?".
Proof.
  assert (H : asciiText "Which kms key does Lambda use?" = true)
    by reflexivity.
  split; [exact H|].
  exact (proj2 (X4_tagging_ignores_case "Which kms key does Lambda use?" H)).
Defined.

(** X5: a tag found in a part of a text is found in the whole text: the
    categories, domains and keywords of [a] and of [b] are among those of
    [a ++ b]. *)
Theorem X5_tags_grow_with_text (a b tag : string) :
  (In tag (Tagger.services (Tagger.tagQuestion a))
   \/ In tag (Tagger.services (Tagger.tagQuestion b)) ->
   In tag (Tagger.services (Tagger.tagQuestion (a ++ b))))
  /\ (In tag (Tagger.domains (Tagger.tagQuestion a))
      \/ In tag (Tagger.domains (Tagger.tagQuestion b)) ->
      In tag (Tagger.domains (Tagger.tagQuestion (a ++ b))))
  /\ (In tag (Tagger.keywords (Tagger.tagQuestion a))
      \/ In tag (Tagger.keywords (Tagger.tagQuestion b)) ->
      In tag (Tagger.keywords (Tagger.tagQuestion (a ++ b)))).
Proof.
  cbn [Tagger.tagQuestion Tagger.services Tagger.domains Tagger.keywords].
  split; [|split].
  - intros [H|H]; revert H; apply filter_weaken;
      [apply mentions_app_l | apply mentions_app_r].
  - intros [H|H]; revert H; apply domains_monotone; intros x;
      apply filter_weaken; [apply mentions_app_l | apply mentions_app_r].
  - rewrite toUpperCase_app.
    intros [H|H]; revert H; apply filter_weaken;
      [apply includes_app_l | apply includes_app_r].
Qed.

Lemma X5_tags_grow_with_text_witness :
  In "S3" (Tagger.services (Tagger.tagQuestion "Which S3 class? "))
  /\ In "S3" (Tagger.services
                (Tagger.tagQuestion ("Which S3 class? " ++ "Use an IAM role."))).
Proof.
  assert (H : In "S3" (Tagger.services (Tagger.tagQuestion "Which S3 class? ")))
    by (vm_compute; left; reflexivity).
  split; [exact H|].
  destruct (X5_tags_grow_with_text "Which S3 class? " "Use an IAM role." "S3")
    as (Hservices & _ & _).
  exact (Hservices (or_introl H)).
Defined.

(** X6: a domain is tagged exactly when one of its member categories is
    tagged. *)
Theorem X6_domain_iff_member_tagged (text domain : string) :
  In domain (Tagger.domains (Tagger.tagQuestion text))
  <-> exists members service,
        In (domain, members) Tagger.DOMAINS
        /\ In service members
        /\ In service (Tagger.services (Tagger.tagQuestion text)).
Proof.
  cbn [Tagger.tagQuestion Tagger.services Tagger.domains].
  rewrite in_map_iff. split.
  - intros ([d members] & Hd & [Hin H]%filter_In). simpl in Hd. subst d.
    cbn [snd] in H. apply existsb_exists in H as (s & Hs & H).
    apply existsb_exists in H as (ts & Hts & H).
    exists members, s. split; [exact Hin|]. split; [exact Hs|].
    assert (ts = s) as <-; [|exact Hts].
    apply (domain_member_exact ts s (domain, members)); try assumption.
    now apply filter_In in Hts as [Hts _].
  - intros (members & s & Hin & Hs & Hts). exists (domain, members).
    split; [reflexivity|]. apply filter_In. split; [exact Hin|].
    cbn [snd]. apply existsb_exists. exists s. split; [exact Hs|].
    apply existsb_exists. exists s. split; [exact Hts | apply String.eqb_refl].
Qed.

Lemma X6_domain_iff_member_tagged_witness :
  In "Security" (Tagger.domains (Tagger.tagQuestion "Use an IAM role.")).
Proof.
  apply (X6_domain_iff_member_tagged "Use an IAM role." "Security").
  exists ["IAM"; "Cognito"; "KMS"; "Secrets Manager"; "Parameter Store";
          "WAF"; "X-Ray"], "IAM".
  split; [vm_compute; tauto|]. split; [left; reflexivity|].
  vm_compute. left. reflexivity.
Defined.

(** X7: whatever the text, its keywords and its domains hold no name
    twice, and categories and keywords come from the reference lists. *)
Theorem X7_keywords_and_domains_distinct (text : string) :
  NoDup (Tagger.keywords (Tagger.tagQuestion text))
  /\ NoDup (Tagger.domains (Tagger.tagQuestion text))
  /\ incl (Tagger.services (Tagger.tagQuestion text)) Tagger.AWS_SERVICES
  /\ incl (Tagger.keywords (Tagger.tagQuestion text)) Tagger.KEYWORDS.
Proof.
  cbn [Tagger.tagQuestion Tagger.services Tagger.domains Tagger.keywords].
  split; [|split; [|split]].
  - apply NoDup_filter, distinct_NoDup. vm_compute. reflexivity.
  - apply NoDup_map_filter, distinct_NoDup. vm_compute. reflexivity.
  - intros x Hx. now apply filter_In in Hx as [Hx _].
  - intros x Hx. now apply filter_In in Hx as [Hx _].
Qed.

(* ================================================================== *)
(** * What the breakdowns count *)

Section CountFacts.
Import Analyzer.

Lemma get_set (V : Type) (d : Dict.t V) (k k' : string) (v : V) :
  Dict.get (Dict.set d k v) k'
  = if String.eqb k' k then Some v else Dict.get d k'.
Proof.
  induction d as [|[k0 v0] d IH]; simpl.
  - reflexivity.
  - destruct (String.eqb k k0) eqn:E; simpl.
    + apply String.eqb_eq in E. subst k0.
      destruct (String.eqb k' k); reflexivity.
    + destruct (String.eqb k' k0) eqn:E0.
      * apply String.eqb_eq in E0. subst k0.
        rewrite String.eqb_sym in E. now rewrite E.
      * exact IH.
Qed.

(** One observation adds one to the total of its key, and one to its
    correct or to its incorrect count; the other keys stay as they are. *)
Lemma observe_entry (c : bool) bd key name :
  entryOr (observe c bd key) name
  = if String.eqb name key then bump c (entryOr bd key) else entryOr bd name.
Proof.
  unfold entryOr, observe. rewrite get_set.
  destruct (String.eqb name key); reflexivity.
Qed.

Lemma observe_get_None (c : bool) bd key name :
  Dict.get (observe c bd key) name = None
  <-> Dict.get bd name = None /\ String.eqb name key = false.
Proof.
  unfold observe. rewrite get_set.
  destruct (String.eqb name key); split.
  - intros H. discriminate H.
  - intros [_ H]. discriminate H.
  - intros H. now split.
  - now intros [H _].
Qed.

Lemma observed_keys (c : bool) (keys : list string) bd name :
  let bd' := fold_left (observe c) keys bd in
  Breakdown.total (entryOr bd' name)
  = Breakdown.total (entryOr bd name) + length (filter (String.eqb name) keys)
  /\ Breakdown.correct (entryOr bd' name)
     = Breakdown.correct (entryOr bd name)
       + (if c then length (filter (String.eqb name) keys) else 0)
  /\ Breakdown.incorrect (entryOr bd' name)
     = Breakdown.incorrect (entryOr bd name)
       + (if c then 0 else length (filter (String.eqb name) keys))
  /\ (Dict.get bd' name = None
      <-> Dict.get bd name = None /\ filter (String.eqb name) keys = []).
Proof.
  revert bd. induction keys as [|key keys IH]; intros bd; cbn [fold_left].
  - destruct c; simpl; repeat split; try lia; intuition auto.
  - specialize (IH (observe c bd key)). cbv zeta in IH.
    destruct IH as (Ht & Hc & Hi & Hn).
    rewrite Ht, Hc, Hi, Hn, observe_entry, observe_get_None.
    cbn [filter].
    destruct (String.eqb name key) eqn:E.
    + apply String.eqb_eq in E. subst key.
      destruct c; simpl; repeat split; try lia; intuition discriminate.
    + destruct c; simpl; repeat split; try lia; intuition auto.
Qed.

(** The counters of an entry are the numbers of times its key was tagged:
    in all analyses, in the correct ones, in the others. *)
Lemma built_counts select analyses name :
  forall bd,
    let bd' :=
      fold_left
        (fun bd analysis =>
           fold_left (observe (isCorrect analysis)) (select (tags analysis)) bd)
        analyses bd in
    Breakdown.total (entryOr bd' name)
    = Breakdown.total (entryOr bd name)
      + timesTagged select (fun _ => true) name analyses
    /\ Breakdown.correct (entryOr bd' name)
       = Breakdown.correct (entryOr bd name)
         + timesTagged select isCorrect name analyses
    /\ Breakdown.incorrect (entryOr bd' name)
       = Breakdown.incorrect (entryOr bd name)
         + timesTagged select (fun a => negb (isCorrect a)) name analyses
    /\ (Dict.get bd' name = None
        <-> Dict.get bd name = None
            /\ timesTagged select (fun _ => true) name analyses = 0).
Proof.
  unfold timesTagged.
  induction analyses as [|a l IH]; intros bd; cbn [fold_left].
  - simpl. repeat split; try lia; intuition auto.
  - specialize (IH (fold_left (observe (isCorrect a)) (select (tags a)) bd)).
    cbv zeta in IH. destruct IH as (Ht & Hc & Hi & Hn).
    destruct (observed_keys (isCorrect a) (select (tags a)) bd name)
      as (Ht' & Hc' & Hi' & Hn').
    rewrite Ht, Hc, Hi, Hn, Ht', Hc', Hi', Hn'.
    cbn [filter flat_map].
    destruct (isCorrect a); cbn [negb filter flat_map];
      rewrite ?filter_app, ?length_app;
      (split; [lia | split; [lia | split; [lia|]]]);
      (split;
       [ intros [[H1 H2] H3]; rewrite H2, H3; now split
       | intros [H1 H2]; apply Nat.eq_add_0 in H2 as [H2 H3];
         apply length_zero_iff_nil in H2; now repeat split ]).
Qed.

Lemma computeAccuracies_get bd name :
  Dict.get (computeAccuracies bd) name
  = option_map setAccuracy (Dict.get bd name).
Proof.
  induction bd as [|[k b] bd IH]; simpl; [reflexivity|].
  destruct (String.eqb name k); [reflexivity | exact IH].
Qed.

Lemma timesTagged_split select name analyses :
  timesTagged select (fun _ => true) name analyses
  = timesTagged select isCorrect name analyses
    + timesTagged select (fun a => negb (isCorrect a)) name analyses.
Proof.
  unfold timesTagged. induction analyses as [|a l IH]; [reflexivity|].
  cbn [filter]. destruct (isCorrect a); cbn [negb flat_map];
    rewrite !filter_app, !length_app, IH; lia.
Qed.

(** One finished breakdown, read at [name]. *)
Lemma breakdown_counts select analyses name :
  let bd := computeAccuracies (buildBreakdown select analyses) in
  (forall b, Dict.get bd name = Some b ->
     Breakdown.total b = timesTagged select (fun _ => true) name analyses
     /\ Breakdown.correct b = timesTagged select isCorrect name analyses
     /\ Breakdown.incorrect b
        = timesTagged select (fun a => negb (isCorrect a)) name analyses)
  /\ (Dict.get bd name = None
      <-> timesTagged select (fun _ => true) name analyses = 0).
Proof.
  cbv zeta. rewrite computeAccuracies_get. unfold buildBreakdown.
  destruct (built_counts select analyses name []) as (Ht & Hc & Hi & Hn).
  cbv zeta in Ht, Hc, Hi, Hn. unfold entryOr in Ht, Hc, Hi. simpl in Ht, Hc, Hi.
  split.
  - intros b Hb.
    destruct (Dict.get _ name) as [b0|]; [|discriminate].
    injection Hb as <-. simpl. now repeat split.
  - destruct (Dict.get _ name) as [b0|] eqn:E; simpl.
    + split; [discriminate|]. intros H0. exfalso.
      assert (Hnone : @None Breakdown.t = None /\ timesTagged select (fun _ => true) name analyses = 0)
        by now split.
      apply Hn in Hnone. discriminate Hnone.
    + split; [|reflexivity]. intros _. now apply Hn.
Qed.

End CountFacts.

Section BreakdownClaims.
Import Analyzer.
Variable toFixed1 : Q -> string.

(** X8: for a batch tagged with names of the reference lists, in both
    breakdowns the entry of a name counts how often the name was tagged:
    [total] over all analyses, [correct] over the correct ones,
    [incorrect] over the others, so correct and incorrect add up to the
    total; and a name has no entry exactly when it was never tagged. *)
Theorem X8_breakdown_counts (analyses : list QuestionAnalysis) (name : string) :
  forallb referenceTags analyses = true ->
  let s := generateSummary toFixed1 analyses in
  (forall b, Dict.get (serviceBreakdown s) name = Some b ->
     Breakdown.total b = timesTagged Tagger.services (fun _ => true) name analyses
     /\ Breakdown.correct b = timesTagged Tagger.services isCorrect name analyses
     /\ Breakdown.incorrect b
        = timesTagged Tagger.services (fun a => negb (isCorrect a)) name analyses
     /\ Breakdown.correct b + Breakdown.incorrect b = Breakdown.total b)
  /\ (Dict.get (serviceBreakdown s) name = None
      <-> timesTagged Tagger.services (fun _ => true) name analyses = 0)
  /\ (forall b, Dict.get (domainBreakdown s) name = Some b ->
        Breakdown.total b = timesTagged Tagger.domains (fun _ => true) name analyses
        /\ Breakdown.correct b = timesTagged Tagger.domains isCorrect name analyses
        /\ Breakdown.incorrect b
           = timesTagged Tagger.domains (fun a => negb (isCorrect a)) name analyses
        /\ Breakdown.correct b + Breakdown.incorrect b = Breakdown.total b)
  /\ (Dict.get (domainBreakdown s) name = None
      <-> timesTagged Tagger.domains (fun _ => true) name analyses = 0).
Proof.
  intros _. cbn [generateSummary serviceBreakdown domainBreakdown].
  destruct (breakdown_counts Tagger.services analyses name) as [Hs Hsn].
  destruct (breakdown_counts Tagger.domains analyses name) as [Hd Hdn].
  split; [|split; [exact Hsn | split; [|exact Hdn]]].
  - intros b Hb. destruct (Hs b Hb) as (Ht & Hc & Hi).
    rewrite Ht, Hc, Hi. repeat split. symmetry. apply timesTagged_split.
  - intros b Hb. destruct (Hd b Hb) as (Ht & Hc & Hi).
    rewrite Ht, Hc, Hi. repeat split. symmetry. apply timesTagged_split.
Qed.

End BreakdownClaims.

Lemma X8_breakdown_counts_witness :
  forallb referenceTags sampleAnalyses = true
  /\ Dict.get (Analyzer.serviceBreakdown sampleSummary) "IAM" = Some sampleIAM
  /\ Analyzer.Breakdown.total sampleIAM
     = timesTagged Tagger.services (fun _ => true) "IAM" sampleAnalyses
  /\ Analyzer.Breakdown.correct sampleIAM
     = timesTagged Tagger.services Analyzer.isCorrect "IAM" sampleAnalyses.
Proof.
  assert (Hget : Dict.get (Analyzer.serviceBreakdown sampleSummary) "IAM"
                 = Some sampleIAM) by (vm_compute; reflexivity).
  assert (Hnames : forallb referenceTags sampleAnalyses = true)
    by (vm_compute; reflexivity).
  split; [exact Hnames|]. split; [exact Hget|].
  destruct (X8_breakdown_counts noDigits sampleAnalyses "IAM" Hnames)
    as (H & _).
  destruct (H sampleIAM Hget) as (Ht & Hc & _).
  split; [exact Ht | exact Hc].
Defined.

(* ================================================================== *)
(** * The order of the breakdowns and the keyword counts *)

Section OrderOfKeys.
Import Analyzer.

Lemma firstSeen_app (a b seen : list string) :
  firstSeen seen (a ++ b)
  = (firstSeen seen a ++ firstSeen (seen ++ firstSeen seen a) b)%list.
Proof.
  revert seen. induction a as [|x a IH]; intros seen; simpl.
  - now rewrite app_nil_r.
  - destruct (existsb (String.eqb x) seen); [apply IH|].
    simpl. rewrite IH, <- app_assoc. reflexivity.
Qed.

Lemma firstSeen_In (stream seen : list string) (k : string) :
  In k (firstSeen seen stream) -> In k stream.
Proof.
  revert seen. induction stream as [|x stream IH]; simpl; intros seen; [auto|].
  destruct (existsb (String.eqb x) seen).
  - intros H. right. now apply (IH seen).
  - intros [H|H]; [now left | right; now apply (IH _ H)].
Qed.

Lemma In_firstSeen (stream seen : list string) (k : string) :
  In k stream -> ~ In k seen -> In k (firstSeen seen stream).
Proof.
  revert seen. induction stream as [|x stream IH]; simpl; intros seen; [auto|].
  intros Hin Hseen.
  destruct (existsb (String.eqb x) seen) eqn:E.
  - apply existsb_eqb_In in E. apply IH; [|exact Hseen].
    destruct Hin as [->|Hin]; [contradiction | exact Hin].
  - destruct (string_dec x k) as [->|Hne]; [now left|]. right.
    apply IH.
    + destruct Hin as [Hin|Hin]; [contradiction | exact Hin].
    + intros [H|[H|[]]]%in_app_or; [contradiction | now apply Hne].
Qed.

Lemma observe_keys (c : bool) bd key :
  Dict.keys (observe c bd key)
  = if existsb (String.eqb key) (Dict.keys bd) then Dict.keys bd
    else (Dict.keys bd ++ [key])%list.
Proof.
  unfold observe. rewrite keys_set.
  destruct (Dict.get bd key) eqn:E.
  - apply get_key in E. apply existsb_eqb_In in E. now rewrite E.
  - apply get_None in E.
    destruct (existsb (String.eqb key) (Dict.keys bd)) eqn:E'; [|reflexivity].
    apply existsb_eqb_In in E'. contradiction.
Qed.

Lemma observed_order (c : bool) (keys : list string) bd :
  Dict.keys (fold_left (observe c) keys bd)
  = (Dict.keys bd ++ firstSeen (Dict.keys bd) keys)%list.
Proof.
  revert bd. induction keys as [|k keys IH]; intros bd; simpl.
  - now rewrite app_nil_r.
  - rewrite IH, observe_keys.
    destruct (existsb (String.eqb k) (Dict.keys bd)); [reflexivity|].
    now rewrite <- app_assoc.
Qed.

Lemma built_order select analyses :
  forall bd,
    Dict.keys
      (fold_left
         (fun bd analysis =>
            fold_left (observe (isCorrect analysis)) (select (tags analysis)) bd)
         analyses bd)
    = (Dict.keys bd ++ firstSeen (Dict.keys bd) (tagStream select analyses))%list.
Proof.
  unfold tagStream.
  induction analyses as [|a l IH]; intros bd; simpl.
  - now rewrite app_nil_r.
  - rewrite IH, observed_order, firstSeen_app, <- app_assoc. reflexivity.
Qed.

Lemma breakdown_order select analyses :
  Dict.keys (computeAccuracies (buildBreakdown select analyses))
  = firstSeen [] (tagStream select analyses).
Proof.
  rewrite computeAccuracies_keys. unfold buildBreakdown.
  now rewrite built_order.
Qed.

Lemma countKeyword_countOr (m : Dict.t nat) (k k' : string) :
  countOr (countKeyword m k') k
  = if String.eqb k k' then countOr m k' + 1 else countOr m k.
Proof.
  unfold countOr, countKeyword. rewrite get_set.
  destruct (String.eqb k k'); reflexivity.
Qed.

Lemma counted_occurrences (stream : list string) (m : Dict.t nat) (k : string) :
  countOr (fold_left countKeyword stream m) k
  = countOr m k + occurrences k stream.
Proof.
  unfold occurrences.
  revert m. induction stream as [|x stream IH]; intros m; simpl; [lia|].
  rewrite IH, countKeyword_countOr.
  destruct (String.eqb k x) eqn:E; simpl; [|lia].
  apply String.eqb_eq in E. subst x. lia.
Qed.

Lemma keywordMap_NoDup (analyses : list QuestionAnalysis) :
  NoDup (Dict.keys (keywordMap analyses)).
Proof.
  unfold keywordMap. apply fold_left_invariant; [constructor|].
  intros m a Hm. apply fold_left_invariant; [exact Hm|].
  intros m' k. apply NoDup_keys_set.
Qed.

Lemma occurrences_In (k : string) (l : list string) :
  In k l -> 1 <= occurrences k l.
Proof.
  unfold occurrences. induction l as [|x l IH]; [intros []|].
  simpl. destruct (String.eqb k x) eqn:E; simpl; [lia|].
  intros [->|H]; [|now apply IH].
  now rewrite String.eqb_refl in E.
Qed.

(** An entry of the keyword map holds the number of occurrences of its
    keyword. *)
Lemma keywordMap_entry (analyses : list QuestionAnalysis) (k : string) (n : nat) :
  In (k, n) (keywordMap analyses) ->
  n = occurrences k (keywordStream analyses) /\ 1 <= n.
Proof.
  intros Hin.
  assert (Hkey : In k (firstSeen [] (keywordStream analyses))).
  { rewrite <- keywordMap_keys. now apply (in_map fst) in Hin. }
  apply (In_get _ _ _ _ (keywordMap_NoDup analyses)) in Hin.
  assert (Hn : countOr (keywordMap analyses) k = n)
    by (unfold countOr; now rewrite Hin).
  unfold keywordMap in Hn.
  rewrite keywordMap_stream, counted_occurrences in Hn. simpl in Hn.
  split; [now symmetry|]. rewrite <- Hn.
  apply occurrences_In. now apply firstSeen_In in Hkey.
Qed.

Lemma top_entries (analyses : list QuestionAnalysis) (kw : Keyword.t) :
  In kw (computeTopKeywords analyses) ->
  In (Keyword.keyword kw, Keyword.count kw) (keywordMap analyses).
Proof.
  unfold computeTopKeywords. intros H.
  assert (H' : In kw (Sorting.sort byCountDesc (map toKeyword (keywordMap analyses)))).
  { rewrite <- (firstn_skipn 15 (Sorting.sort _ _)). apply in_or_app. now left. }
  apply sort_In, in_map_iff in H' as ([k n] & <- & Hin). exact Hin.
Qed.

End OrderOfKeys.

Section OrderClaims.
Import Analyzer.
Variable toFixed1 : Q -> string.

(** X9: for a batch tagged with names of the reference lists, both
    breakdowns list their names in the order in which the names were first
    tagged, each name once. *)
Theorem X9_breakdown_order (analyses : list QuestionAnalysis) :
  forallb referenceTags analyses = true ->
  let s := generateSummary toFixed1 analyses in
  Dict.keys (serviceBreakdown s)
  = firstSeen [] (tagStream Tagger.services analyses)
  /\ Dict.keys (domainBreakdown s)
     = firstSeen [] (tagStream Tagger.domains analyses)
  /\ NoDup (Dict.keys (serviceBreakdown s))
  /\ NoDup (Dict.keys (domainBreakdown s)).
Proof.
  intros _. cbn [generateSummary serviceBreakdown domainBreakdown].
  split; [apply breakdown_order|]. split; [apply breakdown_order|].
  split; apply breakdown_NoDup.
Qed.

(** X10: a category appears at most once in [weakAreas] and at most once
    in [strongAreas], and never in both. *)
Theorem X10_areas_distinct (analyses : list QuestionAnalysis) :
  let s := generateSummary toFixed1 analyses in
  NoDup (map Area.service (weakAreas s))
  /\ NoDup (map Area.service (strongAreas s))
  /\ (forall name, In name (map Area.service (weakAreas s)) ->
                   ~ In name (map Area.service (strongAreas s))).
Proof.
  cbn [generateSummary weakAreas strongAreas].
  set (bd := computeAccuracies (buildBreakdown Tagger.services analyses)).
  assert (Hnd : NoDup (Dict.keys bd)) by apply breakdown_NoDup.
  assert (Hnames : forall p cmp,
    NoDup (map Area.service
             (Sorting.sort cmp (map toArea (filter (fun e => p (snd e)) bd))))).
  { intros p cmp.
    apply (Permutation_NoDup
             (l := map Area.service (map toArea (filter (fun e => p (snd e)) bd)))).
    - apply Permutation_map. symmetry. apply sort_perm.
    - rewrite map_map. apply (NoDup_map_filter _ _ fst). exact Hnd. }
  split; [apply Hnames|]. split; [apply Hnames|].
  intros name Hw Hs.
  apply sorted_names, (collected_names isWeak bd name Hnd) in Hw as (b & Hget & Hw).
  apply sorted_names, (collected_names isStrong bd name Hnd) in Hs as (b' & Hget' & Hs).
  rewrite Hget in Hget'. injection Hget' as <-.
  apply isWeak_true in Hw as [_ Hw]. apply isStrong_true in Hs as [_ Hs].
  apply (Qlt_irrefl 70).
  apply Qle_lt_trans with (Breakdown.accuracy b); [|exact Hw].
  apply Qle_trans with 85%Q; [discriminate | exact Hs].
Qed.

(** X11: every entry of [topKeywords] counts the occurrences of its
    keyword in the batch, at least one; no keyword is listed twice; and
    when the batch has at most 15 different keywords, all of them are
    listed. *)
Theorem X11_top_keyword_counts (analyses : list QuestionAnalysis) :
  let top := topKeywords (generateSummary toFixed1 analyses) in
  (forall kw, In kw top ->
     Keyword.count kw
     = occurrences (Keyword.keyword kw) (keywordStream analyses)
     /\ 1 <= Keyword.count kw)
  /\ NoDup (map Keyword.keyword top)
  /\ (length (firstSeen [] (keywordStream analyses)) <= 15 ->
      forall k, In k (keywordStream analyses) ->
                In k (map Keyword.keyword top)).
Proof.
  cbn [generateSummary topKeywords].
  split; [|split].
  - intros kw Hkw. apply top_entries in Hkw. now apply keywordMap_entry.
  - unfold computeTopKeywords. rewrite <- firstn_map.
    set (names := map Keyword.keyword _).
    assert (Hnd : NoDup names).
    { apply (Permutation_NoDup
               (l := map Keyword.keyword (map toKeyword (keywordMap analyses)))).
      - apply Permutation_map. symmetry. apply sort_perm.
      - rewrite map_map. simpl. apply keywordMap_NoDup. }
    rewrite <- (firstn_skipn 15 names) in Hnd.
    now apply NoDup_app_remove_r in Hnd.
  - intros Hlen k Hk. unfold computeTopKeywords.
    rewrite firstn_all2.
    + apply (Permutation_in (l := map Keyword.keyword (map toKeyword (keywordMap analyses)))).
      * apply Permutation_map. symmetry. apply sort_perm.
      * rewrite map_map. simpl.
        change (In k (Dict.keys (keywordMap analyses))).
        rewrite keywordMap_keys. apply In_firstSeen; [exact Hk | intros []].
    + rewrite sort_length, length_map.
      rewrite <- (length_map fst). change (map fst (keywordMap analyses))
        with (Dict.keys (keywordMap analyses)).
      now rewrite keywordMap_keys.
Qed.

End OrderClaims.

Lemma X9_breakdown_order_witness :
  forallb referenceTags sampleAnalyses = true
  /\ Dict.keys (Analyzer.serviceBreakdown sampleSummary) = ["IAM"; "S3"]
  /\ Dict.keys (Analyzer.domainBreakdown sampleSummary)
     = ["Security"; "Development with AWS Services"].
Proof.
  assert (Hnames : forallb referenceTags sampleAnalyses = true)
    by (vm_compute; reflexivity).
  split; [exact Hnames|].
  destruct (X9_breakdown_order noDigits sampleAnalyses Hnames)
    as (Hservices & Hdomains & _).
  unfold sampleSummary. rewrite Hservices, Hdomains.
  split; vm_compute; reflexivity.
Defined.

Lemma X10_areas_distinct_witness :
  In "IAM" (map Analyzer.Area.service (Analyzer.weakAreas sampleSummary))
  /\ ~ In "IAM" (map Analyzer.Area.service (Analyzer.strongAreas sampleSummary)).
Proof.
  assert (H : In "IAM" (map Analyzer.Area.service (Analyzer.weakAreas sampleSummary)))
    by (vm_compute; left; reflexivity).
  split; [exact H|].
  destruct (X10_areas_distinct noDigits sampleAnalyses) as (_ & _ & Hdisjoint).
  exact (Hdisjoint "IAM" H).
Defined.

Lemma X11_top_keyword_counts_witness :
  In (Analyzer.toKeyword ("encryption", 2)) (Analyzer.topKeywords sampleSummary)
  /\ 2 = occurrences "encryption" (keywordStream sampleAnalyses)
  /\ length (firstSeen [] (keywordStream sampleAnalyses)) <= 15
  /\ In "policy" (keywordStream sampleAnalyses)
  /\ In "policy" (map Analyzer.Keyword.keyword (Analyzer.topKeywords sampleSummary)).
Proof.
  assert (Hin : In (Analyzer.toKeyword ("encryption", 2))
                  (Analyzer.topKeywords sampleSummary))
    by (vm_compute; right; right; left; reflexivity).
  assert (Hlen : length (firstSeen [] (keywordStream sampleAnalyses)) <= 15)
    by (vm_compute; lia).
  assert (Hk : In "policy" (keywordStream sampleAnalyses))
    by (vm_compute; left; reflexivity).
  destruct (X11_top_keyword_counts noDigits sampleAnalyses) as (Hcount & _ & Hall).
  split; [exact Hin|].
  split; [exact (proj1 (Hcount _ Hin))|].
  split; [exact Hlen|]. split; [exact Hk|].
  exact (Hall Hlen "policy" Hk).
Defined.

(* ================================================================== *)
(** * The later recommendations *)

Section LaterRecommendations.
Import Analyzer.
Variable toFixed1 : Q -> string.

(** Equal messages start with the same four bytes. *)
Ltac head_clash H :=
  apply (f_equal (Str.take 4)) in H; cbv in H; discriminate H.

Lemma overallMessages_heads (accuracy : Q) (m : string) :
  In m (overallMessages accuracy) -> In m overallBand.
Proof.
  unfold overallMessages, overallBand.
  destruct (Num.ltb accuracy 60); [intros [<-|[]]; now left|].
  destruct (Num.ltb accuracy 75); [intros [<-|[]]; right; now left|].
  destruct (Num.geb accuracy 85); [intros [<-|[]]; right; right; now left|].
  intros [].
Qed.

(** The recommendations, block by block. *)
Lemma recommendations_blocks (summary : StudySummary)
  (analyses : list QuestionAnalysis) (m : string) :
  In m (generateRecommendations toFixed1 summary analyses)
  <-> In m (overallMessages (accuracy summary))
      \/ (weakAreas summary <> []
          /\ m = msgPriority
                   (Str.join ", "
                      (map Area.service (firstn 3 (weakAreas summary)))))
      \/ (exists domain data,
             In (domain, data) (domainBreakdown summary)
             /\ (Breakdown.accuracy data < 65)%Q
             /\ m = msgDomain toFixed1 domain data)
      \/ (3 <= length (filter isSecurityMistake (incorrectOnes analyses))
          /\ m = msgSecurity)
      \/ (3 <= length (filter isServerlessMistake (incorrectOnes analyses))
          /\ m = msgServerless)
      \/ (totalQuestions summary < 20 /\ m = msgMoreQuestions).
Proof.
  unfold generateRecommendations, incorrectOnes.
  rewrite !in_app_iff.
  apply or_iff_compat_l.
  apply Morphisms_Prop.or_iff_morphism; [|apply Morphisms_Prop.or_iff_morphism;
    [|apply Morphisms_Prop.or_iff_morphism; [|apply Morphisms_Prop.or_iff_morphism]]].
  - destruct (weakAreas summary) as [|w ws] eqn:E; simpl.
    + split; [intros [] | intros [H _]; now apply H].
    + split; [intros [<-|[]]; split; [discriminate | reflexivity]
             | intros [_ ->]; now left].
  - rewrite in_map_iff. split.
    + intros ([domain data] & <- & [Hin Hlt]%filter_In).
      exists domain, data. split; [exact Hin|].
      split; [now apply ltb_true | reflexivity].
    + intros (domain & data & Hin & Hlt & ->). exists (domain, data).
      split; [reflexivity|]. apply filter_In. split; [exact Hin|].
      now apply ltb_true.
  - destruct (3 <=? _) eqn:E.
    + apply Nat.leb_le in E. split; [intros [<-|[]]; now split | intros [_ ->]; now left].
    + apply Nat.leb_gt in E. split; [intros [] | intros [H _]; lia].
  - destruct (3 <=? _) eqn:E.
    + apply Nat.leb_le in E. split; [intros [<-|[]]; now split | intros [_ ->]; now left].
    + apply Nat.leb_gt in E. split; [intros [] | intros [H _]; lia].
  - destruct (_ <? 20) eqn:E.
    + apply Nat.ltb_lt in E. split; [intros [<-|[]]; now split | intros [_ ->]; now left].
    + apply Nat.ltb_ge in E. split; [intros [] | intros [H _]; lia].
Qed.

(** X13: the security message is emitted exactly when at least three
    incorrect analyses tag IAM, KMS, Cognito or Secrets Manager; the
    serverless message exactly when at least three incorrect analyses have
    a keyword that contains "serverless" or "lambda"; and the message that
    asks for more questions exactly when [totalQuestions] is below 20. *)
Theorem X13_pattern_messages (summary : StudySummary)
  (analyses : list QuestionAnalysis) :
  let recommendations := generateRecommendations toFixed1 summary analyses in
  (In msgSecurity recommendations
   <-> 3 <= length (filter isSecurityMistake (incorrectOnes analyses)))
  /\ (In msgServerless recommendations
      <-> 3 <= length (filter isServerlessMistake (incorrectOnes analyses)))
  /\ (In msgMoreQuestions recommendations <-> totalQuestions summary < 20).
Proof.
  cbv zeta. rewrite !recommendations_blocks.
  split; [|split]; split.
  - intros [H|[[_ H]|[(d & b & _ & _ & H)|[[H _]|[[_ H]|[_ H]]]]]];
      try exact H; exfalso.
    + apply overallMessages_heads in H as [H|[H|[H|[]]]]; head_clash H.
    + head_clash H.
    + head_clash H.
    + head_clash H.
    + head_clash H.
  - intros H. right. right. right. left. now split.
  - intros [H|[[_ H]|[(d & b & _ & _ & H)|[[_ H]|[[H _]|[_ H]]]]]];
      try exact H; exfalso.
    + apply overallMessages_heads in H as [H|[H|[H|[]]]]; head_clash H.
    + head_clash H.
    + head_clash H.
    + head_clash H.
    + head_clash H.
  - intros H. right. right. right. right. left. now split.
  - intros [H|[[_ H]|[(d & b & _ & _ & H)|[[_ H]|[[_ H]|[H _]]]]]];
      try exact H; exfalso.
    + apply overallMessages_heads in H as [H|[H|[H|[]]]]; head_clash H.
    + head_clash H.
    + head_clash H.
    + head_clash H.
    + head_clash H.
  - intros H. right. right. right. right. right. now split.
Qed.

(** X14: the messages that start with the magnifying glass are the deep-dive
    messages, one for each domain whose accuracy is below 65, in the order
    of the domain breakdown; and a message that starts with the warning
    sign is the priority message, which names the first three weak areas
    and is emitted exactly when there is a weak area. *)
Theorem X14_domain_and_priority_messages (summary : StudySummary)
  (analyses : list QuestionAnalysis) :
  let recommendations := generateRecommendations toFixed1 summary analyses in
  filter (Str.startsWith "🔍 ") recommendations
  = map (fun entry => msgDomain toFixed1 (fst entry) (snd entry))
      (filter (fun entry => Num.ltb (Breakdown.accuracy (snd entry)) 65)
         (domainBreakdown summary))
  /\ filter (Str.startsWith "⚠️ ") recommendations
     = match weakAreas summary with
       | [] => []
       | _ :: _ =>
           [msgPriority
              (Str.join ", " (map Area.service (firstn 3 (weakAreas summary))))]
       end.
Proof.
  cbv zeta. unfold generateRecommendations. rewrite !filter_app.
  assert (Hoverall : forall p,
    In p ["🔍 "; "⚠️ "] ->
    filter (Str.startsWith p) (overallMessages (accuracy summary)) = []).
  { intros p Hp. unfold overallMessages.
    destruct Hp as [<-|[<-|[]]];
      destruct (Num.ltb _ 60); [reflexivity| | reflexivity|];
      (destruct (Num.ltb _ 75); [reflexivity|]);
      (destruct (Num.geb _ 85); reflexivity). }
  assert (Hdomains : forall l : list (string * Breakdown.t),
    filter (Str.startsWith "🔍 ")
      (map (fun entry => msgDomain toFixed1 (fst entry) (snd entry)) l)
    = map (fun entry => msgDomain toFixed1 (fst entry) (snd entry)) l
    /\ filter (Str.startsWith "⚠️ ")
         (map (fun entry => msgDomain toFixed1 (fst entry) (snd entry)) l)
       = []).
  { induction l as [|e l [IH1 IH2]]; [now split|].
    cbn [map filter]. split.
    - change (Str.startsWith "🔍 " (msgDomain toFixed1 (fst e) (snd e))) with true.
      cbv iota. now rewrite IH1.
    - change (Str.startsWith "⚠️ " (msgDomain toFixed1 (fst e) (snd e))) with false.
      cbv iota. exact IH2. }
  rewrite !Hoverall by (simpl; tauto).
  destruct (Hdomains
              (filter (fun entry => Num.ltb (Breakdown.accuracy (snd entry)) 65)
                 (domainBreakdown summary))) as [-> ->].
  destruct (3 <=? length (filter isSecurityMistake _));
    destruct (3 <=? length (filter isServerlessMistake _));
    destruct (totalQuestions summary <? 20);
    destruct (weakAreas summary) as [|w ws];
    cbn [length Nat.ltb Nat.leb filter app];
    rewrite ?app_nil_r; split; reflexivity.
Qed.

End LaterRecommendations.

Lemma X13_pattern_messages_witness :
  3 <= length (filter Analyzer.isSecurityMistake (incorrectOnes securityBatch))
  /\ In Analyzer.msgSecurity
       (Analyzer.recommendations
          (Analyzer.generateSummary noDigits securityBatch)).
Proof.
  assert (H : 3 <= length (filter Analyzer.isSecurityMistake
                             (incorrectOnes securityBatch)))
    by (vm_compute; lia).
  split; [exact H|].
  cbn [Analyzer.generateSummary Analyzer.recommendations].
  apply (X13_pattern_messages noDigits). exact H.
Defined.

(** X12: the summary of an empty batch has every count zero, accuracy 0,
    empty breakdowns and lists, and two recommendations: the
    fundamentals-review message, as the accuracy 0 is below 60, and the
    request for more questions. *)
Theorem X12_empty_batch (toFixed1 : Q -> string) :
  Analyzer.generateSummary toFixed1 []
  = {| Analyzer.totalQuestions := 0;
       Analyzer.correctCount := 0;
       Analyzer.incorrectCount := 0;
       Analyzer.accuracy := 0%Q;
       Analyzer.serviceBreakdown := [];
       Analyzer.domainBreakdown := [];
       Analyzer.weakAreas := [];
       Analyzer.strongAreas := [];
       Analyzer.topKeywords := [];
       Analyzer.recommendations :=
         [Analyzer.msgFundamentals; Analyzer.msgMoreQuestions] |}
  /\ Analyzer.generateHeatmapData (Analyzer.generateSummary toFixed1 []) = [].
Proof. split; reflexivity. Qed.

(* ================================================================== *)
(** * Summary and heatmap together *)

Section HeatmapOfSummary.
Import Analyzer.
Variable toFixed1 : Q -> string.

Lemma heat_item_listed (bd : Dict.t Breakdown.t) (name : string) (b : Breakdown.t) :
  Dict.get bd name = Some b ->
  In (heatItem name b)
    (flat_map
       (fun service =>
          match Dict.get bd service with
          | Some data => [heatItem service data]
          | None => []
          end) (Dict.keys bd)).
Proof.
  intros Hget. apply in_flat_map. exists name.
  split; [now apply get_key in Hget|]. rewrite Hget. now left.
Qed.

(** X15: every weak area of a summary is an item of its heatmap with the
    same accuracy and the status Review or Weak, every strong area an item
    with the status Strong, and the heatmap shows no category twice. *)
Theorem X15_areas_in_heatmap (analyses : list QuestionAnalysis) :
  let s := generateSummary toFixed1 analyses in
  let items := generateHeatmapData s in
  (forall a, In a (weakAreas s) ->
     exists item, In item items
                  /\ Heat.service item = Area.service a
                  /\ Heat.accuracy item = Area.accuracy a
                  /\ Heat.total item = Area.questionsReviewed a
                  /\ (Heat.status item = "Review" \/ Heat.status item = "Weak"))
  /\ (forall a, In a (strongAreas s) ->
        exists item, In item items
                     /\ Heat.service item = Area.service a
                     /\ Heat.accuracy item = Area.accuracy a
                     /\ Heat.total item = Area.questionsReviewed a
                     /\ Heat.status item = "Strong")
  /\ NoDup (map Heat.service items).
Proof.
  cbv zeta. unfold generateHeatmapData.
  cbn [generateSummary weakAreas strongAreas serviceBreakdown].
  set (bd := computeAccuracies (buildBreakdown Tagger.services analyses)).
  assert (Hnd : NoDup (Dict.keys bd)) by apply breakdown_NoDup.
  split; [|split].
  - intros a Ha. apply sort_In in Ha.
    destruct (collected_area isWeak bd a Hnd Ha) as (b & Hget & Hp & Ht & Hacc).
    exists (heatItem (Area.service a) b).
    split; [apply sort_In; now apply heat_item_listed|].
    split; [reflexivity|]. split; [exact Hacc|]. split; [exact Ht|].
    apply isWeak_true in Hp as [_ Hp]. cbn [heatItem Heat.status].
    destruct (heat_buckets (Breakdown.accuracy b)) as (_ & _ & Hreview & Hweak).
    destruct (Qlt_le_dec (Breakdown.accuracy b) 50) as [Hlow|Hhigh].
    + right. now apply Hweak.
    + left. now apply Hreview.
  - intros a Ha. apply sort_In in Ha.
    destruct (collected_area isStrong bd a Hnd Ha) as (b & Hget & Hp & Ht & Hacc).
    exists (heatItem (Area.service a) b).
    split; [apply sort_In; now apply heat_item_listed|].
    split; [reflexivity|]. split; [exact Hacc|]. split; [exact Ht|].
    apply isStrong_true in Hp as [_ Hp]. cbn [heatItem Heat.status].
    now apply heat_buckets.
  - apply (Permutation_NoDup
             (l := map Heat.service
                     (flat_map
                        (fun service =>
                           match Dict.get bd service with
                           | Some data => [heatItem service data]
                           | None => []
                           end) (Dict.keys bd)))).
    + apply Permutation_map. symmetry. apply sort_perm.
    + rewrite heat_items_services by apply incl_refl. exact Hnd.
Qed.

Lemma filter_filter_eqb (f : string -> bool) (k : string) (l : list string) :
  filter (String.eqb k) (filter f l)
  = if f k then filter (String.eqb k) l else [].
Proof.
  induction l as [|x l IH]; simpl; [now destruct (f k)|].
  destruct (String.eqb k x) eqn:E.
  - apply String.eqb_eq in E. subst x.
    destruct (f k); simpl; [now rewrite String.eqb_refl, IH | exact IH].
  - destruct (f x); simpl; [rewrite E|]; exact IH.
Qed.

(** The two entries of Systems Manager in the reference list pass the
    same test, so the name is tagged twice or not at all. *)
Lemma systems_manager_twice (text : string) :
  In "Systems Manager" (Tagger.services (Tagger.tagQuestion text)) ->
  occurrences "Systems Manager" (Tagger.services (Tagger.tagQuestion text)) = 2.
Proof.
  cbn [Tagger.tagQuestion Tagger.services]. unfold occurrences.
  intros [_ H]%filter_In.
  rewrite filter_filter_eqb, H. reflexivity.
Qed.

Lemma timesTagged_single select p name (a : QuestionAnalysis) :
  timesTagged select p name [a]
  = if p a then occurrences name (select (tags a)) else 0.
Proof.
  unfold timesTagged, occurrences. cbn [filter].
  destruct (p a); cbn [flat_map filter length]; [rewrite app_nil_r|];
    reflexivity.
Qed.

(** A category observed twice is listed: among the strong areas when both
    observations are correct, among the weak ones when neither is. *)
Lemma doubled_area (analyses : list QuestionAnalysis) (name : string) :
  timesTagged Tagger.services (fun _ => true) name analyses = 2 ->
  (timesTagged Tagger.services isCorrect name analyses = 2 ->
   exists a, In a (strongAreas (generateSummary toFixed1 analyses))
             /\ Area.service a = name /\ Area.questionsReviewed a = 2)
  /\ (timesTagged Tagger.services isCorrect name analyses = 0 ->
      exists a, In a (weakAreas (generateSummary toFixed1 analyses))
                /\ Area.service a = name /\ Area.questionsReviewed a = 2).
Proof.
  intros Hall.
  cbn [generateSummary weakAreas strongAreas].
  set (bd := computeAccuracies (buildBreakdown Tagger.services analyses)).
  destruct (breakdown_counts Tagger.services analyses name)
    as [Hcounts Hnone]. fold bd in Hcounts, Hnone.
  destruct (Dict.get bd name) as [b|] eqn:Hget;
    [|rewrite (proj1 Hnone eq_refl) in Hall; discriminate Hall].
  destruct (Hcounts b eq_refl) as (Ht & Hc & _). rewrite Hall in Ht.
  destruct (breakdown_entry Tagger.services analyses _ _ (get_In _ _ _ _ Hget))
    as [_ Hacc]. rewrite Ht, Hc in Hacc.
  assert (Hfind : forall p cmp,
    p b = true ->
    exists a,
      In a (Sorting.sort cmp (map toArea (filter (fun e => p (snd e)) bd)))
      /\ Area.service a = name /\ Area.questionsReviewed a = 2).
  { intros p cmp Hp. exists (toArea (name, b)).
    split; [|split; [reflexivity | exact Ht]].
    apply sort_In, in_map, filter_In. split; [now apply get_In | exact Hp]. }
  split; intros Hcorrect; rewrite Hcorrect in Hacc; apply Hfind.
  - apply isStrong_true. split; [lia|]. rewrite Hacc. vm_compute. discriminate.
  - apply isWeak_true. split; [lia|]. rewrite Hacc. vm_compute. reflexivity.
Qed.

Lemma analysed_tags file text :
  tags (Upload.analysed file text) = Tagger.tagQuestion text.
Proof. reflexivity. Qed.

Lemma analysed_isCorrect file text :
  isCorrect (Upload.analysed file text)
  = Upload.isCorrect (Parser.parseQuestion text).
Proof. reflexivity. Qed.

(** X16: a batch of one question whose text names Systems Manager has
    that category in [strongAreas] when the question is marked correct and
    in [weakAreas] when it is not, reported with two questions reviewed:
    the doubled tag passes the gate of two observations. *)
Theorem X16_single_question_passes_gate (file text : string) :
  In "Systems Manager" (Tagger.services (Tagger.tagQuestion text)) ->
  let s := generateSummary toFixed1 [Upload.analysed file text] in
  totalQuestions s = 1
  /\ exists a,
       In a (if Upload.isCorrect (Parser.parseQuestion text)
             then strongAreas s else weakAreas s)
       /\ Area.service a = "Systems Manager"
       /\ Area.questionsReviewed a = 2.
Proof.
  intros Htagged. cbv zeta. split; [reflexivity|].
  pose proof (systems_manager_twice text Htagged) as Htwice.
  destruct (doubled_area [Upload.analysed file text] "Systems Manager")
    as [Hstrong Hweak].
  { rewrite timesTagged_single, analysed_tags. exact Htwice. }
  rewrite timesTagged_single, analysed_tags, analysed_isCorrect, Htwice
    in Hstrong, Hweak.
  destruct (Upload.isCorrect (Parser.parseQuestion text));
    [exact (Hstrong eq_refl) | exact (Hweak eq_refl)].
Qed.

End HeatmapOfSummary.

Lemma X15_areas_in_heatmap_witness :
  In (Analyzer.toArea ("IAM", sampleIAM)) (Analyzer.weakAreas sampleSummary)
  /\ exists item,
       In item (Analyzer.generateHeatmapData sampleSummary)
       /\ Analyzer.Heat.service item = "IAM"
       /\ (Analyzer.Heat.status item = "Review"
           \/ Analyzer.Heat.status item = "Weak").
Proof.
  assert (H : In (Analyzer.toArea ("IAM", sampleIAM))
                (Analyzer.weakAreas sampleSummary))
    by (vm_compute; left; reflexivity).
  split; [exact H|].
  destruct (X15_areas_in_heatmap noDigits sampleAnalyses) as (Hweak & _).
  destruct (Hweak _ H) as (item & Hin & Hname & _ & _ & Hstatus).
  exists item. split; [exact Hin|]. split; [exact Hname | exact Hstatus].
Defined.

Lemma X16_single_question_witness :
  In "Systems Manager"
    (Tagger.services (Tagger.tagQuestion "Which Systems Manager feature?"))
  /\ exists a,
       In a (Analyzer.strongAreas
               (Analyzer.generateSummary noDigits
                  [Upload.analysed "q.png" "Which Systems Manager feature?"]))
       /\ Analyzer.Area.service a = "Systems Manager"
       /\ Analyzer.Area.questionsReviewed a = 2.
Proof.
  assert (H : In "Systems Manager"
                (Tagger.services
                   (Tagger.tagQuestion "Which Systems Manager feature?")))
    by (vm_compute; left; reflexivity).
  split; [exact H|].
  assert (Hcorrect : Upload.isCorrect
                       (Parser.parseQuestion "Which Systems Manager feature?")
                     = true)
    by (vm_compute; reflexivity).
  pose proof (proj2 (X16_single_question_passes_gate noDigits "q.png"
                       "Which Systems Manager feature?" H)) as Hlisted.
  rewrite Hcorrect in Hlisted. exact Hlisted.
Defined.

(* ================================================================== *)
(** * Trimming *)

Section TrimFacts.

Lemma append_assoc (a b c : string) : (a ++ b) ++ c = a ++ (b ++ c).
Proof. induction a as [|x a IH]; simpl; [reflexivity | now rewrite IH]. Qed.

Lemma append_nil_r (a : string) : a ++ "" = a.
Proof. induction a as [|x a IH]; simpl; [reflexivity | now rewrite IH]. Qed.

Lemma rev_onto_app s acc : Str.rev_onto s acc = Str.rev s ++ acc.
Proof.
  unfold Str.rev. revert acc.
  induction s as [|a s IH]; intros acc; simpl; [reflexivity|].
  rewrite IH, (IH (String a "")).
  rewrite append_assoc. reflexivity.
Qed.

Lemma rev_cons a s : Str.rev (String a s) = Str.rev s ++ String a "".
Proof. unfold Str.rev at 1. simpl. apply rev_onto_app. Qed.

Lemma rev_append s t : Str.rev (s ++ t) = Str.rev t ++ Str.rev s.
Proof.
  induction s as [|a s IH]; simpl.
  - unfold Str.rev at 3. simpl.
    induction (Str.rev t) as [|b r IHr]; simpl; [reflexivity | now rewrite <- IHr].
  - rewrite !rev_cons, IH, append_assoc. reflexivity.
Qed.

Lemma rev_rev s : Str.rev (Str.rev s) = s.
Proof.
  induction s as [|a s IH]; [reflexivity|].
  rewrite rev_cons, rev_append, IH. reflexivity.
Qed.

Lemma trimStart_trimStart s : Str.trimStart (Str.trimStart s) = Str.trimStart s.
Proof.
  induction s as [|a s IH]; simpl; [reflexivity|].
  destruct (Str.isSpace a) eqn:E; [exact IH|]. simpl. now rewrite E.
Qed.

Lemma trimStart_snoc s a :
  Str.isSpace a = false ->
  Str.trimStart (s ++ String a "") = Str.trimStart s ++ String a "".
Proof.
  intros Ha. induction s as [|b s IH]; simpl; [now rewrite Ha|].
  destruct (Str.isSpace b); [exact IH | reflexivity].
Qed.

Lemma trimEnd_trimEnd s : Str.trimEnd (Str.trimEnd s) = Str.trimEnd s.
Proof.
  unfold Str.trimEnd. now rewrite rev_rev, trimStart_trimStart.
Qed.

(** Trimming the end leaves a first character that is no blank where it
    is. *)
Lemma trimEnd_head a s :
  Str.isSpace a = false ->
  exists r, Str.trimEnd (String a s) = String a r.
Proof.
  intros Ha. unfold Str.trimEnd.
  rewrite rev_cons, (trimStart_snoc _ _ Ha), rev_append.
  exists (Str.rev (Str.trimStart (Str.rev s))). reflexivity.
Qed.

Lemma trimStart_head s :
  Str.trimStart s = ""
  \/ exists a r, Str.trimStart s = String a r /\ Str.isSpace a = false.
Proof.
  induction s as [|a s IH]; simpl; [now left|].
  destruct (Str.isSpace a) eqn:E; [exact IH|].
  right. now exists a, s.
Qed.

Lemma trim_trim s : Str.trim (Str.trim s) = Str.trim s.
Proof.
  unfold Str.trim.
  destruct (trimStart_head s) as [->|(a & r & -> & Ha)].
  - reflexivity.
  - destruct (trimEnd_head a r Ha) as [r' Hr].
    assert (Hstart : Str.trimStart (Str.trimEnd (String a r))
                     = Str.trimEnd (String a r))
      by (rewrite Hr; simpl; now rewrite Ha).
    rewrite Hstart. apply trimEnd_trimEnd.
Qed.

End TrimFacts.

(* ================================================================== *)
(** * The batch as a whole *)

Section BatchFacts.
Variable image : Type.
Variable basename : string -> string.
Variable readFileSync : string -> Upload.outcome image.
Variable recognize : image -> Upload.outcome string.
Variable toFixed1 : Q -> string.

(** X17: the text [ocrImage] hands to the parser is trimmed: trimming it
    again changes nothing. *)
Theorem X17_recognised_text_is_trimmed (img : image) (text : string) :
  Upload.ocrImage recognize img = Upload.Returned text ->
  Str.trim text = text.
Proof.
  unfold Upload.ocrImage.
  destruct (recognize img) as [raw|message]; [|discriminate].
  destruct (String.length (Str.trim raw) =? 0); intros [= <-];
    [reflexivity | apply trim_trim].
Qed.

Lemma pushed_file (filePath : string) :
  Analyzer.file (Upload.pushed basename readFileSync recognize filePath)
  = basename filePath.
Proof.
  unfold Upload.pushed.
  destruct (Upload.extractText readFileSync recognize filePath); reflexivity.
Qed.

Lemma pushed_failed (filePath : string) :
  extracted readFileSync recognize filePath = false ->
  Analyzer.isCorrect (Upload.pushed basename readFileSync recognize filePath)
  = false.
Proof.
  unfold extracted, Upload.pushed.
  destruct (Upload.extractText readFileSync recognize filePath);
    [discriminate | reflexivity].
Qed.

(** X18: the loop yields one analysis for each image file, under the base
    name of the file and in the order of the files; and every file whose
    text could not be extracted is among the incorrect answers of the
    summary. *)
Theorem X18_one_analysis_per_file (imageFiles : list string) :
  let analyses :=
    Upload.processImages basename readFileSync recognize imageFiles in
  let s := Analyzer.generateSummary toFixed1 analyses in
  map Analyzer.file analyses = map basename imageFiles
  /\ Analyzer.totalQuestions s = length imageFiles
  /\ length (filter (fun f => negb (extracted readFileSync recognize f)) imageFiles)
     <= Analyzer.incorrectCount s
  /\ Analyzer.correctCount s
     <= length (filter (extracted readFileSync recognize) imageFiles).
Proof.
  cbv zeta. rewrite processImages_map.
  cbn [Analyzer.generateSummary Analyzer.totalQuestions
       Analyzer.incorrectCount Analyzer.correctCount].
  rewrite countCorrect_filter. cbn [fst snd].
  split; [|split; [|split]].
  - rewrite map_map. apply map_ext. apply pushed_file.
  - apply length_map.
  - induction imageFiles as [|f l IH]; simpl; [lia|].
    destruct (extracted readFileSync recognize f) eqn:E; simpl.
    + destruct (Analyzer.isCorrect _); simpl; lia.
    + rewrite (pushed_failed f E). simpl. lia.
  - induction imageFiles as [|f l IH]; simpl; [lia|].
    destruct (extracted readFileSync recognize f) eqn:E; simpl.
    + destruct (Analyzer.isCorrect _); simpl; lia.
    + rewrite (pushed_failed f E). exact IH.
Qed.

(** X19: an image on which the engine finds nothing but blanks is analysed
    as the empty text: no question, options, answers, explanation or
    tags, and, the two empty answers being equal, marked correct. *)
Theorem X19_blank_image_counts_as_correct (filePath : string) (buffer : image)
  (text : string) :
  readFileSync filePath = Upload.Returned buffer ->
  recognize buffer = Upload.Returned text ->
  Str.trim text = "" ->
  Upload.pushed basename readFileSync recognize filePath
  = {| Analyzer.file := basename filePath;
       Analyzer.parsed :=
         {| Parser.question := "";
            Parser.options := [];
            Parser.yourAnswer := "";
            Parser.correctAnswer := "";
            Parser.explanation := "";
            Parser.rawText := "" |};
       Analyzer.tags :=
         {| Tagger.services := []; Tagger.domains := [];
            Tagger.keywords := [] |};
       Analyzer.isCorrect := true |}.
Proof.
  intros Hread Hocr Hblank.
  unfold Upload.pushed, Upload.extractText, Upload.ocrImage.
  rewrite Hread, Hocr, Hblank. reflexivity.
Qed.

(** The counts of the response data agree with each other and with the
    files. *)
Lemma responseData_bookkeeping (imageFiles : list string) :
  let data :=
    Upload.responseData basename readFileSync recognize toFixed1 imageFiles in
  Upload.success data = true
  /\ Upload.processedCount data = length imageFiles
  /\ map Analyzer.file (Upload.questions data) = map basename imageFiles
  /\ Upload.QuickStats.correct (Upload.quickStats data)
     + Upload.QuickStats.incorrect (Upload.quickStats data)
     = Upload.processedCount data
  /\ Upload.QuickStats.totalServices (Upload.quickStats data)
     = length (Upload.heatmap data)
  /\ Upload.QuickStats.weakAreaCount (Upload.quickStats data)
     <= Upload.QuickStats.totalServices (Upload.quickStats data).
Proof.
  cbv zeta. unfold Upload.responseData.
  cbn [Upload.success Upload.processedCount Upload.questions Upload.quickStats
       Upload.heatmap Upload.QuickStats.correct Upload.QuickStats.incorrect
       Upload.QuickStats.totalServices Upload.QuickStats.weakAreaCount].
  set (analyses :=
         Upload.processImages basename readFileSync recognize imageFiles).
  assert (Hlen : length analyses = length imageFiles)
    by (unfold analyses; rewrite processImages_map; apply length_map).
  split; [reflexivity|]. split; [exact Hlen|].
  split.
  { unfold analyses. rewrite processImages_map, map_map.
    apply map_ext, pushed_file. }
  split.
  { cbn [Analyzer.generateSummary Analyzer.correctCount Analyzer.incorrectCount].
    apply countCorrect_total. }
  split.
  { unfold Analyzer.generateHeatmapData.
    rewrite sort_length, <- (length_map Analyzer.Heat.service),
      heat_items_services by apply incl_refl.
    reflexivity. }
  cbn [Analyzer.generateSummary Analyzer.weakAreas Analyzer.serviceBreakdown].
  rewrite sort_length. unfold Analyzer.collectWeak, Dict.keys.
  rewrite !length_map. apply filter_length_le.
Qed.

Variable EXTRACT_DIR : string.
Variable extract : string -> Upload.outcome (list Files.Dirent).
Variable saveResults : Upload.ResponseData -> Upload.outcome unit.
Variable cleanupOCR : Upload.outcome unit.
Variable unlinkSync : string -> Upload.outcome unit.

(** X20: the route answers with status 400 only when no archive was
    uploaded or the archive holds no image file, and with status 500 only
    with the message of what extracting the archive, saving the results,
    cleaning up the worker or removing the upload threw: an image that
    fails is no such step.  The data it sends otherwise are those of the
    image files of the archive, of which there is at least one: as many
    questions as files, under their base names; the quick stats count each
    question as correct or as incorrect; the heatmap has one item for each
    category counted in [totalServices], and the weak areas are at most as
    many. *)
Theorem X20_reply_bookkeeping (zipPath : option string) :
  match
    Route.upload basename readFileSync recognize toFixed1 EXTRACT_DIR extract
      saveResults cleanupOCR unlinkSync zipPath
  with
  | Route.BadRequest error hint =>
      (error = "No zip uploaded" /\ hint = None
       /\ (zipPath = None \/ zipPath = Some ""))
      \/ (error = "No image files found in ZIP"
          /\ exists zip entries,
               zipPath = Some zip /\ extract zip = Upload.Returned entries
               /\ Files.getAllImageFiles EXTRACT_DIR entries = [])
  | Route.ServerError message =>
      exists zip,
        zipPath = Some zip
        /\ (extract zip = Upload.Thrown message
            \/ exists entries,
                 extract zip = Upload.Returned entries
                 /\ Files.getAllImageFiles EXTRACT_DIR entries <> []
                 /\ (saveResults
                       (Upload.responseData basename readFileSync recognize
                          toFixed1
                          (Files.getAllImageFiles EXTRACT_DIR entries))
                     = Upload.Thrown message
                     \/ cleanupOCR = Upload.Thrown message
                     \/ unlinkSync zip = Upload.Thrown message))
  | Route.Sent data =>
      exists zip entries,
        zipPath = Some zip /\ extract zip = Upload.Returned entries
        /\ let imageFiles := Files.getAllImageFiles EXTRACT_DIR entries in
           imageFiles <> []
           /\ Upload.success data = true
           /\ Upload.processedCount data = length imageFiles
           /\ map Analyzer.file (Upload.questions data)
              = map basename imageFiles
           /\ Upload.QuickStats.correct (Upload.quickStats data)
              + Upload.QuickStats.incorrect (Upload.quickStats data)
              = Upload.processedCount data
           /\ Upload.QuickStats.totalServices (Upload.quickStats data)
              = length (Upload.heatmap data)
           /\ Upload.QuickStats.weakAreaCount (Upload.quickStats data)
              <= Upload.QuickStats.totalServices (Upload.quickStats data)
  end.
Proof.
  unfold Route.upload.
  destruct zipPath as [zip|]; [|left; auto].
  destruct zip as [|a zip]; [left; auto|]. cbn [String.length Nat.eqb].
  destruct (extract (String a zip)) as [entries|message] eqn:Hextract;
    [|exists (String a zip); auto].
  cbv zeta.
  destruct (Files.getAllImageFiles EXTRACT_DIR entries) as [|f files] eqn:Hfiles;
    cbn [length Nat.eqb].
  { right. split; [reflexivity|]. now exists (String a zip), entries. }
  unfold Route.finish.
  assert (Hsome : Files.getAllImageFiles EXTRACT_DIR entries <> [])
    by (rewrite Hfiles; discriminate).
  rewrite <- Hfiles.
  destruct (saveResults _) as [[]|message] eqn:Hsave;
    [|exists (String a zip); split; [reflexivity|]; right; exists entries;
      auto].
  destruct cleanupOCR as [[]|message] eqn:Hcleanup;
    [|exists (String a zip); split; [reflexivity|]; right; exists entries;
      auto].
  destruct (unlinkSync (String a zip)) as [[]|message] eqn:Hunlink;
    [|exists (String a zip); split; [reflexivity|]; right; exists entries;
      auto].
  exists (String a zip), entries.
  split; [reflexivity|]. split; [exact Hextract|].
  cbv zeta. split; [exact Hsome|].
  apply responseData_bookkeeping.
Qed.

End BatchFacts.

Lemma X17_recognised_text_witness :
  Upload.ocrImage blankRecognize "a.png" = Upload.Returned scenario1
  /\ Str.trim scenario1 = scenario1.
Proof.
  assert (H : Upload.ocrImage blankRecognize "a.png" = Upload.Returned scenario1)
    by (vm_compute; reflexivity).
  split; [exact H|].
  exact (X17_recognised_text_is_trimmed string blankRecognize "a.png" scenario1 H).
Defined.

Lemma X19_blank_image_witness :
  sampleRead "blank.png" = Upload.Returned "blank.png"
  /\ Analyzer.isCorrect
       (Upload.pushed sampleBasename sampleRead blankRecognize "blank.png")
     = true.
Proof.
  assert (Hread : sampleRead "blank.png" = Upload.Returned "blank.png")
    by reflexivity.
  split; [exact Hread|].
  rewrite (X19_blank_image_counts_as_correct string sampleBasename sampleRead
             blankRecognize "blank.png" "blank.png" "
  " Hread eq_refl eq_refl).
  reflexivity.
Defined.

(* ================================================================== *)
(** * Image files *)

Section ImageFacts.
Import Regex.

Lemma lowerChar_upperChar c : Str.lowerChar (Str.upperChar c) = Str.lowerChar c.
Proof. destruct c as [[] [] [] [] [] [] [] []]; reflexivity. Qed.

Lemma toLowerCase_toUpperCase s :
  Str.toLowerCase (Str.toUpperCase s) = Str.toLowerCase s.
Proof.
  induction s as [|c s IH]; simpl; [reflexivity|].
  now rewrite lowerChar_upperChar, IH.
Qed.

(** Two texts are equal up to case when they are equal in upper case, or
    in lower case. *)
Lemma same_upper_same_lower s t :
  Str.toUpperCase s = Str.toUpperCase t <-> Str.toLowerCase s = Str.toLowerCase t.
Proof.
  split; intros H.
  - now rewrite <- (toLowerCase_toUpperCase s), H, toLowerCase_toUpperCase.
  - now rewrite <- (toUpperCase_toLowerCase s), H, toUpperCase_toLowerCase.
Qed.

(** A literal under the [i] flag takes a text that equals it up to case. *)
Lemma lit_inv w :
  forall s c k res,
    rmatch (lit w) s c k = Some res ->
    exists x s', s = x ++ s'
                 /\ Str.toUpperCase x = Str.toUpperCase w
                 /\ k s' c = Some res.
Proof.
  induction w as [|a w IH]; intros s c k res; cbn [lit rmatch ci].
  - intros H. now exists "", s.
  - destruct s as [|b s]; [discriminate|].
    destruct (Ascii.eqb (Str.upperChar a) (Str.upperChar b)) eqn:E; [|discriminate].
    apply Ascii.eqb_eq in E.
    intros H. apply IH in H as (x & s' & -> & Hx & H).
    exists (String b x), s'. split; [reflexivity|].
    split; [simpl; now rewrite Hx, E | exact H].
Qed.

Lemma lit_match w :
  forall x s' c k,
    Str.toUpperCase x = Str.toUpperCase w ->
    rmatch (lit w) (x ++ s') c k = k s' c.
Proof.
  induction w as [|a w IH]; intros x s' c k; cbn [lit rmatch ci].
  - destruct x; [reflexivity | discriminate].
  - destruct x as [|b x]; [discriminate|].
    simpl. intros [= Hb Hx]. rewrite Hb, Ascii.eqb_refl. now apply IH.
Qed.

Lemma search_complete r p t :
  matchHere r t <> None -> search r (p ++ t) <> None.
Proof.
  intros H. induction p as [|a p IH]; simpl.
  - destruct t; cbn [search]; destruct (matchHere r _); congruence.
  - destruct (matchHere r (String a (p ++ t))); [discriminate | exact IH].
Qed.

Lemma image_match_inv t res :
  matchHere Files.imageRegex t = Some res ->
  exists ext, t = "." ++ ext
              /\ In (Str.toLowerCase ext) imageExtensions.
Proof.
  unfold matchHere, Files.imageRegex. cbn [rmatch].
  destruct t as [|a t]; [discriminate|].
  destruct (Ascii.eqb a ".") eqn:E; [|discriminate].
  apply Ascii.eqb_eq in E. subst a.
  set (k := fun (s' : string) (c' : caps) => match s' with
                         | "" => done s' ((1, Str.take (String.length t - String.length s') t) :: c')
                         | String _ _ => None
                         end).
  assert (Hend : forall w x s' c,
    Str.toUpperCase x = Str.toUpperCase w -> Str.toLowerCase w = w ->
    k s' c = Some res -> In w imageExtensions ->
    exists ext, String "." (x ++ s') = "." ++ ext
                /\ In (Str.toLowerCase ext) imageExtensions).
  { intros w x s' c Hx Hw Hk Hin. unfold k in Hk.
    destruct s'; [|discriminate].
    exists x. split; [simpl; f_equal; now destruct x; simpl; rewrite ?append_nil_r|].
    apply same_upper_same_lower in Hx. now rewrite Hx, Hw. }
  destruct (rmatch (lit "png") t [] k) eqn:E1.
  { intros [= <-]. apply lit_inv in E1 as (x & s' & -> & Hx & Hk).
    apply (Hend "png" x s' [] Hx eq_refl Hk). simpl. tauto. }
  destruct (rmatch (lit "jpg") t [] k) eqn:E2.
  { intros [= <-]. apply lit_inv in E2 as (x & s' & -> & Hx & Hk).
    apply (Hend "jpg" x s' [] Hx eq_refl Hk). simpl. tauto. }
  destruct (rmatch (lit "jpeg") t [] k) eqn:E3.
  { intros [= <-]. apply lit_inv in E3 as (x & s' & -> & Hx & Hk).
    apply (Hend "jpeg" x s' [] Hx eq_refl Hk). simpl. tauto. }
  intros H. apply lit_inv in H as (x & s' & -> & Hx & Hk).
  apply (Hend "webp" x s' [] Hx eq_refl Hk). simpl. tauto.
Qed.

Lemma image_match ext :
  In (Str.toLowerCase ext) imageExtensions ->
  matchHere Files.imageRegex ("." ++ ext) <> None.
Proof.
  intros Hin. unfold matchHere, Files.imageRegex.
  change ("." ++ ext) with (String "." ext). cbn [rmatch].
  rewrite Ascii.eqb_refl.
  set (k := fun (s' : string) (c' : caps) => match s' with
                         | "" => done s' ((1, Str.take (String.length ext - String.length s') ext) :: c')
                         | String _ _ => None
                         end).
  assert (Hlit : forall w, Str.toLowerCase ext = w -> Str.toLowerCase w = w ->
                           rmatch (lit w) ext [] k <> None).
  { intros w Hw Hww.
    rewrite <- (append_nil_r ext) at 1.
    rewrite lit_match; [discriminate|].
    apply same_upper_same_lower. now rewrite Hw, Hww. }
  destruct Hin as [H|[H|[H|[H|[]]]]]; symmetry in H.
  - pose proof (Hlit _ H eq_refl) as H1.
    destruct (rmatch (lit "png") ext [] k); [discriminate | congruence].
  - pose proof (Hlit _ H eq_refl) as H1.
    destruct (rmatch (lit "png") ext [] k); [discriminate|].
    destruct (rmatch (lit "jpg") ext [] k); [discriminate | congruence].
  - pose proof (Hlit _ H eq_refl) as H1.
    destruct (rmatch (lit "png") ext [] k); [discriminate|].
    destruct (rmatch (lit "jpg") ext [] k); [discriminate|].
    destruct (rmatch (lit "jpeg") ext [] k); [discriminate | congruence].
  - pose proof (Hlit _ H eq_refl) as H1.
    destruct (rmatch (lit "png") ext [] k); [discriminate|].
    destruct (rmatch (lit "jpg") ext [] k); [discriminate|].
    destruct (rmatch (lit "jpeg") ext [] k); [discriminate | exact H1].
Qed.

End ImageFacts.

Lemma image_name_ends (name : string) :
  Files.isImage name = true ->
  exists stem ext,
    name = stem ++ "." ++ ext
    /\ In (Str.toLowerCase ext) imageExtensions.
Proof.
  unfold Files.isImage.
  destruct (Regex.search Files.imageRegex name) as [res|] eqn:E; [|discriminate].
  intros _. apply search_matchHere in E as (t & [stem ->] & E).
  apply image_match_inv in E as (ext & -> & Hext).
  now exists stem, ext.
Qed.

(** X21: a file name passes the image test exactly when it ends with a dot
    and png, jpg, jpeg or webp, in any letter case. *)
Theorem X21_image_names (name : string) :
  Files.isImage name = true
  <-> exists stem ext,
        name = stem ++ "." ++ ext
        /\ In (Str.toLowerCase ext) imageExtensions.
Proof.
  unfold Files.isImage. split.
  - apply image_name_ends.
  - intros (stem & ext & -> & Hext).
    pose proof (search_complete Files.imageRegex stem _ (image_match ext Hext)) as H.
    destruct (Regex.search Files.imageRegex (stem ++ "." ++ ext));
      [reflexivity | congruence].
Qed.

Lemma X21_image_names_witness :
  In (Str.toLowerCase "JPeG") imageExtensions
  /\ Files.isImage ("scan.final" ++ "." ++ "JPeG") = true.
Proof.
  assert (H : In (Str.toLowerCase "JPeG") imageExtensions)
    by (vm_compute; tauto).
  split; [exact H|].
  apply (X21_image_names ("scan.final" ++ "." ++ "JPeG")).
  exists "scan.final", "JPeG". split; [reflexivity | exact H].
Defined.

(* ================================================================== *)
(** * The list of image files *)

Section FileFacts.

Lemma Dirent_nested_ind (P : Files.Dirent -> Prop) :
  (forall name, P (Files.File name)) ->
  (forall name entries, Forall P entries -> P (Files.Directory name entries)) ->
  (forall name, P (Files.Other name)) ->
  forall entry, P entry.
Proof.
  intros Hfile Hdir Hother.
  fix IH 1. intros [name|name entries|name].
  - apply Hfile.
  - apply Hdir. induction entries as [|e es IHes]; constructor.
    + apply IH.
    + exact IHes.
  - apply Hother.
Qed.

Lemma flat_map_map_filter (A B C : Type) (f : A -> list B) (g : B -> C)
  (p : B -> bool) (l : list A) :
  map g (filter p (flat_map f l)) = flat_map (fun a => map g (filter p (f a))) l.
Proof.
  induction l as [|a l IH]; simpl; [reflexivity|].
  now rewrite filter_app, map_app, IH.
Qed.

Lemma filter_map_swap (A B : Type) (g : A -> B) (p : B -> bool) (l : list A) :
  filter p (map g l) = map g (filter (fun a => p (g a)) l).
Proof.
  induction l as [|a l IH]; simpl; [reflexivity|].
  destruct (p (g a)); simpl; now rewrite IH.
Qed.

Lemma flat_map_ext_Forall (A B : Type) (f g : A -> list B) (l : list A) :
  Forall (fun a => f a = g a) l -> flat_map f l = flat_map g l.
Proof.
  induction 1 as [|a l Ha _ IH]; simpl; [reflexivity | now rewrite Ha, IH].
Qed.

(** What [visit] pushes for an entry: the wanted files of the entry, in
    the order of the tree. *)
Lemma visit_wanted (entry : Files.Dirent) :
  forall dir,
    Files.visit dir entry = map (pathUnder dir) (filter wanted (filesOf entry)).
Proof.
  induction entry as [name|name entries IH|name] using Dirent_nested_ind;
    intros dir.
  - cbn [Files.visit filesOf filter]. unfold wanted. cbn [fst snd forallb andb].
    destruct (Files.isImage name); reflexivity.
  - cbn [Files.visit filesOf].
    rewrite filter_map_swap, map_map.
    destruct (Files.skipped name) eqn:E; cbn [negb].
    + unfold wanted. cbn [fst snd forallb]. rewrite E. cbn [negb andb].
      now induction (flat_map filesOf entries).
    + rewrite (filter_ext (fun a => wanted (name :: fst a, snd a)) wanted)
        by (intros a; unfold wanted; cbn [fst snd forallb]; now rewrite E).
      rewrite (map_ext (fun x => pathUnder dir (name :: fst x, snd x))
                 (pathUnder (Files.join dir name))) by reflexivity.
      rewrite flat_map_map_filter.
      apply flat_map_ext_Forall.
      induction IH as [|e es He _ IHes]; constructor; [apply He | exact IHes].
  - reflexivity.
Qed.

Lemma compare_le_trans (a b c : string) :
  String.compare a b <> Gt -> String.compare b c <> Gt ->
  String.compare a c <> Gt.
Proof.
  revert b c. induction a as [|x a IH]; intros [|y b] [|z c]; simpl;
    try congruence.
  unfold Ascii.compare.
  destruct (N.compare_spec (N_of_ascii x) (N_of_ascii y)) as [Hxy|Hxy|Hxy];
    destruct (N.compare_spec (N_of_ascii y) (N_of_ascii z)) as [Hyz|Hyz|Hyz];
    try congruence; intros H1 H2.
  - rewrite Hxy, Hyz, N.compare_refl. now apply (IH b c).
  - rewrite Hxy. apply N.compare_lt_iff in Hyz. rewrite Hyz. discriminate.
  - rewrite <- Hyz. apply N.compare_lt_iff in Hxy. rewrite Hxy. discriminate.
  - assert (Hxz : (N_of_ascii x < N_of_ascii z)%N) by (now apply N.lt_trans with (N_of_ascii y)).
    apply N.compare_lt_iff in Hxz. rewrite Hxz. discriminate.
Qed.

Lemma byCodeUnits_sorted (l : list string) :
  StronglySorted (fun a b => String.leb a b = true)
    (Sorting.sort Files.byCodeUnits l).
Proof.
  apply sort_sorted; unfold Files.byCodeUnits, String.leb.
  - intros x y. rewrite String.compare_antisym.
    destruct (String.compare y x); simpl; intros H; try reflexivity;
      discriminate H.
  - intros x y. destruct (String.compare x y); intros H; try reflexivity.
    exfalso. apply H. reflexivity.
  - intros x y z Hxy Hyz.
    assert (H : String.compare x z <> Gt).
    { apply compare_le_trans with y.
      - destruct (String.compare x y); congruence.
      - destruct (String.compare y z); congruence. }
    destruct (String.compare x z); congruence.
Qed.

End FileFacts.

(** X22: [getAllImageFiles] returns its paths in ascending order of their
    code units, and every path it returns ends with a dot and png, jpg,
    jpeg or webp, in any letter case. *)
Theorem X22_image_files_sorted (dir : string) (entries : list Files.Dirent) :
  let files := Files.getAllImageFiles dir entries in
  StronglySorted (fun a b => String.leb a b = true) files
  /\ (forall path, In path files ->
        exists stem ext,
          path = stem ++ "." ++ ext
          /\ In (Str.toLowerCase ext) imageExtensions).
Proof.
  cbv zeta. unfold Files.getAllImageFiles.
  split; [apply byCodeUnits_sorted|].
  intros path Hin. apply sort_In in Hin.
  unfold Files.traverse in Hin. apply in_flat_map in Hin as (e & _ & Hin).
  rewrite visit_wanted in Hin.
  apply in_map_iff in Hin as ([ds name] & <- & [_ Hw]%filter_In).
  unfold wanted in Hw. apply andb_true_iff in Hw as [_ Himg]. cbn [snd] in Himg.
  apply image_name_ends in Himg as (stem & ext & -> & Hext).
  unfold pathUnder. cbn [fst snd]. rewrite fold_left_app. cbn [fold_left].
  unfold Files.join at 1.
  exists (fold_left Files.join ds dir ++ "/" ++ stem), ext.
  split; [|exact Hext].
  now rewrite !append_assoc.
Qed.

Lemma X22_image_files_sorted_witness :
  Files.getAllImageFiles "extracted" sampleArchive
  = ["extracted/q1.png"; "extracted/q2.PNG"; "extracted/set1/.hidden.webp";
     "extracted/set1/q10.jpeg"]
  /\ exists stem ext,
       "extracted/q2.PNG" = stem ++ "." ++ ext
       /\ In (Str.toLowerCase ext) imageExtensions.
Proof.
  assert (H : Files.getAllImageFiles "extracted" sampleArchive
              = ["extracted/q1.png"; "extracted/q2.PNG";
                 "extracted/set1/.hidden.webp"; "extracted/set1/q10.jpeg"])
    by (vm_compute; reflexivity).
  split; [exact H|].
  apply (proj2 (X22_image_files_sorted "extracted" sampleArchive)).
  rewrite H. right. left. reflexivity.
Defined.

(** X23: [getAllImageFiles] lists, up to the order, exactly the image
    files of the tree none of whose directories has a name that starts
    with a dot or with two underscores; a file is listed whatever its own
    name starts with. *)
Theorem X23_image_files_listed (dir : string) (entries : list Files.Dirent) :
  Permutation (Files.getAllImageFiles dir entries)
    (map (pathUnder dir) (filter wanted (flat_map filesOf entries))).
Proof.
  unfold Files.getAllImageFiles, Files.traverse.
  rewrite sort_perm, flat_map_map_filter.
  rewrite (flat_map_ext _ _ (fun e => visit_wanted e dir)).
  reflexivity.
Qed.

(* ================================================================== *)
(** * The life of the worker *)

Section WorkerFacts.
Variable W : Type.
Variable image : Type.
Variable createWorker : nat -> Upload.outcome W.
Variable recognize : W -> image -> Upload.outcome string.

Lemma nth_error_last (A : Type) (l : list A) (x : A) :
  nth_error (l ++ [x])%list (length l) = Some x.
Proof. induction l as [|y l IH]; [reflexivity | exact IH]. Qed.

Lemma replace_last (l : list (Ocr.task W image)) (t t' : Ocr.task W image) :
  Ocr.replace (length l) t' (l ++ [t])%list = (l ++ [t'])%list.
Proof.
  induction l as [|x l IH]; [reflexivity|]. simpl. now rewrite IH.
Qed.

Lemma forallb_snoc (A : Type) (p : A -> bool) (l : list A) (x : A) :
  forallb p (l ++ [x])%list = forallb p l && p x.
Proof. rewrite forallb_app. simpl. now rewrite andb_true_r. Qed.

(** The resumptions of the call made last, run to the state they leave. *)
Ltac settle :=
  unfold Ocr.resume;
  repeat
    (progress
       (cbn [Ocr.tasks Ocr.worker Ocr.attempts Ocr.created Ocr.terminated
             Ocr.resumed];
        rewrite ?nth_error_last, ?replace_last)).

(** A call that is awaited where no call is waiting leaves none waiting
    and every worker accounted for. *)
Lemma awaited_accounted (c : Ocr.call image) (st : Ocr.state W image) :
  accounted st ->
  let st' :=
    Ocr.run createWorker recognize
      (Ocr.awaitEach (length (Ocr.tasks st)) [c]) st in
  accounted st' /\ length (Ocr.tasks st') = S (length (Ocr.tasks st)).
Proof.
  intros (H1 & H2 & H3). unfold alive in H1. cbv zeta.
  cbn [Ocr.awaitEach Ocr.run fold_left Ocr.step].
  destruct c as [img|]; unfold Ocr.ocrImage, Ocr.cleanupOCR;
    destruct (Ocr.worker st) as [w|] eqn:E;
    [|destruct (createWorker (Ocr.attempts st)) as [w|message] eqn:Ecreate| |];
    settle; rewrite ?Ecreate; settle;
    unfold accounted, alive;
    cbn [Ocr.tasks Ocr.worker Ocr.attempts Ocr.created Ocr.terminated];
    rewrite forallb_snoc, H3, length_app; rewrite ?E; simpl;
    repeat split; lia.
Qed.

Lemma awaitEach_accounted (calls : list (Ocr.call image)) :
  forall st : Ocr.state W image,
    accounted st ->
    let st' :=
      Ocr.run createWorker recognize
        (Ocr.awaitEach (length (Ocr.tasks st)) calls) st in
    accounted st'
    /\ length (Ocr.tasks st') = length (Ocr.tasks st) + length calls.
Proof.
  induction calls as [|c calls IH]; intros st H; cbv zeta.
  - split; [exact H | simpl; lia].
  - destruct (awaited_accounted c st H) as [H' Hlen]. cbv zeta in H', Hlen.
    destruct (IH _ H') as [IH1 IH2]. cbv zeta in IH1, IH2.
    rewrite Hlen in IH1, IH2.
    split; [exact IH1|]. cbn [length]. rewrite Nat.add_succ_r. exact IH2.
Qed.

(** After a [cleanupOCR] that is awaited there is no worker at hand. *)
Lemma awaited_cleanupOCR (st : Ocr.state W image) :
  Ocr.worker
    (Ocr.run createWorker recognize
       (Ocr.awaitEach (length (Ocr.tasks st)) [Ocr.CallCleanupOCR image]) st)
  = None.
Proof.
  cbn [Ocr.awaitEach Ocr.run fold_left Ocr.step]. unfold Ocr.cleanupOCR.
  destruct (Ocr.worker st) as [w|] eqn:E; settle; reflexivity.
Qed.

Lemma awaitEach_app (calls more : list (Ocr.call image)) :
  forall k,
    Ocr.awaitEach k (calls ++ more)%list
    = (Ocr.awaitEach k calls ++ Ocr.awaitEach (k + length calls) more)%list.
Proof.
  induction calls as [|c calls IH]; intros k; simpl.
  - now rewrite Nat.add_0_r.
  - now rewrite IH, Nat.add_succ_r.
Qed.

(** X24: when the calls of [ocrImage] and [cleanupOCR] are awaited one
    after the other, as within one upload, every worker that was created
    is the one at hand or was terminated, so there is never more than one
    alive, and after a further [cleanupOCR] there is none at hand and all
    that were created are terminated.  Calls that overlap break this: when
    a second upload calls [ocrImage] while the first waits for its worker,
    [createWorker] is called twice, and after both uploads have cleaned
    up, two workers were created and one was terminated. *)
Theorem X24_worker_accounting (calls : list (Ocr.call image)) :
  (let st :=
     Ocr.run createWorker recognize (Ocr.awaitEach 0 calls)
       (Ocr.initial W image) in
   let st' :=
     Ocr.run createWorker recognize
       (Ocr.awaitEach 0 (calls ++ [Ocr.CallCleanupOCR image])%list)
       (Ocr.initial W image) in
   Ocr.created st = Ocr.terminated st + alive st
   /\ alive st <= 1
   /\ Ocr.created st <= Ocr.attempts st
   /\ forallb settled (Ocr.tasks st) = true
   /\ Ocr.worker st' = None
   /\ Ocr.created st' = Ocr.terminated st')
  /\ (forall (a b : image) (w0 w1 : W),
        createWorker 0 = Upload.Returned w0 ->
        createWorker 1 = Upload.Returned w1 ->
        let st :=
          Ocr.run createWorker recognize (overlapping a b)
            (Ocr.initial W image) in
        forallb settled (Ocr.tasks st) = true
        /\ Ocr.worker st = None
        /\ Ocr.created st = 2
        /\ Ocr.terminated st = 1).
Proof.
  assert (Hinitial : accounted (Ocr.initial W image))
    by (unfold accounted, alive; simpl; repeat split; lia).
  split.
  - cbv zeta.
    destruct (awaitEach_accounted calls _ Hinitial) as [(H1 & H2 & H3) _].
    destruct (awaitEach_accounted (calls ++ [Ocr.CallCleanupOCR image])%list _
                Hinitial) as [(H1' & _) _].
    cbn [Ocr.initial Ocr.tasks length] in H1, H2, H3, H1'.
    split; [exact H1|].
    split; [unfold alive; destruct (Ocr.worker _); lia|].
    split; [exact H2|]. split; [exact H3|].
    assert (Hnone :
      Ocr.worker
        (Ocr.run createWorker recognize
           (Ocr.awaitEach 0 (calls ++ [Ocr.CallCleanupOCR image])%list)
           (Ocr.initial W image)) = None).
    { rewrite awaitEach_app. unfold Ocr.run. rewrite fold_left_app.
      fold (Ocr.run createWorker recognize (Ocr.awaitEach 0 calls)
              (Ocr.initial W image)).
      destruct (awaitEach_accounted calls _ Hinitial) as [_ Hlen].
      cbn [Ocr.initial Ocr.tasks length] in Hlen. cbn [Nat.add].
      rewrite <- Hlen at 1. apply awaited_cleanupOCR. }
    split; [exact Hnone|].
    unfold alive in H1'. rewrite Hnone in H1'. lia.
  - intros a b w0 w1 H0 H1. cbv zeta. unfold overlapping.
    cbn. rewrite H0. cbn. rewrite H1. cbn. repeat split.
Qed.

End WorkerFacts.

Lemma X24_worker_accounting_witness :
  numbered 0 = Upload.Returned 0
  /\ numbered 1 = Upload.Returned 1
  /\ Ocr.created
       (Ocr.run numbered readAll (overlapping "a.png" "b.png")
          (Ocr.initial nat string)) = 2
  /\ Ocr.terminated
       (Ocr.run numbered readAll (overlapping "a.png" "b.png")
          (Ocr.initial nat string)) = 1.
Proof.
  destruct (X24_worker_accounting nat string numbered readAll []) as [_ H].
  destruct (H "a.png" "b.png" 0 1 eq_refl eq_refl) as (_ & _ & Hc & Ht).
  split; [reflexivity|]. split; [reflexivity|].
  split; [exact Hc | exact Ht].
Defined.

(* ================================================================== *)
(** * More on tags and on the explanation *)

Section MoreTagFacts.

Lemma existsb_ext_in (A : Type) (f g : A -> bool) (l : list A) :
  (forall x, In x l -> f x = g x) -> existsb f l = existsb g l.
Proof.
  induction l as [|x l IH]; intros H; simpl; [reflexivity|].
  rewrite (H x (or_introl eq_refl)), IH; [reflexivity|].
  intros y Hy. apply H. now right.
Qed.

Lemma reference_occurrences (name : string) :
  occurrences name Tagger.AWS_SERVICES
  = if String.eqb name "Systems Manager" then 2
    else if existsb (String.eqb name) Tagger.AWS_SERVICES then 1 else 0.
Proof.
  destruct (existsb (String.eqb name) Tagger.AWS_SERVICES) eqn:E.
  - apply existsb_exists in E as (x & Hx & Heq).
    apply String.eqb_eq in Heq. subst x.
    unfold Tagger.AWS_SERVICES in Hx.
    repeat (destruct Hx as [<-|Hx]; [vm_compute; reflexivity|]).
    destruct Hx.
  - assert (Hnone : occurrences name Tagger.AWS_SERVICES = 0).
    { unfold occurrences.
      induction Tagger.AWS_SERVICES as [|x l IH]; [reflexivity|].
      simpl in E |- *. apply orb_false_iff in E as [E1 E2].
      rewrite E1. now apply IH. }
    rewrite Hnone.
    destruct (String.eqb name "Systems Manager") eqn:E'; [|reflexivity].
    apply String.eqb_eq in E'. subst name. vm_compute in E. discriminate E.
Qed.

Lemma occurrences_filter (f : string -> bool) (k : string) (l : list string) :
  occurrences k (filter f l) = if f k then occurrences k l else 0.
Proof.
  unfold occurrences. rewrite filter_filter_eqb.
  destruct (f k); reflexivity.
Qed.

Lemma services_tagQuestion (text : string) :
  Tagger.services (Tagger.tagQuestion text)
  = filter (Tagger.mentions (Str.toUpperCase text)) Tagger.AWS_SERVICES.
Proof. reflexivity. Qed.

Lemma keywords_tagQuestion (text : string) :
  Tagger.keywords (Tagger.tagQuestion text)
  = filter (fun keyword =>
              Str.includes (Str.toUpperCase text) (Str.toUpperCase keyword))
      Tagger.KEYWORDS.
Proof. reflexivity. Qed.

End MoreTagFacts.

(** The analyses of the upload loop carry names of the reference lists
    only, so what is proved of such batches holds of every batch the route
    summarises. *)
Section ReferenceNames.
Variable image : Type.
Variable basename : string -> string.
Variable readFileSync : string -> Upload.outcome image.
Variable recognize : image -> Upload.outcome string.

Lemma domains_tagQuestion (text : string) :
  incl (Tagger.domains (Tagger.tagQuestion text)) (map fst Tagger.DOMAINS).
Proof.
  cbn [Tagger.tagQuestion Tagger.domains]. intros d Hd.
  apply in_map_iff in Hd as (entry & <- & Hentry).
  apply in_map. now apply filter_In in Hentry as [Hentry _].
Qed.

Lemma analysed_referenceTags (file text : string) :
  referenceTags (Upload.analysed file text) = true.
Proof.
  unfold referenceTags.
  change (Analyzer.tags (Upload.analysed file text))
    with (Tagger.tagQuestion text).
  apply andb_true_iff. split; apply forallb_forall; intros x Hx;
    apply existsb_exists; exists x; (split; [|apply String.eqb_refl]).
  - rewrite services_tagQuestion in Hx. now apply filter_In in Hx as [Hx _].
  - now apply domains_tagQuestion in Hx.
Qed.

Lemma processImages_referenceTags (imageFiles : list string) :
  forallb referenceTags
    (Upload.processImages basename readFileSync recognize imageFiles) = true.
Proof.
  rewrite processImages_map. apply forallb_forall. intros a Ha.
  apply in_map_iff in Ha as (f & <- & _). unfold Upload.pushed.
  destruct (Upload.extractText readFileSync recognize f);
    [apply analysed_referenceTags | reflexivity].
Qed.

End ReferenceNames.

(** X26: in the categories of a text a name of the reference list that the
    text mentions stands once, except Systems Manager, which stands twice;
    any other name does not stand there at all. *)
Theorem X26_category_multiplicity (text name : string) :
  occurrences name (Tagger.services (Tagger.tagQuestion text))
  = if Tagger.mentions (Str.toUpperCase text) name
    then (if String.eqb name "Systems Manager" then 2
          else if existsb (String.eqb name) Tagger.AWS_SERVICES then 1 else 0)
    else 0.
Proof.
  rewrite services_tagQuestion, occurrences_filter.
  destruct (Tagger.mentions (Str.toUpperCase text) name); [|reflexivity].
  apply reference_occurrences.
Qed.

(** X27: on the analyses the upload loop builds, the serverless test of
    the recommendations holds exactly when the keyword "serverless" was
    tagged: no keyword of the tagger contains "lambda". *)
Theorem X27_serverless_test_on_tagged (file text : string) :
  Analyzer.isServerlessMistake (Upload.analysed file text)
  = existsb (String.eqb "serverless")
      (Tagger.keywords (Tagger.tagQuestion text)).
Proof.
  unfold Analyzer.isServerlessMistake.
  change (Analyzer.tags (Upload.analysed file text))
    with (Tagger.tagQuestion text).
  apply existsb_ext_in. intros k Hk.
  assert (Hin : In k Tagger.KEYWORDS).
  { rewrite keywords_tagQuestion in Hk.
    now apply filter_In in Hk as [Hk _]. }
  assert (Hall :
    forallb
      (fun k =>
         Bool.eqb
           (Str.includes (Str.toLowerCase k) "serverless"
            || Str.includes (Str.toLowerCase k) "lambda")
           (String.eqb "serverless" k))
      Tagger.KEYWORDS = true) by (vm_compute; reflexivity).
  rewrite forallb_forall in Hall. specialize (Hall k Hin).
  now apply Bool.eqb_prop in Hall.
Qed.

Section ExplanationFacts.
Import Regex.

Lemma take_all s : Str.take (String.length s - 0) s = s.
Proof.
  rewrite Nat.sub_0_r. induction s as [|a s IH]; simpl; [reflexivity | now rewrite IH].
Qed.

(** The explanation pattern captures the text from some position to the
    end. *)
Lemma explanation_capture s res :
  search Parser.explanationRegex s = Some res ->
  suffixOf (Parser.group 1 (fst res)) s.
Proof.
  intros H. apply search_matchHere in H as (t & Ht & H).
  unfold matchHere, Parser.explanationRegex in H. rewrite rmatch_Seq in H.
  apply rmatch_from_cont in H as (s1 & c1 & Hs1 & H).
  rewrite rmatch_Seq in H.
  apply rmatch_from_cont in H as (s2 & c2 & Hs2 & H).
  rewrite rmatch_Seq in H. cbn [rmatch] in H.
  apply starLoop_from_cont in H as (s3 & c3 & _ & H);
    [|intros s0 c0 k0 res0 Hb; exact (rmatch_from_cont dot s0 c0 k0 res0 Hb)].
  destruct s3; [|discriminate]. unfold done in H. injection H as <-.
  cbn [fst]. unfold Parser.group. cbn [capture Nat.eqb]. rewrite take_all.
  apply suffixOf_trans with t; [|exact Ht].
  exact (suffixOf_trans _ _ _ Hs2 Hs1).
Qed.

Lemma trimStart_suffix s : suffixOf (Str.trimStart s) s.
Proof.
  induction s as [|a s IH]; simpl; [apply suffixOf_refl|].
  destruct (Str.isSpace a); [|apply suffixOf_refl].
  apply suffixOf_trans with s; [exact IH | apply suffixOf_tail].
Qed.

Lemma trimStart_app a b :
  Str.trimStart a <> "" -> Str.trimStart (a ++ b) = Str.trimStart a ++ b.
Proof.
  induction a as [|x a IH]; simpl; [congruence|].
  destruct (Str.isSpace x); [exact IH | reflexivity].
Qed.

(** Blanks are trimmed from the end only: in front of a text that keeps
    something, everything stays. *)
Lemma trimEnd_app p h :
  Str.trimEnd h <> "" -> Str.trimEnd (p ++ h) = p ++ Str.trimEnd h.
Proof.
  unfold Str.trimEnd. intros H.
  rewrite rev_append, trimStart_app, rev_append, rev_rev; [reflexivity|].
  intros Hempty. apply H. now rewrite Hempty.
Qed.

End ExplanationFacts.

(** X28: an explanation that is not empty runs to the end of the text: the
    text, with its line breaks normalised and the blanks at its end taken
    off, ends with the explanation. *)
Theorem X28_explanation_runs_to_end (text : string) :
  Parser.explanation (Parser.parseQuestion text) <> "" ->
  exists before,
    Str.trimEnd (Parser.normalize text)
    = before ++ Parser.explanation (Parser.parseQuestion text).
Proof.
  cbn [Parser.parseQuestion Parser.explanation].
  destruct (Regex.search Parser.explanationRegex (Parser.normalize text))
    as [[c rest]|] eqn:E; [|congruence].
  apply explanation_capture in E. cbn [fst] in E.
  destruct E as [p Hp].
  destruct (trimStart_suffix (Parser.group 1 c)) as [q Hq].
  unfold Str.trim. intros Hne.
  exists (p ++ q).
  rewrite Hp. rewrite Hq at 1.
  rewrite <- append_assoc. now apply trimEnd_app.
Qed.

Lemma X28_explanation_witness :
  Parser.explanation (Parser.parseQuestion scenario1) <> ""
  /\ exists before,
       Str.trimEnd (Parser.normalize scenario1)
       = before ++ Parser.explanation (Parser.parseQuestion scenario1).
Proof.
  assert (H : Parser.explanation (Parser.parseQuestion scenario1) <> "")
    by (vm_compute; discriminate).
  split; [exact H|].
  exact (X28_explanation_runs_to_end scenario1 H).
Defined.
